(** * ocs-agent: the websocket message handler of [src/index.js]

    A shallow embedding of the conversational gateway: the query router
    [callSqlApi], the tool dispatcher (the [for] loop over the tool calls
    of an assistant turn), the bounded orchestration loop (the [while]
    loop of the message handler) and the guards in front of it.

    The repository holds the handler twice: [src/index.js] and a
    deployment variant whose differences (base URL of the data-access
    backend taken from the environment, no echo of the user message,
    longer texts in some frames) are kept apart by [variant].

    What the embedding takes as given:
    - the connection is open while handlers run, and a frame can always
      be sent: [send] does not throw;
    - the completion backend keeps to its documented shape: in a body
      that parses, [choices[0].message] is an object whose [content] is
      a string, [null] or absent and whose [tool_calls], when present,
      is a list of calls with string [id], [function.name] and
      [function.arguments].  The handler is verified against such
      backends only: a 2xx body that parses to JSON of another shape is
      outside the model ([body_json] rejects for a body that is not
      JSON);
    - the arguments of a tool call and the frames of the client are
      arbitrary strings, and what [JSON.parse] makes of them is an
      arbitrary JSON value;
    - the built-ins of the engine ([JSON.parse], [JSON.stringify], the
      conversion of a value to a string, [toUpperCase]) are arbitrary
      but for what the language fixes of them on ASCII text;
    - the tool catalog [TOOLS] and the model name, which are sent
      unchanged with every completion request, are left out. *)

From Stdlib Require Import String Ascii List Bool Arith Lia.
From Stdlib Require Import PArith Floats.SpecFloat.
From Stdlib Require Import Numbers.DecimalString.
Import ListNotations.
Open Scope string_scope.
Open Scope list_scope.
Open Scope nat_scope.
Open Scope bool_scope.

(** String concatenation, [a + b] on JavaScript strings. *)
Infix "+++" := String.append (at level 60, right associativity).

(** ** JavaScript strings

    A string is the sequence of the bytes of its UTF-8 form: the
    characters below 128 are the ASCII characters of the JavaScript
    string, each of them a character of its own, and a character
    outside ASCII takes several bytes, all of them 128 or above. *)

Module JsString.

Definition is_lower (c : ascii) : bool :=
  (97 <=? nat_of_ascii c) && (nat_of_ascii c <=? 122).

Definition is_upper (c : ascii) : bool :=
  (65 <=? nat_of_ascii c) && (nat_of_ascii c <=? 90).

Definition upper_char (c : ascii) : ascii :=
  if is_lower c then ascii_of_nat (nat_of_ascii c - 32) else c.

(** Upper-casing as it is on ASCII text: a..z become A..Z, every other
    character stays. *)
Fixpoint upper_ascii (s : string) : string :=
  match s with
  | EmptyString => EmptyString
  | String c s' => String (upper_char c) (upper_ascii s')
  end.

Definition is_ascii (c : ascii) : bool := nat_of_ascii c <? 128.

(** A string of ASCII characters only. *)
Fixpoint ascii_only (s : string) : bool :=
  match s with
  | EmptyString => true
  | String c s' => is_ascii c && ascii_only s'
  end.

(** [s.startsWith(pat)], the test [includes] makes at each position. *)
Fixpoint startsWith (s pat : string) : bool :=
  match pat, s with
  | EmptyString, _ => true
  | String _ _, EmptyString => false
  | String p pat', String c s' => Ascii.eqb c p && startsWith s' pat'
  end.

(** [s.includes(pat)]: [pat] occurs in [s] as a substring. *)
Fixpoint includes (s pat : string) : bool :=
  startsWith s pat ||
  match s with
  | EmptyString => false
  | String _ s' => includes s' pat
  end.

(** What "contains the keyword, case-insensitively" says, written
    without the code's upper-casing: some substring of the query is
    the keyword letter by letter, each letter in either case (the
    capital or the small ASCII letter). *)
Definition same_letter (c k : ascii) : Prop :=
  c = k \/ nat_of_ascii c = nat_of_ascii k + 32.

Inductive spells : string -> string -> Prop :=
| spells_nil : spells EmptyString EmptyString
| spells_cons c k s kw :
    same_letter c k -> spells s kw -> spells (String c s) (String k kw).

Definition contains_ci (q kw : string) : Prop :=
  exists pre mid post, q = pre +++ mid +++ post /\ spells mid kw.

(** A keyword is written in capital letters. *)
Fixpoint keyword (kw : string) : bool :=
  match kw with
  | EmptyString => true
  | String k kw' => is_upper k && keyword kw'
  end.

End JsString.
Import JsString.

(** ** JSON values and the built-ins of the runtime *)

Unset Elimination Schemes.
Inductive json : Type :=
| JNull
| JBool (b : bool)
| JNum (x : spec_float)
| JStr (s : string)
| JArr (items : list json)
| JObj (members : list (string * json)).
Set Elimination Schemes.

(** A promise once settled, and likewise a call that returns or throws:
    the value, or the message of the error. *)
Inductive settled (A : Type) : Type :=
| Resolved (a : A)
| Rejected (message : string).
Arguments Resolved {A} a.
Arguments Rejected {A} message.

(** [JSON.parse], [JSON.stringify], the conversion of a value that is
    not a string to a string (template literals, [+]) and
    [String.prototype.toUpperCase] are built-ins of the engine; the
    handler is verified for every engine.

    The conversion to a string throws a [TypeError] for some values (an
    object with an own [toString] field, which is not callable).

    [toUpperCase] maps also characters outside ASCII, some of them to
    ASCII capitals (U+017F to S, U+0131 to I, U+00DF to SS).  What the
    language fixes and the handler relies on: the mapping goes character
    by character, whatever stands around, and on an ASCII character it
    is the map of a..z to A..Z. *)
Class Runtime : Type := {
  JSON_parse : string -> settled json;
  JSON_stringify : json -> string;
  ToString : json -> settled string;
  toUpperCase : string -> string;
  toUpperCase_empty : toUpperCase EmptyString = EmptyString;
  toUpperCase_ascii :
    forall (pre : string) (c : ascii) (post : string),
      is_ascii c = true ->
      toUpperCase (pre +++ String c post)
      = toUpperCase pre +++ String (upper_char c) (toUpperCase post)
}.

Module Js.

(** Truthiness: [!v] is [negb (truthy v)].  A number is falsy when it
    is [0], [-0] or [NaN]. *)
Definition truthy (v : json) : bool :=
  match v with
  | JNull => false
  | JBool b => b
  | JNum (S754_zero _) => false
  | JNum S754_nan => false
  | JNum _ => true
  | JStr s => negb (s =? "")%string
  | JArr _ => true
  | JObj _ => true
  end.

(** A property read may give [undefined], which is falsy. *)
Definition truthy_opt (v : option json) : bool :=
  match v with
  | None => false
  | Some v => truthy v
  end.

(** The own property [name] of a parsed object ([JSON.parse] keeps one
    value per key). *)
Fixpoint lookup (name : string) (members : list (string * json)) : option json :=
  match members with
  | [] => None
  | (k, v) :: rest => if (k =? name)%string then Some v else lookup name rest
  end.

(** [`${v}`], and likewise [text + v]: a string as it is, any other
    value converted, which may throw. *)
Definition template `{Runtime} (v : json) : settled string :=
  match v with
  | JStr s => Resolved s
  | _ => ToString v
  end.

(** The test the router and the dispatcher make of a query:
    [query.toUpperCase().includes(keyword)]. *)
Definition mentions `{Runtime} (query keyword : string) : Prop :=
  includes (toUpperCase query) keyword = true.

(** [`${n}`] for an HTTP status. *)
Definition decimal (n : nat) : string := NilZero.string_of_uint (Nat.to_uint n).

End Js.
Import Js.

(** ** Data model *)

(** A tool call of an assistant turn: [toolCall.id],
    [toolCall.function.name], [toolCall.function.arguments]. *)
Record tool_call : Type := {
  id : string;
  function_name : string;
  function_arguments : string
}.

(** What reading [messageResponse.content] gives: a string, [null], or
    [undefined] when the message has no such field. *)
Inductive content_field : Type :=
| Text (text : string)
| Null
| Undefined.

(** [choices[0].message] of a completion response; [tool_calls] may be
    absent. *)
Record assistant_turn : Type := {
  content : content_field;
  tool_calls : option (list tool_call)
}.

(** The entries of [messages], by role. *)
Inductive message : Type :=
| system_message (content : string)
| user_message (content : json)
| assistant_message (turn : assistant_turn)
| tool_message (tool_call_id : string) (content : string).

(** The frames of [serverWebSocket.send(JSON.stringify(...))]: an object
    with the one field [progress], [response] or [error].  The frame
    of the answer is [JSON.stringify({response: content})]:
    [Response Null] is [{"response":null}], and [Response Undefined],
    the frame of a turn without the field, is the empty object [{}],
    since [JSON.stringify] leaves out a field that is [undefined]. *)
Inductive frame : Type :=
| Progress (text : string)
| Response (content : content_field)
| Error (text : string).

(** What [fetch] resolves to: the status, and what [response.text()] and
    [response.json()] settle to. *)
Record http_response (B : Type) : Type := {
  status : nat;
  body_text : settled string;
  body_json : settled B
}.
Arguments status {B} _.
Arguments body_text {B} _.
Arguments body_json {B} _.

(** [response.ok]: the status is in the range 200-299. *)
Definition ok {B} (r : http_response B) : bool :=
  (200 <=? status r) && (status r <=? 299).

(** The two deployments of the handler. *)
Inductive variant : Type :=
| index_js
| part_000.

(** One connection's entries of the maps [conversations] and
    [processing], under its [conversationId]. *)
Record session : Type := {
  messages : list message;
  processing : bool
}.

Definition push (m : message) (s : session) : session :=
  {| messages := messages s ++ [m]; processing := processing s |}.

Definition set_processing (b : bool) (s : session) : session :=
  {| messages := messages s; processing := b |}.

(** ** Handler programs

    The handler is asynchronous: it runs until an [await], is suspended
    there, and goes on when the awaited call settles.  A program is the
    tree of what it does: frames sent, reads and writes of the session,
    thrown errors, and the two awaited exchanges, each with the
    continuation that receives the outcome.  [await fetch(...)] and the
    [await response.json()] or [await response.text()] after it touch
    neither the session nor the socket in between, so one node stands
    for the whole exchange. *)

Inductive prog (A : Type) : Type :=
| Ret (a : A)
| Throw (message : string)
| Send (f : frame) (k : prog A)
| GetProcessing (k : bool -> prog A)
| SetProcessing (b : bool) (k : prog A)
| Push (m : message) (k : prog A)
| FetchCompletion (k : settled (http_response assistant_turn) -> prog A)
| FetchSql (url query : string) (k : settled (http_response json) -> prog A).
Arguments Ret {A} a.
Arguments Throw {A} message.
Arguments Send {A} f k.
Arguments GetProcessing {A} k.
Arguments SetProcessing {A} b k.
Arguments Push {A} m k.
Arguments FetchCompletion {A} k.
Arguments FetchSql {A} url query k.

Fixpoint bind {A B} (p : prog A) (f : A -> prog B) : prog B :=
  match p with
  | Ret a => f a
  | Throw m => Throw m
  | Send fr k => Send fr (bind k f)
  | GetProcessing k => GetProcessing (fun b => bind (k b) f)
  | SetProcessing b k => SetProcessing b (bind k f)
  | Push m k => Push m (bind k f)
  | FetchCompletion k => FetchCompletion (fun o => bind (k o) f)
  | FetchSql url q k => FetchSql url q (fun o => bind (k o) f)
  end.

(** [try { p } catch (error) { h error.message }] *)
Fixpoint try_catch {A} (p : prog A) (h : string -> prog A) : prog A :=
  match p with
  | Ret a => Ret a
  | Throw m => h m
  | Send fr k => Send fr (try_catch k h)
  | GetProcessing k => GetProcessing (fun b => try_catch (k b) h)
  | SetProcessing b k => SetProcessing b (try_catch k h)
  | Push m k => Push m (try_catch k h)
  | FetchCompletion k => FetchCompletion (fun o => try_catch (k o) h)
  | FetchSql url q k => FetchSql url q (fun o => try_catch (k o) h)
  end.

Notation "x <- p ;; q" := (bind p (fun x => q))
  (at level 61, p at next level, right associativity).
Notation "p ;; q" := (bind p (fun _ => q))
  (at level 61, right associativity).

Definition send (f : frame) : prog unit := Send f (Ret tt).
Definition get_processing : prog bool := GetProcessing (fun b => Ret b).
Definition put_processing (b : bool) : prog unit := SetProcessing b (Ret tt).
Definition messages_push (m : message) : prog unit := Push m (Ret tt).

(** [await p] for a promise that settles to [r]; also a call that
    returns or throws. *)
Definition await {A} (r : settled A) : prog A :=
  match r with
  | Resolved a => Ret a
  | Rejected m => Throw m
  end.

Definition fetch_completion : prog (http_response assistant_turn) :=
  FetchCompletion await.

Definition fetch_sql (url query : string) : prog (http_response json) :=
  FetchSql url query await.

(** How a pass of a loop body ends: at its end, or at a [break]. *)
Inductive flow : Type :=
| Next
| Break.

(** The messages of the engine's [TypeError]s (V8 wording). *)
Definition null_property (name : string) : string :=
  "Cannot read properties of null (reading '" +++ name +++ "')".
Definition not_a_function : string := "query.toUpperCase is not a function".

(** [v.name] *)
Definition property (v : json) (name : string) : prog (option json) :=
  match v with
  | JNull => Throw (null_property name)
  | JObj members => Ret (lookup name members)
  | _ => Ret None
  end.

(** The receiver of [query.toUpperCase()], a string or a [TypeError]. *)
Definition receiver (query : json) : prog string :=
  match query with
  | JStr s => Ret s
  | _ => Throw not_a_function
  end.

(** ** The handler *)

Section Handler.

Context {rt : Runtime}.

(** Which of the two files runs, and [env.SQL_API_BASE_URL], which
    only the deployment variant reads. *)
Variable v : variant.
Variable SQL_API_BASE_URL : string.

Definition query_url : string :=
  match v with
  | index_js => "https://34ee5145-restless-tree-1740.ptson117.workers.dev/api/sql/query"
  | part_000 => SQL_API_BASE_URL +++ "api/sql/query"
  end.

Definition mutate_url : string :=
  match v with
  | index_js => "https://34ee5145-restless-tree-1740.ptson117.workers.dev/api/sql/mutate"
  | part_000 => SQL_API_BASE_URL +++ "api/sql/mutate"
  end.

(** [{ error: text }] *)
Definition error_value (text : string) : json := JObj [("error", JStr text)].

(** The [try]/[catch] of [callSqlApi] around the POST to [url]. *)
Definition post_query (url query : string) : prog json :=
  try_catch
    (response <- fetch_sql url query ;;
     if negb (ok response)
     then Throw ("HTTP error " +++ decimal (status response))
     else
       data <- await (body_json response) ;;
       Ret data)
    (fun message => Ret (error_value ("API call error: " +++ message))).

Definition callSqlApi (query : string) : prog json :=
  let upperQuery := toUpperCase query in
  if includes upperQuery "SELECT" then post_query query_url query
  else if includes upperQuery "INSERT"
          || includes upperQuery "UPDATE"
          || includes upperQuery "DELETE"
  then post_query mutate_url query
  else Ret (error_value "Invalid query type").

(** The text of the progress frame of a tool call, for a query whose
    conversion to a string is [queryText]:
    [messageResponse.content || (functionName === "run_sql_query" ? ... : ...)] *)
Definition synthesized_text (functionName queryText : string) : string :=
  match v with
  | index_js =>
      if (functionName =? "run_sql_query")%string
      then "Querying data..." else "Updating data..."
  | part_000 =>
      if (functionName =? "run_sql_query")%string
      then "Querying data...[" +++ queryText +++ "]"
      else "Updating data...[" +++ queryText +++ "]"
  end.

Definition description_text (messageResponse : assistant_turn)
           (functionName queryText : string) : string :=
  match content messageResponse with
  | Text text =>
      if negb (text =? "")%string then text
      else synthesized_text functionName queryText
  | Null | Undefined => synthesized_text functionName queryText
  end.

(** The right operand of [||]: only the deployment variant puts the
    query into the text, and [+] throws when the query does not convert
    to a string. *)
Definition synthesized (functionName : string) (query : json) : prog string :=
  match v with
  | index_js => Ret (synthesized_text functionName EmptyString)
  | part_000 =>
      queryText <- await (template query) ;;
      Ret (synthesized_text functionName queryText)
  end.

(** [const description = ...]: the right operand is evaluated only when
    [content] is falsy. *)
Definition description (messageResponse : assistant_turn)
           (functionName : string) (query : json) : prog string :=
  match content messageResponse with
  | Text text =>
      if negb (text =? "")%string then Ret text
      else synthesized functionName query
  | Null | Undefined => synthesized functionName query
  end.

(** The call to the backend and the [tool] message of its result. *)
Definition run_tool (toolCall : tool_call) (query : string) : prog flow :=
  result <- callSqlApi query ;;
  let resultStr := JSON_stringify result in
  messages_push (tool_message (id toolCall) resultStr) ;;
  Ret Next.

(** The body of [for (const toolCall of messageResponse.tool_calls)]. *)
Definition tool_call_body (messageResponse : assistant_turn)
           (toolCall : tool_call) : prog flow :=
  let functionName := function_name toolCall in
  match JSON_parse (function_arguments toolCall) with
  | Rejected _ =>
      send (Error "Invalid tool call arguments.") ;;
      Ret Break
  | Resolved agrs =>
      query <- property agrs "query" ;;
      match query with
      | None =>
          send (Error "Missing query parameter.") ;;
          Ret Break
      | Some q =>
          if negb (truthy q)
          then
            send (Error "Missing query parameter.") ;;
            Ret Break
          else
            d <- description messageResponse functionName q ;;
            send (Progress d) ;;
            if (functionName =? "run_sql_query")%string then
              text <- receiver q ;;
              if negb (includes (toUpperCase text) "SELECT")
              then
                send (Error "run_sql_query is only for SELECT queries.") ;;
                Ret Break
              else run_tool toolCall text
            else if (functionName =? "run_sql_mutation")%string then
              text <- receiver q ;;
              if negb (existsb (fun op => includes (toUpperCase text) op)
                               ["INSERT"; "UPDATE"; "DELETE"])
              then
                send (Error "run_sql_mutation is only for INSERT, UPDATE, DELETE queries.") ;;
                Ret Break
              else run_tool toolCall text
            else
              send (Error ("Unknown function: " +++ functionName)) ;;
              Ret Break
      end
  end.

Fixpoint for_tool_calls (messageResponse : assistant_turn)
         (calls : list tool_call) : prog unit :=
  match calls with
  | [] => Ret tt
  | toolCall :: rest =>
      f <- tool_call_body messageResponse toolCall ;;
      match f with
      | Break => Ret tt
      | Next => for_tool_calls messageResponse rest
      end
  end.

Definition maxIterations : nat := 10.

(** The completion call of one pass: the POST to [DEEPSEEK_API_URL]
    with the current [messages], up to [choices[0].message]. *)
Definition completion : prog assistant_turn :=
  response <- fetch_completion ;;
  if negb (ok response)
  then
    match v with
    | index_js => Throw ("DeepSeek API error " +++ decimal (status response))
    | part_000 =>
        errorBody <- await (body_text response) ;;
        Throw ("DeepSeek API error " +++ decimal (status response)
               +++ ": " +++ errorBody)
    end
  else await (body_json response).

(** The [try] block of the [while] loop.  [Next] stands for its last
    statement, [iteration++]. *)
Definition iteration_body : prog flow :=
  messageResponse <- completion ;;
  messages_push (assistant_message messageResponse) ;;
  match tool_calls messageResponse with
  | None =>
      send (Response (content messageResponse)) ;;
      Ret Break
  | Some calls =>
      if length calls =? 0
      then
        send (Response (content messageResponse)) ;;
        Ret Break
      else
        for_tool_calls messageResponse calls ;;
        Ret Next
  end.

(** One pass of the [while] loop: its [try] block under its [catch]. *)
Definition pass : prog flow :=
  try_catch iteration_body
    (fun message =>
       send (Error ("DeepSeek API error: " +++ message)) ;;
       Ret Break).

(** [while (iteration < maxIterations)]; the result is the value of
    [iteration] after the loop.  [fuel] bounds the passes, and
    [maxIterations - iteration] of it is enough (see [while_loop_fuel]). *)
Fixpoint while_loop (fuel iteration : nat) : prog nat :=
  match fuel with
  | 0 => Ret iteration
  | S fuel' =>
      if iteration <? maxIterations
      then
        f <- pass ;;
        match f with
        | Break => Ret iteration
        | Next => while_loop fuel' (S iteration)
        end
      else Ret iteration
  end.

(** [index.js] echoes the user message; the line is commented out in
    the deployment variant.  The template literal throws when the
    message does not convert to a string. *)
Definition echo (message : json) : prog unit :=
  match v with
  | index_js =>
      text <- await (template message) ;;
      send (Progress ("You: " +++ text))
  | part_000 => Ret tt
  end.

(** The turn once the message is accepted. *)
Definition turn (message : json) : prog unit :=
  put_processing true ;;
  messages_push (user_message message) ;;
  echo message ;;
  iteration <- while_loop maxIterations 0 ;;
  (if maxIterations <=? iteration
   then send (Error "Reached maximum function call limit.")
   else Ret tt) ;;
  put_processing false.

(** The listener of the [message] event, on [event.data]. *)
Definition on_message (event_data : string) : prog unit :=
  try_catch
    (data <- await (JSON_parse event_data) ;;
     message <- property data "message" ;;
     match message with
     | None => send (Error "No message content provided.")
     | Some m =>
         if negb (truthy m)
         then send (Error "No message content provided.")
         else
           busy <- get_processing ;;
           if busy
           then send (Error "Processing previous message, please wait.")
           else turn m
     end)
    (fun message =>
       send (Error ("Error: " +++ message)) ;;
       put_processing false).

End Handler.

(** ** Running a handler

    What an observer of one run sees, in order: the frames sent to the
    client, the completion requests (with the [messages] they carry) and
    the POSTs to the data-access backend, each exchange with the outcome
    the backend gave. *)

Inductive event : Type :=
| Sent (f : frame)
| Completion (messages : list message) (outcome : settled (http_response assistant_turn))
| SqlPost (url query : string) (outcome : settled (http_response json)).

(** The backends, as the outcomes they will give to the exchanges still
    to come, in order; once a script has run out, the exchange fails in
    transport.  The handler is deterministic in the outcomes, so its
    runs against all scripts are all its runs. *)
Record backends : Type := {
  completions : list (settled (http_response assistant_turn));
  sql_results : list (settled (http_response json))
}.

Definition next_completion (w : backends)
  : settled (http_response assistant_turn) * backends :=
  match completions w with
  | [] => (Rejected "fetch failed", w)
  | o :: rest => (o, {| completions := rest; sql_results := sql_results w |})
  end.

Definition next_sql (w : backends) : settled (http_response json) * backends :=
  match sql_results w with
  | [] => (Rejected "fetch failed", w)
  | o :: rest => (o, {| completions := completions w; sql_results := rest |})
  end.

Record run (A : Type) : Type := {
  events : list event;
  final : session;
  remaining : backends;
  result : settled A
}.
Arguments events {A} _.
Arguments final {A} _.
Arguments remaining {A} _.
Arguments result {A} _.

Definition after {A} (e : event) (r : run A) : run A :=
  {| events := e :: events r; final := final r;
     remaining := remaining r; result := result r |}.

Definition prepend {A} (es : list event) (r : run A) : run A :=
  {| events := es ++ events r; final := final r;
     remaining := remaining r; result := result r |}.

(** A run of [p] with no other handler of the session running in
    between. *)
Fixpoint exec {A} (p : prog A) (w : backends) (s : session) : run A :=
  match p with
  | Ret a => {| events := []; final := s; remaining := w; result := Resolved a |}
  | Throw m => {| events := []; final := s; remaining := w; result := Rejected m |}
  | Send f k => after (Sent f) (exec k w s)
  | GetProcessing k => exec (k (processing s)) w s
  | SetProcessing b k => exec k w (set_processing b s)
  | Push m k => exec k w (push m s)
  | FetchCompletion k =>
      let (o, w') := next_completion w in
      after (Completion (messages s) o) (exec (k o) w' s)
  | FetchSql url q k =>
      let (o, w') := next_sql w in
      after (SqlPost url q o) (exec (k o) w' s)
  end.

Definition frames (es : list event) : list frame :=
  flat_map (fun e => match e with Sent f => [f] | _ => [] end) es.

Definition round_trips (es : list event) : nat :=
  length (filter (fun e => match e with Completion _ _ => true | _ => false end) es).

Definition sql_posts (es : list event) : list (string * string) :=
  flat_map (fun e => match e with SqlPost url q _ => [(url, q)] | _ => [] end) es.

(** ** Handlers of one connection, interleaved

    The listener is [async]: while one handler is suspended at an
    [await], the next [message] event starts another handler on the same
    session.  A handler runs without interruption up to its next
    [await]. *)

Fixpoint run_sync {A} (p : prog A) (s : session) : list frame * session * prog A :=
  match p with
  | Send f k => let '(fs, s', p') := run_sync k s in (f :: fs, s', p')
  | GetProcessing k => run_sync (k (processing s)) s
  | SetProcessing b k => run_sync k (set_processing b s)
  | Push m k => run_sync k (push m s)
  | _ => ([], s, p)
  end.

Record connection : Type := {
  state : session;
  suspended : list (prog unit);
  outbox : list frame
}.

(** A handler that stopped at an [await] waits; one that returned is
    gone. *)
Definition park (p : prog unit) (waiting : list (prog unit)) : list (prog unit) :=
  match p with
  | FetchCompletion _ => waiting ++ [p]
  | FetchSql _ _ _ => waiting ++ [p]
  | _ => waiting
  end.

Definition resume (p : prog unit) (s : session) (waiting : list (prog unit))
           (sent : list frame) : connection :=
  let '(fs, s', p') := run_sync p s in
  {| state := s'; suspended := park p' waiting; outbox := sent ++ fs |}.

Section Interleaving.

Context {rt : Runtime}.
Variable v : variant.
Variable SQL_API_BASE_URL : string.

(** The connection once accepted: the system prompt, not processing.
    [outbox] collects the frames of the message handlers (the
    deployment variant greets the client before any of them runs). *)
Definition accepted (SYSTEM_PROMPT : string) : connection :=
  {| state := {| messages := [system_message SYSTEM_PROMPT]; processing := false |};
     suspended := [];
     outbox := [] |}.

Inductive step : connection -> connection -> Prop :=
| message_arrives c event_data :
    step c (resume (on_message v SQL_API_BASE_URL event_data)
                   (state c) (suspended c) (outbox c))
| completion_settles c before k rest o :
    suspended c = before ++ FetchCompletion k :: rest ->
    step c (resume (k o) (state c) (before ++ rest) (outbox c))
| sql_settles c before url q k rest o :
    suspended c = before ++ FetchSql url q k :: rest ->
    step c (resume (k o) (state c) (before ++ rest) (outbox c)).

Inductive reachable (SYSTEM_PROMPT : string) : connection -> Prop :=
| reachable_accepted : reachable SYSTEM_PROMPT (accepted SYSTEM_PROMPT)
| reachable_step c c' :
    reachable SYSTEM_PROMPT c -> step c c' -> reachable SYSTEM_PROMPT c'.

(** The connections that only ever received frames that parse to a
    value other than [null], the frames for which the handler does not
    end in its outer [catch]. *)
Inductive orderly (SYSTEM_PROMPT : string) : connection -> Prop :=
| orderly_accepted : orderly SYSTEM_PROMPT (accepted SYSTEM_PROMPT)
| orderly_message c event_data value :
    orderly SYSTEM_PROMPT c ->
    JSON_parse event_data = Resolved value ->
    value <> JNull ->
    orderly SYSTEM_PROMPT
            (resume (on_message v SQL_API_BASE_URL event_data)
                    (state c) (suspended c) (outbox c))
| orderly_completion c before k rest o :
    orderly SYSTEM_PROMPT c ->
    suspended c = before ++ FetchCompletion k :: rest ->
    orderly SYSTEM_PROMPT (resume (k o) (state c) (before ++ rest) (outbox c))
| orderly_sql c before url q k rest o :
    orderly SYSTEM_PROMPT c ->
    suspended c = before ++ FetchSql url q k :: rest ->
    orderly SYSTEM_PROMPT (resume (k o) (state c) (before ++ rest) (outbox c)).

(** The sessions of connections whose turns are served one after the
    other: each frame arrives when no handler is suspended, and the
    exchanges of its handler settle before the next frame arrives. *)
Inductive served (SYSTEM_PROMPT : string) : session -> Prop :=
| served_accepted : served SYSTEM_PROMPT (state (accepted SYSTEM_PROMPT))
| served_turn s event_data w :
    served SYSTEM_PROMPT s ->
    served SYSTEM_PROMPT (final (exec (on_message v SQL_API_BASE_URL event_data) w s)).

End Interleaving.

(** ** A runtime for the examples

    [JSON.parse] as the table of the texts the examples use, everything
    else taken as a syntax error; [JSON.stringify] and the string
    conversion on values without escapes, numbers printed when they are
    integers. *)

Module Sample.

(** [s] between double quotes. *)
Definition quoted (s : string) : string :=
  String "034"%char (s +++ String "034"%char "").

(** The text [{"name":value}]. *)
Definition object_text (name value : string) : string :=
  "{" +++ quoted name +++ ":" +++ value +++ "}".

(** The number [n]. *)
Definition number (n : nat) : spec_float :=
  match n with
  | 0 => S754_zero false
  | S _ => S754_finite false (Pos.of_nat n) Z0
  end.

Definition texts : list (string * json) :=
  [ (object_text "message" (quoted "list all packages"),
     JObj [("message", JStr "list all packages")]);
    (object_text "message" (quoted "a"), JObj [("message", JStr "a")]);
    (object_text "message" (quoted "b"), JObj [("message", JStr "b")]);
    (object_text "message" (quoted ""), JObj [("message", JStr "")]);
    (object_text "message" "5", JObj [("message", JNum (number 5))]);
    (object_text "message" "0", JObj [("message", JNum (number 0))]);
    (object_text "message" "null", JObj [("message", JNull)]);
    (object_text "message" "false", JObj [("message", JBool false)]);
    (object_text "message" (object_text "toString" "1"),
     JObj [("message", JObj [("toString", JNum (number 1))])]);
    ("{}", JObj []);
    ("null", JNull);
    (object_text "query" (quoted "SELECT * FROM packages"),
     JObj [("query", JStr "SELECT * FROM packages")]);
    (object_text "query" (quoted "INSERT INTO a SELECT * FROM b"),
     JObj [("query", JStr "INSERT INTO a SELECT * FROM b")]);
    (object_text "query" "null", JObj [("query", JNull)]);
    (object_text "query" (quoted "DROP TABLE packages"),
     JObj [("query", JStr "DROP TABLE packages")]);
    (object_text "query" (quoted ""), JObj [("query", JStr "")]);
    (object_text "query" "5", JObj [("query", JNum (number 5))]);
    (object_text "query" (object_text "toString" "1"),
     JObj [("query", JObj [("toString", JNum (number 1))])]) ].

Definition parse (text : string) : settled json :=
  match lookup text texts with
  | Some value => Resolved value
  | None => Rejected "Unexpected token"
  end.

Definition number_text (x : spec_float) : string :=
  match x with
  | S754_zero _ => "0"
  | S754_finite false m Z0 => decimal (Pos.to_nat m)
  | S754_finite true m Z0 => "-" +++ decimal (Pos.to_nat m)
  | S754_infinity false => "Infinity"
  | S754_infinity true => "-Infinity"
  | _ => "NaN"
  end.

Definition join (sep : string) (parts : list string) : string :=
  match parts with
  | [] => ""
  | first :: rest => fold_left (fun acc part => acc +++ sep +++ part) rest first
  end.

Fixpoint stringify (value : json) : string :=
  match value with
  | JNull => "null"
  | JBool true => "true"
  | JBool false => "false"
  | JNum x => match x with
              | S754_infinity _ => "null"
              | S754_nan => "null"
              | _ => number_text x
              end
  | JStr s => quoted s
  | JArr items => "[" +++ join "," (map stringify items) +++ "]"
  | JObj members =>
      "{" +++ join "," (map (fun member =>
                               quoted (fst member) +++ ":" +++ stringify (snd member))
                            members) +++ "}"
  end.

(** The conversion to a string.  An object converts through its
    [toString]: the one of [Object.prototype], unless the object has an
    own field of that name, which is not callable; [valueOf] then gives
    back the object, and the conversion throws.  An array converts its
    items from left to right. *)
Definition cannot_convert : string := "Cannot convert object to primitive value".

Fixpoint to_string (value : json) : settled string :=
  match value with
  | JNull => Resolved "null"
  | JBool true => Resolved "true"
  | JBool false => Resolved "false"
  | JNum x => Resolved (number_text x)
  | JStr s => Resolved s
  | JArr items =>
      match
        (fix items_text (items : list json) : settled (list string) :=
           match items with
           | [] => Resolved []
           | item :: rest =>
               match match item with
                     | JNull => Resolved ""
                     | _ => to_string item
                     end with
               | Rejected e => Rejected e
               | Resolved text =>
                   match items_text rest with
                   | Rejected e => Rejected e
                   | Resolved texts => Resolved (text :: texts)
                   end
               end
           end) items
      with
      | Rejected e => Rejected e
      | Resolved texts => Resolved (join "," texts)
      end
  | JObj members =>
      match lookup "toString" members with
      | Some _ => Rejected cannot_convert
      | None => Resolved "[object Object]"
      end
  end.

(** The engine of the examples upper-cases ASCII letters and leaves
    every other character as it is. *)
#[export, refine] Instance runtime : Runtime :=
  {| JSON_parse := parse; JSON_stringify := stringify; ToString := to_string;
     toUpperCase := upper_ascii;
     toUpperCase_empty := eq_refl;
     toUpperCase_ascii := _ |}.
Proof.
intros pre c post _.
induction pre as [|p pre IH]; simpl; [reflexivity | rewrite IH; reflexivity].
Defined.

(** A session right after the connection was accepted, and the same
    while a turn is running. *)
Definition idle : session :=
  {| messages := [system_message "prompt"]; processing := false |}.
Definition busy : session :=
  {| messages := [system_message "prompt"]; processing := true |}.

(** A 200 response with body [b], and a response with another status. *)
Definition respond {B} (b : B) : settled (http_response B) :=
  Resolved {| status := 200; body_text := Resolved ""; body_json := Resolved b |}.
Definition refuse {B} (code : nat) : settled (http_response B) :=
  Resolved {| status := code; body_text := Resolved "";
              body_json := Rejected "Unexpected end of JSON input" |}.

(** Backends that answer nothing: every exchange fails in transport. *)
Definition offline : backends := {| completions := []; sql_results := [] |}.

(** A tool call with the arguments [{"query":<value>}]. *)
Definition call (i name value : string) : tool_call :=
  {| id := i; function_name := name;
     function_arguments := object_text "query" value |}.

(** An assistant turn without text that asks for [calls], and a final
    answer. *)
Definition asks (calls : list tool_call) : assistant_turn :=
  {| content := Null; tool_calls := Some calls |}.
Definition answers (text : string) : assistant_turn :=
  {| content := Text text; tool_calls := None |}.

(** The scenario of the specification. *)
Definition nominal : backends :=
  {| completions :=
       [respond (asks [call "call_1" "run_sql_query"
                                       (quoted "SELECT * FROM packages")]);
        respond (answers "Here are the packages.")];
     sql_results := [respond (JObj [("rows", JArr [])])] |}.

(** A [run_sql_query] call with a SELECT query. *)
Definition select_call (i : string) : tool_call :=
  call i "run_sql_query" (quoted "SELECT * FROM packages").

Definition rows : settled (http_response json) :=
  respond (JObj [("rows", JArr [])]).

(** A model that asks for a tool in each of ten turns. *)
Definition insistent : backends :=
  {| completions := repeat (respond (asks [select_call "call_1"])) 10;
     sql_results := repeat rows 10 |}.

(** The same, but the query of the tenth call is the number 5. *)
Definition insistent_number : backends :=
  {| completions := repeat (respond (asks [select_call "call_1"])) 9
                    ++ [respond (asks [call "call_10" "run_sql_query" "5"])];
     sql_results := repeat rows 10 |}.

(** A batch of two calls: the first has no query, the arguments of the
    second are not JSON. *)
Definition no_query_call : tool_call :=
  {| id := "call_1"; function_name := "run_sql_query"; function_arguments := "{}" |}.
Definition unparsable_call : tool_call :=
  {| id := "call_2"; function_name := "run_sql_query";
     function_arguments := "SELECT * FROM packages" |}.
Definition mixed_batch : backends :=
  {| completions := [respond (asks [no_query_call; unparsable_call]);
                     respond (answers "Done.")];
     sql_results := [] |}.

(** A model whose first tool call has the arguments [null]. *)
Definition null_arguments : backends :=
  {| completions :=
       [respond (asks [{| id := "call_1"; function_name := "run_sql_query";
                          function_arguments := "null" |}]);
        respond (answers "Done.")];
     sql_results := [rows] |}.

(** A model whose answer has no [content] field. *)
Definition silent : backends :=
  {| completions := [respond {| content := Undefined; tool_calls := None |}];
     sql_results := [] |}.

(** A model that asks for a mutation that reads from another table. *)
Definition insert_select : backends :=
  {| completions :=
       [respond (asks [call "call_1" "run_sql_mutation"
                         (quoted "INSERT INTO a SELECT * FROM b")]);
        respond (answers "Done.")];
     sql_results := [rows] |}.

(** A batch of two calls: a SELECT, then arguments that are not JSON. *)
Definition broken_batch : backends :=
  {| completions := [respond (asks [select_call "call_1"; unparsable_call]);
                     respond (answers "Done.")];
     sql_results := [rows] |}.

End Sample.

(** ** Vocabulary of the properties *)

(** A completion exchange that failed: [fetch] rejected (transport
    fault) or the status is not 2xx. *)
Definition failed {B} (o : settled (http_response B)) : Prop :=
  match o with
  | Rejected _ => True
  | Resolved r => ok r = false
  end.

(** What [callSqlApi] returns once its POST settled to [o]. *)
Definition sql_value (o : settled (http_response json)) : json :=
  match o with
  | Rejected text => error_value ("API call error: " +++ text)
  | Resolved r =>
      if ok r
      then match body_json r with
           | Resolved data => data
           | Rejected text => error_value ("API call error: " +++ text)
           end
      else error_value ("API call error: " +++ "HTTP error " +++ decimal (status r))
  end.

(** The [message] field of a parsed frame, if it has one. *)
Definition message_field (value : json) : option json :=
  match value with
  | JObj members => lookup "message" members
  | _ => None
  end.

Definition calls_of (t : assistant_turn) : list tool_call :=
  match tool_calls t with
  | Some calls => calls
  | None => []
  end.

(** [m] is a tool result of the batch of the assistant turn [t]. *)
Definition tool_result_of (t : assistant_turn) (m : message) : Prop :=
  exists i text, m = tool_message i text /\ In i (map id (calls_of t)).

(** Every tool message answers a tool call of the nearest assistant
    message before it, and only tool results of that turn lie between
    the two. *)
Definition correlated (h : list message) : Prop :=
  forall before i text rest,
    h = before ++ tool_message i text :: rest ->
    exists earlier t batch,
      before = earlier ++ assistant_message t :: batch /\
      In i (map id (calls_of t)) /\
      Forall (tool_result_of t) batch.

(** Assistant messages, each followed by tool results of its own batch:
    what an orchestration loop appends to the history. *)
Inductive turns : list message -> Prop :=
| turns_nil : turns []
| turns_cons t results more :
    Forall (tool_result_of t) results ->
    turns more ->
    turns (assistant_message t :: results ++ more).

(** No path of the program makes more than [n] completion requests,
    whatever the backends answer and whatever it reads. *)
Fixpoint at_most {A} (n : nat) (p : prog A) : Prop :=
  match p with
  | Ret _ => True
  | Throw _ => True
  | Send _ k => at_most n k
  | GetProcessing k => forall b, at_most n (k b)
  | SetProcessing _ k => at_most n k
  | Push _ k => at_most n k
  | FetchCompletion k =>
      match n with
      | 0 => False
      | S n' => forall o, at_most n' (k o)
      end
  | FetchSql _ _ k => forall o, at_most n (k o)
  end.

(** A program run with the flag at [flag] awaits only while the flag is
    set, returns with [Q] and throws with [E] (of the result and of the
    flag at that point). *)
Fixpoint holds_flag {A} (flag : bool) (Q : A -> bool -> Prop)
         (E : string -> bool -> Prop) (p : prog A) : Prop :=
  match p with
  | Ret a => Q a flag
  | Throw e => E e flag
  | Send _ k => holds_flag flag Q E k
  | GetProcessing k => holds_flag flag Q E (k flag)
  | SetProcessing b k => holds_flag b Q E k
  | Push _ k => holds_flag flag Q E k
  | FetchCompletion k => flag = true /\ forall o, holds_flag true Q E (k o)
  | FetchSql _ _ k => flag = true /\ forall o, holds_flag true Q E (k o)
  end.

(** The parts of the loop leave the flag alone and await with it set. *)
Definition steady {A} (p : prog A) : Prop :=
  holds_flag true (fun _ fl => fl = true) (fun _ fl => fl = true) p.

(** A handler that is waiting at an [await]. *)
Definition awaiting {A} (p : prog A) : Prop :=
  match p with
  | FetchCompletion _ => True
  | FetchSql _ _ _ => True
  | _ => False
  end.

(** The flag at work: either nobody is suspended, the flag is clear and
    the history is correlated; or one handler is suspended and holds the
    flag until it returns, and however its exchanges settle it leaves a
    correlated history. *)
Definition tidy (c : connection) : Prop :=
  (suspended c = [] /\ processing (state c) = false /\
   correlated (messages (state c))) \/
  (exists p,
      suspended c = [p] /\ processing (state c) = true /\ awaiting p /\
      holds_flag true (fun _ fl => fl = false) (fun _ _ => False) p /\
      forall w, correlated (messages (final (exec p w (state c))))).

(** ** Shapes of runs *)

Section Shapes.

Context {rt : Runtime}.
Variable v : variant.

(** Events that are no completion request. *)
Definition quiet (es : list event) : Prop :=
  Forall (fun e => match e with Completion _ _ => False | _ => True end) es.

(** The run of a call that passed the checks: progress frame, POST, tool
    message with the id of the call. *)
Definition dispatched_run (d url q : string) (toolCall : tool_call)
           (w : backends) (s : session) : run flow :=
  {| events := [Sent (Progress d); SqlPost url q (fst (next_sql w))];
     final := push (tool_message (id toolCall)
                      (JSON_stringify (sql_value (fst (next_sql w))))) s;
     remaining := snd (next_sql w);
     result := Resolved Next |}.

(** The run of a call that was turned down or threw: frames only. *)
Definition refused_run (fs : list frame) (res : settled flow)
           (w : backends) (s : session) : run flow :=
  {| events := map Sent fs; final := s; remaining := w; result := res |}.

(** What the completion call of a pass gives for the outcome [o] of its
    exchange: the assistant turn, or the message of the error thrown. *)
Definition completion_result (o : settled (http_response assistant_turn))
  : settled assistant_turn :=
  match o with
  | Rejected text => Rejected text
  | Resolved r =>
      if ok r then body_json r
      else
        match v with
        | index_js => Rejected ("DeepSeek API error " +++ decimal (status r))
        | part_000 =>
            match body_text r with
            | Resolved errorBody =>
                Rejected ("DeepSeek API error " +++ decimal (status r)
                          +++ ": " +++ errorBody)
            | Rejected text => Rejected text
            end
        end
  end.

(** A completion response with a batch of tool calls none of which
    makes the dispatcher throw. *)
Definition asks_for_tools (SQL_API_BASE_URL : string)
           (o : settled (http_response assistant_turn)) : Prop :=
  exists r t,
    o = Resolved r /\ ok r = true /\ body_json r = Resolved t /\
    calls_of t <> [] /\
    forall toolCall w s,
      In toolCall (calls_of t) ->
      exists f, result (exec (tool_call_body v SQL_API_BASE_URL t toolCall) w s)
                = Resolved f.

(** What the echo of the user message does: the frame [index.js]
    sends, or the error its template literal throws; nothing in the
    deployment variant. *)
Definition echo_events (m : json) : settled (list event) :=
  match v with
  | index_js =>
      match template m with
      | Resolved text => Resolved [Sent (Progress ("You: " +++ text))]
      | Rejected e => Rejected e
      end
  | part_000 => Resolved []
  end.

(** The frame of the ceiling, sent when the loop ended with
    [iteration >= maxIterations]. *)
Definition limit_events (iteration : nat) : list event :=
  if maxIterations <=? iteration
  then [Sent (Error "Reached maximum function call limit.")]
  else [].

End Shapes.

(** ** Conversation ids: [generateUuid] *)

From Stdlib Require Numbers.HexadecimalString.

Module Uuid.

(** [v.toString(16)] for a non-negative integer. *)
Definition toString16 (n : nat) : string :=
  HexadecimalString.NilZero.string_of_uint (Nat.to_hex_uint n).

(** The callback of [replace] for the matched character [c], where [r]
    is the value of [(Math.random() * 16) | 0]. *)
Definition replacement (c : ascii) (r : nat) : string :=
  let v := if Ascii.eqb c "x" then r else Nat.lor (Nat.land r 3) 8 in
  toString16 v.

(** [template.replace(/[xy]/g, callback)]: the matches are replaced from
    left to right, the [k]-th of them with the draw [random k]; [i] is
    the number of draws made so far. *)
Fixpoint replace_xy (template : string) (random : nat -> nat) (i : nat) : string :=
  match template with
  | EmptyString => EmptyString
  | String c rest =>
      if Ascii.eqb c "x" || Ascii.eqb c "y"
      then replacement c (random i) +++ replace_xy rest random (S i)
      else String c (replace_xy rest random i)
  end.

Definition generateUuid (random : nat -> nat) : string :=
  replace_xy "xxxxxxxx-xxxx-4xxx-yxxx-xxxxxxxxxxxx" random 0.

(** The number of draws a template takes. *)
Fixpoint draws (template : string) : nat :=
  match template with
  | EmptyString => 0
  | String c rest =>
      (if Ascii.eqb c "x" || Ascii.eqb c "y" then 1 else 0) + draws rest
  end.

(** Two sources of draws give every match of the template the same
    replacement. *)
Fixpoint agree (template : string) (random random' : nat -> nat) (i : nat) : Prop :=
  match template with
  | EmptyString => True
  | String c rest =>
      if Ascii.eqb c "x" || Ascii.eqb c "y"
      then replacement c (random i) = replacement c (random' i) /\
           agree rest random random' (S i)
      else agree rest random random' i
  end.

(** The textual form of a version 4 UUID: 8-4-4-4-12 lower-case
    hexadecimal digits, the first digit of the third group 4, the first
    digit of the fourth group one of 8, 9, a, b. *)
Definition is_hex (c : ascii) : bool :=
  let n := nat_of_ascii c in
  ((48 <=? n) && (n <=? 57)) || ((97 <=? n) && (n <=? 102)).

Definition is_variant (c : ascii) : bool :=
  Ascii.eqb c "8" || Ascii.eqb c "9" || Ascii.eqb c "a" || Ascii.eqb c "b".

Fixpoint shaped (shape s : string) : bool :=
  match shape, s with
  | EmptyString, EmptyString => true
  | String p shape', String c s' =>
      (if Ascii.eqb p "h" then is_hex c
       else if Ascii.eqb p "v" then is_variant c
       else Ascii.eqb c p)
      && shaped shape' s'
  | _, _ => false
  end.

Definition uuid_v4 (s : string) : bool :=
  shaped "hhhhhhhh-hhhh-4hhh-vhhh-hhhhhhhhhhhh" s.

End Uuid.

(** ** Accepting and closing a connection: [fetch] and the [close] listener *)

Module Store.

(** The maps [conversations] and [processing]. *)
Record store : Type := {
  conversations : string -> option (list message);
  processing : string -> option bool
}.

(** [map.set(key, value)], [map.delete(key)] *)
Definition set {A} (key : string) (value : A) (map : string -> option A)
  : string -> option A :=
  fun k => if (k =? key)%string then Some value else map k.

Definition delete {A} (key : string) (map : string -> option A)
  : string -> option A :=
  fun k => if (k =? key)%string then None else map k.

(** [env], as far as the handler reads it. *)
Record environment : Type := {
  DEEPSEEK_API_KEY : option string;
  SQL_API_BASE_URL : option string
}.

(** [!!x] for a string that may be [undefined]. *)
Definition present (x : option string) : bool :=
  match x with
  | Some s => negb (s =? "")%string
  | None => false
  end.

(** What [fetch] returns: a plain response, or the response with status
    101 that hands over the client socket of the new conversation. *)
Inductive reply : Type :=
| Plain (status : nat) (body : string)
| Switching (conversationId : string).

Section Accept.

(** Which file runs, the imported prompt text, and the text of the
    greeting of the deployment variant (which lies outside ASCII). *)
Variable v : variant.
Variable promptMd : string.
Variable GREETING : string.

(** [fetch(request, env, ctx)] on the map contents [st]: the response,
    the maps afterwards and the frames sent before any message arrives.
    [upgrade] is [request.headers.get("Upgrade")]. *)
Definition fetch (env : environment) (upgrade : option string)
           (random : nat -> nat) (st : store) : reply * store * list frame :=
  let SYSTEM_PROMPT := promptMd in
  if negb (present (Some SYSTEM_PROMPT))
  then (Plain 500 "Error: PROMPT_MD environment variable not set", st, [])
  else if negb (present (DEEPSEEK_API_KEY env))
  then (Plain 500 "Error: DEEPSEEK_API_KEY environment variable not set", st, [])
  else if match v with
          | index_js => false
          | part_000 => negb (present (SQL_API_BASE_URL env))
          end
  then (Plain 500 "Error: SQL_API_BASE_URL environment variable not set", st, [])
  else if negb match upgrade with
               | Some value => (value =? "websocket")%string
               | None => false
               end
  then (Plain 426 "Expected WebSocket", st, [])
  else
    let conversationId := Uuid.generateUuid random in
    (Switching conversationId,
     {| conversations :=
          set conversationId [system_message SYSTEM_PROMPT] (conversations st);
        processing := set conversationId false (processing st) |},
     match v with
     | index_js => []
     | part_000 => [Error GREETING]
     end).

End Accept.

(** The [close] listener, and likewise the [error] listener. *)
Definition close (conversationId : string) (st : store) : store :=
  {| conversations := delete conversationId (conversations st);
     processing := delete conversationId (processing st) |}.

(** The session a handler of [conversationId] works on. *)
Definition session_of (st : store) (conversationId : string) : option session :=
  match conversations st conversationId, processing st conversationId with
  | Some h, Some b => Some (Build_session h b)
  | _, _ => None
  end.

End Store.


(** ** Vocabulary of the further properties *)

(** The tool messages of a history. *)
Definition tool_messages (h : list message) : list message :=
  filter (fun m => match m with tool_message _ _ => true | _ => false end) h.

(** A frame that ends a turn: the frame of the answer, [Response] (which
    carries no text when the assistant turn has no content), or an
    error. *)
Definition terminal (f : frame) : Prop :=
  match f with
  | Progress _ => False
  | _ => True
  end.

(** A frame other than the frame of the answer. *)
Definition not_response (f : frame) : Prop :=
  match f with
  | Response _ => False
  | _ => True
  end.

(** On every path of the program, whatever the backends answer and
    whatever it reads, every frame sent satisfies [F] and every POST to
    the data-access backend satisfies [P] (of its URL and its query). *)
Fixpoint every {A} (F : frame -> Prop) (P : string -> string -> Prop)
         (p : prog A) : Prop :=
  match p with
  | Ret _ => True
  | Throw _ => True
  | Send f k => F f /\ every F P k
  | GetProcessing k => forall b, every F P (k b)
  | SetProcessing _ k => every F P k
  | Push _ k => every F P k
  | FetchCompletion k => forall o, every F P (k o)
  | FetchSql url q k => P url q /\ forall o, every F P (k o)
  end.

(** A property of runs that composes: it relates the session before,
    the events and the session after, holds of the empty run and of two
    runs one after the other. *)
Definition respects {A} (R : session -> list event -> session -> Prop)
           (p : prog A) : Prop :=
  forall w s, R s (events (exec p w s)) (final (exec p w s)).

(** As many tool messages were appended as POSTs were made. *)
Definition accounted (s : session) (es : list event) (s' : session) : Prop :=
  length (tool_messages (messages s'))
  = length (tool_messages (messages s)) + length (sql_posts es).

Section Routing.

Context {rt : Runtime}.
Variable v : variant.
Variable SQL_API_BASE_URL : string.

(** The query [q] belongs at the endpoint [url] by the router's test of
    the upper-cased query: the read endpoint for a query that mentions
    SELECT, the write endpoint for one that does not and mentions
    INSERT, UPDATE or DELETE. *)
Definition routed (url q : string) : Prop :=
  (url = query_url v SQL_API_BASE_URL /\ mentions q "SELECT") \/
  (url = mutate_url v SQL_API_BASE_URL /\ ~ mentions q "SELECT" /\
   (mentions q "INSERT" \/ mentions q "UPDATE" \/ mentions q "DELETE")).

End Routing.

(** The events of a run end with a terminal frame, and no response frame
    came before it. *)
Definition closing (es : list event) : Prop :=
  exists before f,
    es = before ++ [Sent f] /\ terminal f /\
    Forall not_response (frames before).

(** The flag when a handler is done.  [cur] is the flag as the handler
    finds it; while the handler waits at an [await] other handlers of
    the connection may write the flag, so it goes on from any value.
    The handler returns with [Q] and throws with [E] (of the result and
    of the flag at that point). *)
Fixpoint lands {A} (cur : bool) (Q : A -> bool -> Prop)
         (E : string -> bool -> Prop) (p : prog A) : Prop :=
  match p with
  | Ret a => Q a cur
  | Throw e => E e cur
  | Send _ k => lands cur Q E k
  | GetProcessing k => lands cur Q E (k cur)
  | SetProcessing b k => lands b Q E k
  | Push _ k => lands cur Q E k
  | FetchCompletion k => forall o cur', lands cur' Q E (k o)
  | FetchSql _ _ k => forall o cur', lands cur' Q E (k o)
  end.

(** A handler that leaves the flag clear, however it ends. *)
Definition lands_clear (cur : bool) (p : prog unit) : Prop :=
  lands cur (fun _ fl => fl = false) (fun _ fl => fl = false) p.

Section Rounds.

Context {rt : Runtime}.
Variable v : variant.

(** The events of a loop that starts from the history [h]: pass after
    pass, a completion request that carries the history as it is, then
    events without a request; and when another pass follows, the pass
    before it got an assistant turn and appended that turn and one tool
    result of its batch for every POST it made. *)
Inductive rounds : list message -> list event -> Prop :=
| rounds_nil h : rounds h []
| rounds_pass h o batch h' es :
    quiet batch ->
    (es = [] \/
     exists t results,
       completion_result v o = Resolved t /\
       Forall (tool_result_of t) results /\
       length results = length (sql_posts batch) /\
       h' = h ++ assistant_message t :: results) ->
    rounds h' es ->
    rounds h (Completion h o :: batch ++ es).

End Rounds.
(** * Properties *)

(** ** Keyword inspection *)

Lemma upper_char_same_letter (c k : ascii) :
  is_upper k = true -> (upper_char c = k <-> same_letter c k).
Proof.
  intros Hk. unfold same_letter, upper_char, is_lower, is_upper in *.
  pose proof (nat_ascii_bounded k) as Bk. pose proof (nat_ascii_bounded c) as Bc.
  apply andb_true_iff in Hk. destruct Hk as [K1 K2].
  apply Nat.leb_le in K1, K2.
  assert (Inj : forall a b, nat_of_ascii a = nat_of_ascii b -> a = b).
  { intros a b H. rewrite <- (ascii_nat_embedding a), <- (ascii_nat_embedding b). congruence. }
  destruct (Nat.leb_spec 97 (nat_of_ascii c)) as [E1|E1];
    destruct (Nat.leb_spec (nat_of_ascii c) 122) as [E2|E2]; simpl.
  - split.
    + intros H. apply (f_equal nat_of_ascii) in H.
      rewrite nat_ascii_embedding in H by lia. right. lia.
    + intros [H | H].
      * subst. lia.
      * apply Inj. rewrite nat_ascii_embedding by lia. lia.
  - split; [intros H; left; exact H|].
    intros [H | H]; [exact H | lia].
  - split; [intros H; left; exact H|].
    intros [H | H]; [exact H | lia].
  - split; [intros H; left; exact H|].
    intros [H | H]; [exact H | lia].
Qed.

Lemma startsWith_upper_ascii (kw : string) :
  keyword kw = true ->
  forall q, startsWith (upper_ascii q) kw = true <->
            exists mid post, q = mid +++ post /\ spells mid kw.
Proof.
  induction kw as [|k kw IH]; intros Hkw q.
  - simpl. destruct q; simpl; split; intros _; try reflexivity.
    + exists EmptyString, EmptyString. split; [reflexivity | constructor].
    + exists EmptyString, (String a q). split; [reflexivity | constructor].
  - simpl in Hkw. apply andb_true_iff in Hkw. destruct Hkw as [Hk Hkw].
    destruct q as [|c q]; simpl.
    + split; [discriminate|].
      intros (mid & post & E & S). inversion S; subst. discriminate.
    + rewrite andb_true_iff, Ascii.eqb_eq, (upper_char_same_letter c k Hk), (IH Hkw q).
      split.
      * intros (L & mid & post & E & S). exists (String c mid), post.
        split; [simpl; congruence | constructor; assumption].
      * intros (mid & post & E & S). inversion S; subst. simpl in E.
        injection E as -> ->. split; [assumption|]. eauto.
Qed.

(** On text upper-cased as ASCII, [includes] decides case-insensitive
    containment. *)
Lemma includes_toUpperCase (kw : string) :
  keyword kw = true ->
  forall q, includes (upper_ascii q) kw = true <-> contains_ci q kw.
Proof.
  intros Hkw. induction q as [|c q IH].
  - simpl. rewrite orb_false_r.
    change (match kw with EmptyString => true | String _ _ => false end)
      with (startsWith (upper_ascii EmptyString) kw).
    rewrite (startsWith_upper_ascii kw Hkw). split.
    + intros (mid & post & E & S). exists EmptyString, mid, post. auto.
    + intros (pre & mid & post & E & S).
      destruct pre; [|discriminate]. simpl in E. eauto.
  - change (includes (upper_ascii (String c q)) kw)
      with (startsWith (upper_ascii (String c q)) kw || includes (upper_ascii q) kw).
    rewrite orb_true_iff, IH, (startsWith_upper_ascii kw Hkw). split.
    + intros [(mid & post & E & S) | (pre & mid & post & E & S)].
      * exists EmptyString, mid, post. auto.
      * exists (String c pre), mid, post. simpl. split; [congruence | assumption].
    + intros (pre & mid & post & E & S). destruct pre as [|p pre]; simpl in E.
      * left. eauto.
      * injection E as -> ->. right. exists pre, mid, post. auto.
Qed.


(** ** Upper-casing by the engine *)

Lemma startsWith_app (kw post : string) : startsWith (kw +++ post) kw = true.
Proof.
  induction kw as [|k kw IH]; simpl; [destruct post; reflexivity|].
  rewrite Ascii.eqb_refl. exact IH.
Qed.

Lemma includes_app (pre kw post : string) : includes (pre +++ kw +++ post) kw = true.
Proof.
  induction pre as [|p pre IH].
  - change ("" +++ kw +++ post) with (kw +++ post).
    pose proof (startsWith_app kw post) as H.
    destruct (kw +++ post); cbn [includes]; rewrite H; reflexivity.
  - change ((String p pre) +++ kw +++ post) with (String p (pre +++ kw +++ post)).
    cbn [includes]. rewrite IH. apply orb_true_r.
Qed.

Lemma same_letter_ascii (c k : ascii) :
  is_upper k = true -> same_letter c k -> is_ascii c = true.
Proof.
  unfold is_upper, same_letter, is_ascii. intros Hk H.
  apply andb_true_iff in Hk. destruct Hk as [K1 K2]. apply Nat.leb_le in K1, K2.
  apply Nat.ltb_lt. destruct H as [-> | H]; lia.
Qed.

Section Upper.

Context {rt : Runtime}.

(** The engine upper-cases a keyword written in any mix of cases to the
    keyword, wherever it stands. *)
Lemma toUpperCase_spells (mid kw : string) :
  keyword kw = true ->
  spells mid kw ->
  forall pre post,
    mid <> EmptyString ->
    toUpperCase (pre +++ mid +++ post) = toUpperCase pre +++ kw +++ toUpperCase post.
Proof.
  intros Hkw S. induction S as [|c k s kw Hc S IH]; intros pre post Hne.
  - contradiction.
  - simpl in Hkw. apply andb_true_iff in Hkw. destruct Hkw as [Hk Hkw].
    change (String c s +++ post) with (String c (s +++ post)).
    rewrite (toUpperCase_ascii pre c (s +++ post) (same_letter_ascii c k Hk Hc)).
    rewrite (proj2 (upper_char_same_letter c k Hk) Hc).
    destruct s as [|c' s].
    + inversion S; subst. reflexivity.
    + specialize (IH Hkw EmptyString post). cbn [String.append] in IH.
      rewrite toUpperCase_empty in IH. cbn [String.append] in IH |- *.
      rewrite IH by discriminate. reflexivity.
Qed.

Lemma toUpperCase_ascii_only (q : string) :
  ascii_only q = true -> toUpperCase q = upper_ascii q.
Proof.
  induction q as [|c q IH]; intros H.
  - apply toUpperCase_empty.
  - simpl in H. apply andb_true_iff in H. destruct H as [Hc H].
    pose proof (toUpperCase_ascii EmptyString c q Hc) as E.
    cbn [String.append] in E. rewrite toUpperCase_empty in E.
    cbn [String.append] in E. rewrite E, (IH H). reflexivity.
Qed.

End Upper.

(** ** The query router *)

Lemma keyword_SELECT : keyword "SELECT" = true. Proof. reflexivity. Qed.
Lemma keyword_INSERT : keyword "INSERT" = true. Proof. reflexivity. Qed.
Lemma keyword_UPDATE : keyword "UPDATE" = true. Proof. reflexivity. Qed.
Lemma keyword_DELETE : keyword "DELETE" = true. Proof. reflexivity. Qed.

(** A query that contains a keyword in any mix of cases has it in its
    upper-cased form, whatever else the query holds. *)
Lemma includes_true `{Runtime} (kw q : string) :
  keyword kw = true -> contains_ci q kw -> includes (toUpperCase q) kw = true.
Proof.
  intros Hkw (pre & mid & post & -> & S).
  destruct mid as [|c mid].
  - inversion S; subst. destruct (toUpperCase (pre +++ "" +++ post)); reflexivity.
  - rewrite (toUpperCase_spells (String c mid) kw Hkw S pre post) by discriminate.
    apply includes_app.
Qed.

(** For a query of ASCII characters the converse holds too. *)
Lemma includes_false `{Runtime} (kw q : string) :
  keyword kw = true -> ascii_only q = true -> ~ contains_ci q kw ->
  includes (toUpperCase q) kw = false.
Proof.
  intros Hkw Hq Hno. rewrite (toUpperCase_ascii_only q Hq).
  destruct (includes (upper_ascii q) kw) eqn:E; [|reflexivity].
  exfalso. apply Hno. apply (includes_toUpperCase kw Hkw). exact E.
Qed.

(** The empty query mentions no keyword. *)
Lemma mentions_nonempty `{Runtime} (q : string) (k : ascii) (kw : string) :
  includes (toUpperCase q) (String k kw) = true -> (q =? "")%string = false.
Proof.
  intros Hinc. destruct (String.eqb_spec q "") as [->|]; [|reflexivity].
  rewrite toUpperCase_empty in Hinc. discriminate Hinc.
Qed.

(** [post_query] is one POST to [url] carrying [query]. *)
Lemma post_query_posts (url query : string) :
  exists k, post_query url query = FetchSql url query k.
Proof. unfold post_query, fetch_sql. simpl. eexists. reflexivity. Qed.

Lemma contains_ci_false `{Runtime} (kw q : string) :
  keyword kw = true -> includes (toUpperCase q) kw = false -> ~ contains_ci q kw.
Proof.
  intros Hkw E Hc. rewrite (includes_true kw q Hkw Hc) in E. discriminate E.
Qed.

Section Router.

Context {rt : Runtime}.
Variable v : variant.
Variable base : string.

(** The router decides on the upper-cased query.  A query that mentions
    SELECT goes to the read endpoint, whatever else it mentions; a
    query that does not and mentions INSERT, UPDATE or DELETE goes to
    the write endpoint; a query that mentions none of the four makes no
    HTTP call and gives the value [{error: "Invalid query type"}].  A
    query that contains a keyword in any mix of cases mentions it, and
    for a query of ASCII characters that is the only way to mention it
    (outside ASCII, [toUpperCase] makes capitals of some other letters
    too). *)
Theorem callSqlApi_routes (q : string) :
  (mentions q "SELECT" ->
   exists k, callSqlApi v base q = FetchSql (query_url v base) q k) /\
  (~ mentions q "SELECT" ->
   mentions q "INSERT" \/ mentions q "UPDATE" \/ mentions q "DELETE" ->
   exists k, callSqlApi v base q = FetchSql (mutate_url v base) q k) /\
  (~ mentions q "SELECT" -> ~ mentions q "INSERT" ->
   ~ mentions q "UPDATE" -> ~ mentions q "DELETE" ->
   callSqlApi v base q = Ret (error_value "Invalid query type")) /\
  (forall kw, keyword kw = true -> contains_ci q kw -> mentions q kw) /\
  (ascii_only q = true ->
   forall kw, keyword kw = true -> mentions q kw -> contains_ci q kw).
Proof.
  unfold mentions, callSqlApi. split; [|split; [|split; [|split]]].
  - intros ->. apply post_query_posts.
  - intros HS H. rewrite (not_true_is_false _ HS).
    assert (includes (toUpperCase q) "INSERT" || includes (toUpperCase q) "UPDATE"
            || includes (toUpperCase q) "DELETE" = true) as ->.
    { destruct H as [-> | [-> | ->]];
        [reflexivity | apply orb_true_iff; left; apply orb_true_r | apply orb_true_r]. }
    apply post_query_posts.
  - intros HS HI HU HD.
    rewrite (not_true_is_false _ HS), (not_true_is_false _ HI),
      (not_true_is_false _ HU), (not_true_is_false _ HD). reflexivity.
  - intros kw Hkw H. apply includes_true; assumption.
  - intros Hq kw Hkw H. rewrite (toUpperCase_ascii_only q Hq) in H.
    apply (includes_toUpperCase kw Hkw). exact H.
Qed.

End Router.

Section RouterExamples.

#[local] Existing Instance Sample.runtime.

Lemma callSqlApi_routes_witness :
  (exists k, callSqlApi index_js "" "select 1"
             = FetchSql (query_url index_js "") "select 1" k) /\
  (exists k, callSqlApi index_js "" "update t set x = 1"
             = FetchSql (mutate_url index_js "") "update t set x = 1" k) /\
  callSqlApi index_js "" "drop table t" = Ret (error_value "Invalid query type").
Proof.
  split; [|split].
  - apply (proj1 (callSqlApi_routes index_js "" "select 1")). reflexivity.
  - apply (proj1 (proj2 (callSqlApi_routes index_js "" "update t set x = 1"))).
    + discriminate.
    + right. left. reflexivity.
  - apply (proj1 (proj2 (proj2 (callSqlApi_routes index_js "" "drop table t"))));
      discriminate.
Defined.


End RouterExamples.

(** ** The guards in front of the loop *)

Section Guards.

Context {rt : Runtime}.
Variable v : variant.
Variable base : string.

Lemma truthy_nonempty (m : string) : m <> "" -> truthy (JStr m) = true.
Proof.
  intros H. simpl. destruct (String.eqb_spec m ""); [contradiction | reflexivity].
Qed.

(** C2.  A frame [{"message": m}] with [m] a non-empty string that
    arrives while the session is processing is answered by the one frame
    [{"error": "Processing previous message, please wait."}]; the
    handler returns at once, without an [await]: history and flag are as
    they were, and no completion request is made. *)
Theorem busy_session_rejects_message
        (data : string) (members : list (string * json)) (m : string)
        (s : session) (w : backends) :
  JSON_parse data = Resolved (JObj members) ->
  lookup "message" members = Some (JStr m) ->
  m <> "" ->
  processing s = true ->
  run_sync (on_message v base data) s
  = ([Error "Processing previous message, please wait."], s, Ret tt) /\
  exec (on_message v base data) w s
  = {| events := [Sent (Error "Processing previous message, please wait.")];
       final := s; remaining := w; result := Resolved tt |}.
Proof.
  intros Hparse Hfield Hm Hbusy. unfold on_message.
  rewrite Hparse. simpl. rewrite Hfield. simpl.
  destruct (String.eqb_spec m ""); [contradiction|]. simpl.
  rewrite Hbusy. simpl. split; reflexivity.
Qed.

(** C10.  A frame that parses and whose [message] field is falsy (the
    empty string, [null], [0], [false]) is answered by
    [{"error": "No message content provided."}]; the handler returns at
    once: nothing is appended to the history, the flag is not set, no
    loop starts. *)
Theorem falsy_message_rejected
        (data : string) (members : list (string * json)) (m : json)
        (s : session) (w : backends) :
  JSON_parse data = Resolved (JObj members) ->
  lookup "message" members = Some m ->
  truthy m = false ->
  run_sync (on_message v base data) s
  = ([Error "No message content provided."], s, Ret tt) /\
  exec (on_message v base data) w s
  = {| events := [Sent (Error "No message content provided.")];
       final := s; remaining := w; result := Resolved tt |}.
Proof.
  intros Hparse Hfield Hm. unfold on_message.
  rewrite Hparse. simpl. rewrite Hfield. simpl. rewrite Hm. simpl.
  split; reflexivity.
Qed.

End Guards.

Section GuardExamples.

#[local] Existing Instance Sample.runtime.

Lemma busy_session_rejects_message_witness :
  let data := Sample.object_text "message" (Sample.quoted "a") in
  run_sync (on_message index_js "" data) Sample.busy
  = ([Error "Processing previous message, please wait."], Sample.busy, Ret tt) /\
  exec (on_message index_js "" data) Sample.offline Sample.busy
  = {| events := [Sent (Error "Processing previous message, please wait.")];
       final := Sample.busy; remaining := Sample.offline; result := Resolved tt |}.
Proof.
  apply (busy_session_rejects_message index_js ""
           (Sample.object_text "message" (Sample.quoted "a"))
           [("message", JStr "a")] "a" Sample.busy Sample.offline).
  - reflexivity.
  - reflexivity.
  - discriminate.
  - reflexivity.
Defined.

Lemma falsy_message_rejected_witness :
  let data := Sample.object_text "message" (Sample.quoted "") in
  run_sync (on_message index_js "" data) Sample.idle
  = ([Error "No message content provided."], Sample.idle, Ret tt) /\
  exec (on_message index_js "" data) Sample.offline Sample.idle
  = {| events := [Sent (Error "No message content provided.")];
       final := Sample.idle; remaining := Sample.offline; result := Resolved tt |}.
Proof.
  apply (falsy_message_rejected index_js ""
           (Sample.object_text "message" (Sample.quoted ""))
           [("message", JStr "")] (JStr "") Sample.idle Sample.offline);
    reflexivity.
Defined.

End GuardExamples.

(** ** Runs of composed programs *)

Lemma prepend_nil {A} (r : run A) : prepend [] r = r.
Proof. destruct r. reflexivity. Qed.

Lemma after_prepend {A} (e : event) (es : list event) (r : run A) :
  after e (prepend es r) = prepend (e :: es) r.
Proof. reflexivity. Qed.

(** A run of [p ;; f] is a run of [p] followed, unless [p] threw, by a
    run of [f] from where [p] left the session and the backends. *)
Lemma exec_bind {A B} (p : prog A) (f : A -> prog B) (w : backends) (s : session) :
  exec (bind p f) w s
  = match result (exec p w s) with
    | Resolved a =>
        prepend (events (exec p w s))
                (exec (f a) (remaining (exec p w s)) (final (exec p w s)))
    | Rejected m =>
        {| events := events (exec p w s); final := final (exec p w s);
           remaining := remaining (exec p w s); result := Rejected m |}
    end.
Proof.
  revert w s. induction p as [a|m|fr k IH|k IH|b k IH|m k IH|k IH|url q k IH];
    intros w s; simpl.
  - symmetry. apply prepend_nil.
  - reflexivity.
  - rewrite IH. destruct (result (exec k w s)); reflexivity.
  - apply IH.
  - apply IH.
  - apply IH.
  - destruct (next_completion w) as [o w']. rewrite IH. simpl.
    destruct (result (exec (k o) w' s)); reflexivity.
  - destruct (next_sql w) as [o w']. rewrite IH. simpl.
    destruct (result (exec (k o) w' s)); reflexivity.
Qed.

(** A run of [try { p } catch { h }] is a run of [p] followed, if [p]
    threw, by a run of the handler. *)
Lemma exec_try_catch {A} (p : prog A) (h : string -> prog A) (w : backends) (s : session) :
  exec (try_catch p h) w s
  = match result (exec p w s) with
    | Resolved a => exec p w s
    | Rejected m =>
        prepend (events (exec p w s))
                (exec (h m) (remaining (exec p w s)) (final (exec p w s)))
    end.
Proof.
  revert w s. induction p as [a|m|fr k IH|k IH|b k IH|m k IH|k IH|url q k IH];
    intros w s; simpl.
  - reflexivity.
  - symmetry. apply prepend_nil.
  - rewrite IH. destruct (result (exec k w s)); reflexivity.
  - apply IH.
  - apply IH.
  - apply IH.
  - destruct (next_completion w) as [o w']. rewrite IH. simpl.
    destruct (result (exec (k o) w' s)); reflexivity.
  - destruct (next_sql w) as [o w']. rewrite IH. simpl.
    destruct (result (exec (k o) w' s)); reflexivity.
Qed.

(** ** The text of the progress frame *)

Section Description.

Context {rt : Runtime}.
Variable v : variant.

(** For a query that is a string, the description is its text. *)
Lemma description_string (messageResponse : assistant_turn)
      (functionName q : string) :
  description v messageResponse functionName (JStr q)
  = Ret (description_text v messageResponse functionName q).
Proof.
  unfold description, description_text, synthesized, synthesized_text.
  destruct (content messageResponse) as [text| |];
    [destruct (negb (text =? "")%string)| |]; destruct v; reflexivity.
Qed.

(** The description is computed or its conversion of the query throws;
    it does nothing else. *)
Lemma description_cases (messageResponse : assistant_turn)
      (functionName : string) (q : json) :
  (exists d, description v messageResponse functionName q = Ret d) \/
  (exists e, description v messageResponse functionName q = Throw e).
Proof.
  unfold description, synthesized.
  destruct (content messageResponse) as [text| |];
    [destruct (negb (text =? "")%string)| |]; destruct v;
    try (left; eexists; reflexivity);
    destruct (template q); cbn; eauto.
Qed.

End Description.

(** ** The policy of the dispatcher *)

Section Policy.

Context {rt : Runtime}.
Variable v : variant.
Variable base : string.

(** C4, as amended.  A [run_sql_query] call whose query is a non-empty
    string that does not mention SELECT gets, after its progress frame,
    the error frame of the policy, and the data-access backend is not
    contacted; the same for a [run_sql_mutation] call whose query is a
    non-empty string that mentions none of INSERT, UPDATE, DELETE.  The
    policy tests the upper-cased query: a query of ASCII characters
    mentions a keyword only if it contains it in some mix of cases. *)
Theorem policy_violation_rejected
        (messageResponse : assistant_turn) (toolCall : tool_call)
        (members : list (string * json)) (q : string)
        (w : backends) (s : session) :
  JSON_parse (function_arguments toolCall) = Resolved (JObj members) ->
  lookup "query" members = Some (JStr q) ->
  q <> "" ->
  (function_name toolCall = "run_sql_query" ->
   ~ mentions q "SELECT" ->
   exec (tool_call_body v base messageResponse toolCall) w s
   = {| events := [Sent (Progress (description_text v messageResponse "run_sql_query" q));
                   Sent (Error "run_sql_query is only for SELECT queries.")];
        final := s; remaining := w; result := Resolved Break |}) /\
  (function_name toolCall = "run_sql_mutation" ->
   ~ mentions q "INSERT" -> ~ mentions q "UPDATE" -> ~ mentions q "DELETE" ->
   exec (tool_call_body v base messageResponse toolCall) w s
   = {| events := [Sent (Progress (description_text v messageResponse "run_sql_mutation" q));
                   Sent (Error "run_sql_mutation is only for INSERT, UPDATE, DELETE queries.")];
        final := s; remaining := w; result := Resolved Break |}) /\
  (ascii_only q = true ->
   forall kw, keyword kw = true -> ~ contains_ci q kw -> ~ mentions q kw).
Proof.
  intros Hparse Hfield Hq. unfold tool_call_body, mentions. rewrite Hparse.
  cbn [property bind]. rewrite Hfield. cbn [truthy].
  destruct (String.eqb_spec q ""); [contradiction|]. cbn [negb].
  split; [|split].
  - intros Hname HS. rewrite Hname, description_string.
    cbn [bind send String.eqb Ascii.eqb Bool.eqb receiver].
    rewrite (not_true_is_false _ HS). reflexivity.
  - intros Hname HI HU HD. rewrite Hname, description_string.
    cbn [bind send String.eqb Ascii.eqb Bool.eqb receiver existsb].
    rewrite (not_true_is_false _ HI), (not_true_is_false _ HU),
      (not_true_is_false _ HD). reflexivity.
  - intros Hascii kw Hkw Hno Hm.
    rewrite (includes_false kw q Hkw Hascii Hno) in Hm. discriminate Hm.
Qed.

End Policy.

Section PolicyExamples.

#[local] Existing Instance Sample.runtime.

Lemma policy_violation_rejected_witness :
  exec (tool_call_body index_js "" (Sample.asks [])
          (Sample.call "call_1" "run_sql_query" (Sample.quoted "DROP TABLE packages")))
       Sample.offline Sample.idle
  = {| events := [Sent (Progress "Querying data...");
                  Sent (Error "run_sql_query is only for SELECT queries.")];
       final := Sample.idle; remaining := Sample.offline; result := Resolved Break |} /\
  exec (tool_call_body index_js "" (Sample.asks [])
          (Sample.call "call_2" "run_sql_mutation" (Sample.quoted "DROP TABLE packages")))
       Sample.offline Sample.idle
  = {| events := [Sent (Progress "Updating data...");
                  Sent (Error "run_sql_mutation is only for INSERT, UPDATE, DELETE queries.")];
       final := Sample.idle; remaining := Sample.offline; result := Resolved Break |}.
Proof.
  split.
  - destruct (policy_violation_rejected index_js "" (Sample.asks [])
                (Sample.call "call_1" "run_sql_query" (Sample.quoted "DROP TABLE packages"))
                [("query", JStr "DROP TABLE packages")] "DROP TABLE packages"
                Sample.offline Sample.idle) as (Hquery & _ & _).
    + reflexivity.
    + reflexivity.
    + discriminate.
    + apply Hquery; [reflexivity|].
      intros H. vm_compute in H. discriminate H.
  - destruct (policy_violation_rejected index_js "" (Sample.asks [])
                (Sample.call "call_2" "run_sql_mutation" (Sample.quoted "DROP TABLE packages"))
                [("query", JStr "DROP TABLE packages")] "DROP TABLE packages"
                Sample.offline Sample.idle) as (_ & Hmutation & _).
    + reflexivity.
    + reflexivity.
    + discriminate.
    + apply Hmutation; [reflexivity| | |];
        intros H; vm_compute in H; discriminate H.
Defined.

(** C4, as stated, fails at the empty query: it is a query string
    without SELECT, and the dispatcher answers with the missing-query
    frame, not with the frame of the policy. *)
Lemma empty_query_is_missing_not_policy :
  let toolCall := Sample.call "call_1" "run_sql_query" (Sample.quoted "") in
  function_name toolCall = "run_sql_query" /\
  JSON_parse (function_arguments toolCall) = Resolved (JObj [("query", JStr "")]) /\
  ~ contains_ci "" "SELECT" /\
  exec (tool_call_body index_js "" (Sample.asks [toolCall]) toolCall)
       Sample.offline Sample.idle
  = {| events := [Sent (Error "Missing query parameter.")];
       final := Sample.idle; remaining := Sample.offline; result := Resolved Break |}.
Proof.
  cbv zeta. repeat split.
  apply (contains_ci_false "SELECT" _ keyword_SELECT). reflexivity.
Qed.

End PolicyExamples.

(** ** Runs of the dispatcher *)

Section Dispatcher.

Context {rt : Runtime}.
Variable v : variant.
Variable base : string.

(** [callSqlApi]'s POST never throws: whatever the exchange settles to
    becomes the returned value. *)
Lemma exec_post_query (url q : string) (w : backends) (s : session) :
  exec (post_query url q) w s
  = {| events := [SqlPost url q (fst (next_sql w))];
       final := s;
       remaining := snd (next_sql w);
       result := Resolved (sql_value (fst (next_sql w))) |}.
Proof.
  unfold post_query, fetch_sql. simpl.
  destruct (next_sql w) as [o w']. simpl.
  destruct o as [r|text]; simpl; [|reflexivity].
  destruct (ok r); simpl; [|reflexivity].
  destruct (body_json r); reflexivity.
Qed.

Lemma exec_run_tool (toolCall : tool_call) (q : string) (w : backends) (s : session) :
  includes (toUpperCase q) "SELECT"
  || existsb (fun op => includes (toUpperCase q) op) ["INSERT"; "UPDATE"; "DELETE"] = true ->
  exists url,
    exec (run_tool v base toolCall q) w s
    = {| events := [SqlPost url q (fst (next_sql w))];
         final := push (tool_message (id toolCall)
                          (JSON_stringify (sql_value (fst (next_sql w))))) s;
         remaining := snd (next_sql w);
         result := Resolved Next |}.
Proof.
  intros H. unfold run_tool, callSqlApi. simpl in H.
  rewrite orb_false_r in H.
  destruct (includes (toUpperCase q) "SELECT").
  - exists (query_url v base). rewrite exec_bind, exec_post_query. reflexivity.
  - simpl in H. rewrite <- !orb_assoc. rewrite H.
    exists (mutate_url v base). rewrite exec_bind, exec_post_query. reflexivity.
Qed.

(** Every tool call is either dispatched or refused. *)
Lemma exec_tool_call_body (messageResponse : assistant_turn) (toolCall : tool_call)
      (w : backends) (s : session) :
  (exists d url q,
      exec (tool_call_body v base messageResponse toolCall) w s
      = dispatched_run d url q toolCall w s) \/
  (exists fs res,
      exec (tool_call_body v base messageResponse toolCall) w s
      = refused_run fs res w s /\ res <> Resolved Next).
Proof.
  unfold tool_call_body.
  destruct (JSON_parse (function_arguments toolCall)) as [agrs|text].
  2:{ right. exists [Error "Invalid tool call arguments."], (Resolved Break).
      split; [reflexivity | discriminate]. }
  destruct agrs as [ | b | x | t | items | members ]; simpl;
    try (right; exists [Error "Missing query parameter."], (Resolved Break);
         split; [reflexivity | discriminate]).
  { right. exists [], (Rejected (null_property "query")).
    split; [reflexivity | discriminate]. }
  destruct (lookup "query" members) as [q|]; simpl.
  2:{ right. exists [Error "Missing query parameter."], (Resolved Break).
      split; [reflexivity | discriminate]. }
  destruct (truthy q) eqn:Hq; simpl.
  2:{ right. exists [Error "Missing query parameter."], (Resolved Break).
      split; [reflexivity | discriminate]. }
  destruct (description_cases v messageResponse (function_name toolCall) q)
    as [[d Hd] | [e He]].
  2:{ right. rewrite He. exists [], (Rejected e). split; [reflexivity | discriminate]. }
  rewrite Hd. cbn [bind send].
  destruct (function_name toolCall =? "run_sql_query")%string.
  - destruct q as [ | b | x | t | items | ms ]; simpl;
      try (right; exists [Progress d], (Rejected not_a_function);
           split; [reflexivity | discriminate]).
    destruct (includes (toUpperCase t) "SELECT") eqn:Hsel; simpl.
    + left. destruct (exec_run_tool toolCall t w s) as [url E].
      { rewrite Hsel. reflexivity. }
      exists d, url, t. rewrite E. reflexivity.
    + right. exists [Progress d; Error "run_sql_query is only for SELECT queries."],
        (Resolved Break). split; [reflexivity | discriminate].
  - destruct (function_name toolCall =? "run_sql_mutation")%string.
    + destruct q as [ | b | x | t | items | ms ]; simpl;
        try (right; exists [Progress d], (Rejected not_a_function);
             split; [reflexivity | discriminate]).
      destruct (includes (toUpperCase t) "INSERT"
                || (includes (toUpperCase t) "UPDATE"
                    || (includes (toUpperCase t) "DELETE" || false))) eqn:Hop; simpl.
      * left. destruct (exec_run_tool toolCall t w s) as [url E].
        { simpl. rewrite Hop. apply orb_true_r. }
        exists d, url, t. rewrite E. reflexivity.
      * right.
        exists [Progress d;
                Error "run_sql_mutation is only for INSERT, UPDATE, DELETE queries."],
          (Resolved Break). split; [reflexivity | discriminate].
    + right. simpl.
      exists [Progress d; Error ("Unknown function: " +++ function_name toolCall)],
        (Resolved Break). split; [reflexivity | discriminate].
Qed.

End Dispatcher.

(** ** Runs of the loop *)

Lemma quiet_app (es1 es2 : list event) : quiet es1 -> quiet es2 -> quiet (es1 ++ es2).
Proof. intros H1 H2. apply Forall_app. split; assumption. Qed.

Lemma quiet_sent (fs : list frame) : quiet (map Sent fs).
Proof. induction fs; constructor; simpl; auto. Qed.

Lemma quiet_round_trips (es : list event) : quiet es -> round_trips es = 0.
Proof.
  unfold round_trips. induction 1 as [|e es He _ IH]; [reflexivity|].
  destruct e; simpl in *; [exact IH | contradiction | exact IH].
Qed.

(** A completion request found in [es1 ++ es2] with [es1] quiet lies in
    [es2]. *)
Lemma quiet_split (es1 es2 before rest : list event) payload o :
  quiet es1 ->
  es1 ++ es2 = before ++ Completion payload o :: rest ->
  exists before', before = es1 ++ before' /\ es2 = before' ++ Completion payload o :: rest.
Proof.
  intros Hq. revert before. induction Hq as [|e es1 He _ IH]; intros before E.
  - exists before. split; [reflexivity | exact E].
  - destruct before as [|b before]; simpl in E.
    + injection E as -> _. contradiction.
    + injection E as -> E. destruct (IH before E) as (before' & -> & E2).
      exists before'. split; [reflexivity | exact E2].
Qed.

Section Loop.

Context {rt : Runtime}.
Variable v : variant.
Variable base : string.

(** The batch of an assistant turn: no completion request is made, the
    flag is not touched, and the history grows by tool messages that
    carry ids of calls of the batch. *)
Lemma exec_for_tool_calls (messageResponse : assistant_turn) (calls : list tool_call)
      (w : backends) (s : session) :
  quiet (events (exec (for_tool_calls v base messageResponse calls) w s)) /\
  processing (final (exec (for_tool_calls v base messageResponse calls) w s))
  = processing s /\
  exists results,
    messages (final (exec (for_tool_calls v base messageResponse calls) w s))
    = messages s ++ results /\
    Forall (fun m => exists i text, m = tool_message i text /\ In i (map id calls))
           results.
Proof.
  revert w s. induction calls as [|toolCall calls IH]; intros w s.
  - simpl. repeat split; [constructor|]. exists []. split; [symmetry; apply app_nil_r | constructor].
  - cbn [for_tool_calls]. rewrite exec_bind.
    destruct (exec_tool_call_body v base messageResponse toolCall w s)
      as [(d & url & q & E) | (fs & res & E & Hres)]; rewrite E.
    + cbn [result dispatched_run events final remaining].
      destruct (IH (snd (next_sql w))
                   (push (tool_message (id toolCall)
                            (JSON_stringify (sql_value (fst (next_sql w))))) s))
        as (Hq & Hp & results & Hh & Hall).
      cbn [prepend events final]. repeat split.
      * apply quiet_app; [|exact Hq]. repeat constructor.
      * rewrite Hp. reflexivity.
      * exists (tool_message (id toolCall)
                  (JSON_stringify (sql_value (fst (next_sql w)))) :: results).
        split.
        -- rewrite Hh. simpl. rewrite <- app_assoc. reflexivity.
        -- constructor.
           ++ eexists _, _. split; [reflexivity | left; reflexivity].
           ++ eapply Forall_impl; [|exact Hall].
              intros m (i & text & -> & Hin). eexists _, _.
              split; [reflexivity | right; exact Hin].
    + cbn [result refused_run].
      assert (Hend : quiet (map Sent fs) /\ processing s = processing s /\
                     exists results, messages s = messages s ++ results /\
                       Forall (fun m => exists i text, m = tool_message i text /\
                                 In i (map id (toolCall :: calls))) results).
      { repeat split; [apply quiet_sent|]. exists [].
        split; [symmetry; apply app_nil_r | constructor]. }
      destruct res as [[|]|text]; cbn [prepend events final exec];
        try rewrite app_nil_r; try exact Hend.
      contradiction Hres. reflexivity.
Qed.

Lemma exec_completion (w : backends) (s : session) :
  exec (completion v) w s
  = {| events := [Completion (messages s) (fst (next_completion w))];
       final := s;
       remaining := snd (next_completion w);
       result := completion_result v (fst (next_completion w)) |}.
Proof.
  unfold completion, fetch_completion. simpl.
  destruct (next_completion w) as [o w']. simpl.
  destruct o as [r|text]; simpl; [|reflexivity].
  unfold completion_result. destruct (ok r); simpl.
  - destruct (body_json r); reflexivity.
  - destruct v; simpl; [reflexivity|]. destruct (body_text r); reflexivity.
Qed.

Lemma failed_completion_result (o : settled (http_response assistant_turn)) :
  failed o -> exists text, completion_result v o = Rejected text.
Proof.
  destruct o as [r|text]; simpl; [|eauto].
  intros ->. destruct v; [eauto|]. destruct (body_text r); eauto.
Qed.

(** A pass whose completion call fails: the request, the error frame,
    and the loop is left; the session is as it was. *)
Lemma exec_pass_failed (w : backends) (s : session) (text : string) :
  completion_result v (fst (next_completion w)) = Rejected text ->
  exec (pass v base) w s
  = {| events := [Completion (messages s) (fst (next_completion w));
                  Sent (Error ("DeepSeek API error: " +++ text))];
       final := s;
       remaining := snd (next_completion w);
       result := Resolved Break |}.
Proof.
  intros H. unfold pass, iteration_body.
  rewrite exec_try_catch, exec_bind, exec_completion. cbn [result]. rewrite H.
  reflexivity.
Qed.

(** A pass whose assistant turn asks for no tool: the request, the
    response frame, and the loop is left. *)
Lemma exec_pass_final (w : backends) (s : session) (t : assistant_turn) :
  completion_result v (fst (next_completion w)) = Resolved t ->
  calls_of t = [] ->
  exec (pass v base) w s
  = {| events := [Completion (messages s) (fst (next_completion w));
                  Sent (Response (content t))];
       final := push (assistant_message t) s;
       remaining := snd (next_completion w);
       result := Resolved Break |}.
Proof.
  intros H Hcalls. unfold pass, iteration_body.
  rewrite exec_try_catch, exec_bind, exec_completion. cbn [result]. rewrite H.
  unfold calls_of in Hcalls.
  destruct (tool_calls t) as [calls|]; [subst calls|]; reflexivity.
Qed.

(** A pass whose assistant turn asks for tools: the request, then the
    batch; [Next] unless the batch threw. *)
Lemma exec_pass_batch (w : backends) (s : session) (t : assistant_turn) :
  completion_result v (fst (next_completion w)) = Resolved t ->
  calls_of t <> [] ->
  let batch := exec (for_tool_calls v base t (calls_of t))
                    (snd (next_completion w)) (push (assistant_message t) s) in
  exec (pass v base) w s
  = match result batch with
    | Resolved _ =>
        {| events := Completion (messages s) (fst (next_completion w)) :: events batch;
           final := final batch; remaining := remaining batch;
           result := Resolved Next |}
    | Rejected text =>
        {| events := Completion (messages s) (fst (next_completion w))
                     :: events batch ++ [Sent (Error ("DeepSeek API error: " +++ text))];
           final := final batch; remaining := remaining batch;
           result := Resolved Break |}
    end.
Proof.
  intros H Hcalls batch. unfold pass, iteration_body.
  rewrite exec_try_catch, exec_bind, exec_completion. cbn [result]. rewrite H.
  subst batch. unfold calls_of in *.
  destruct (tool_calls t) as [calls|]; [|contradiction].
  destruct calls as [|c calls]; [contradiction|].
  cbn [events final remaining messages_push bind exec length Nat.eqb].
  rewrite exec_bind.
  destruct (result (exec (for_tool_calls v base t (c :: calls))
                         (snd (next_completion w)) (push (assistant_message t) s)));
    cbn [exec]; unfold prepend; cbn [result events final remaining app];
    rewrite ?app_nil_r; reflexivity.
Qed.

(** A pass never throws. *)
Lemma pass_returns (w : backends) (s : session) :
  exists f, result (exec (pass v base) w s) = Resolved f.
Proof.
  destruct (completion_result v (fst (next_completion w))) as [t|text] eqn:H.
  - destruct (calls_of t) as [|c calls] eqn:Hc.
    + rewrite (exec_pass_final w s t H Hc). eexists. reflexivity.
    + rewrite (exec_pass_batch w s t H); [|congruence].
      cbv zeta.
      destruct (result (exec (for_tool_calls v base t (calls_of t))
                             (snd (next_completion w)) (push (assistant_message t) s)));
        eexists; reflexivity.
  - rewrite (exec_pass_failed w s text H). eexists. reflexivity.
Qed.

End Loop.

Section WhileLoop.

Context {rt : Runtime}.
Variable v : variant.
Variable base : string.

(** Past the ceiling the loop does nothing. *)
Lemma exec_while_loop_exit (fuel i : nat) (w : backends) (s : session) :
  maxIterations <= i ->
  exec (while_loop v base fuel i) w s
  = {| events := []; final := s; remaining := w; result := Resolved i |}.
Proof.
  intros H. destruct fuel; cbn [while_loop]; [reflexivity|].
  destruct (Nat.ltb_spec i maxIterations); [lia | reflexivity].
Qed.

(** Below the ceiling the loop makes a pass, and goes on with
    [iteration + 1] unless the pass left the loop. *)
Lemma exec_while_loop_step (fuel i : nat) (w : backends) (s : session) :
  i < maxIterations ->
  exec (while_loop v base (S fuel) i) w s
  = match result (exec (pass v base) w s) with
    | Resolved Next =>
        prepend (events (exec (pass v base) w s))
                (exec (while_loop v base fuel (S i))
                      (remaining (exec (pass v base) w s))
                      (final (exec (pass v base) w s)))
    | Resolved Break =>
        {| events := events (exec (pass v base) w s);
           final := final (exec (pass v base) w s);
           remaining := remaining (exec (pass v base) w s);
           result := Resolved i |}
    | Rejected text =>
        {| events := events (exec (pass v base) w s);
           final := final (exec (pass v base) w s);
           remaining := remaining (exec (pass v base) w s);
           result := Rejected text |}
    end.
Proof.
  intros H. cbn [while_loop].
  destruct (Nat.ltb_spec i maxIterations); [|lia].
  rewrite exec_bind.
  destruct (result (exec (pass v base) w s)) as [[|]|text]; try reflexivity.
  cbn [exec]. unfold prepend. cbn [events final remaining result].
  rewrite app_nil_r. reflexivity.
Qed.

(** The loop never throws. *)
Lemma while_loop_returns (fuel i : nat) (w : backends) (s : session) :
  exists j, result (exec (while_loop v base fuel i) w s) = Resolved j.
Proof.
  revert i w s. induction fuel as [|fuel IH]; intros i w s.
  - exists i. reflexivity.
  - destruct (Nat.ltb_spec i maxIterations) as [Hlt|Hge].
    + rewrite (exec_while_loop_step fuel i w s Hlt).
      destruct (pass_returns v base w s) as [f ->]. destruct f.
      * apply IH.
      * exists i. reflexivity.
    + rewrite (exec_while_loop_exit (S fuel) i w s Hge). exists i. reflexivity.
Qed.

(** [maxIterations - iteration] passes are all the loop can make: any
    fuel from there on gives the same run. *)
Lemma while_loop_fuel (fuel fuel' i : nat) (w : backends) (s : session) :
  maxIterations <= i + fuel ->
  maxIterations <= i + fuel' ->
  exec (while_loop v base fuel i) w s = exec (while_loop v base fuel' i) w s.
Proof.
  revert fuel' i w s. induction fuel as [|fuel IH]; intros fuel' i w s H H'.
  - rewrite !exec_while_loop_exit by lia. reflexivity.
  - destruct (Nat.ltb_spec i maxIterations) as [Hlt|Hge].
    + destruct fuel' as [|fuel']; [lia|].
      rewrite !exec_while_loop_step by assumption.
      destruct (result (exec (pass v base) w s)) as [[|]|text]; try reflexivity.
      f_equal. apply IH; lia.
    + rewrite !exec_while_loop_exit by lia. reflexivity.
Qed.

(** The echo of the user message sends its frame or throws; it does
    nothing else. *)
Lemma exec_echo (m : json) (w : backends) (s : session) :
  exec (echo v m) w s
  = match echo_events v m with
    | Resolved es =>
        {| events := es; final := s; remaining := w; result := Resolved tt |}
    | Rejected e =>
        {| events := []; final := s; remaining := w; result := Rejected e |}
    end.
Proof.
  unfold echo, echo_events. destruct v; [|reflexivity].
  destruct (template m); reflexivity.
Qed.

Lemma echo_events_resolved (m : json) :
  v = part_000 \/ (exists text, template m = Resolved text) ->
  exists es, echo_events v m = Resolved es.
Proof.
  unfold echo_events. intros [-> | [text Htext]]; [eauto|].
  destruct v; [rewrite Htext|]; eauto.
Qed.

(** The echo is at most one progress frame. *)
Lemma echo_events_progress (m : json) (es : list event) :
  echo_events v m = Resolved es ->
  es = [] \/ exists text, es = [Sent (Progress text)].
Proof.
  unfold echo_events. destruct v; [destruct (template m)|];
    intros H; inversion H; subst; eauto.
Qed.

(** An accepted turn: flag set, user message appended, echo, the loop,
    the frame of the ceiling if it was reached, flag cleared.  When the
    echo throws, the turn ends there, with the flag set and the user
    message appended. *)
Lemma exec_turn (m : json) (w : backends) (s : session) :
  let loop := exec (while_loop v base maxIterations 0) w
                   (push (user_message m) (set_processing true s)) in
  match echo_events v m with
  | Resolved es =>
      exists j,
        result loop = Resolved j /\
        exec (turn v base m) w s
        = {| events := es ++ events loop ++ limit_events j;
             final := set_processing false (final loop);
             remaining := remaining loop;
             result := Resolved tt |}
  | Rejected e =>
      exec (turn v base m) w s
      = {| events := [];
           final := push (user_message m) (set_processing true s);
           remaining := w;
           result := Rejected e |}
  end.
Proof.
  intros loop.
  unfold turn. cbn [put_processing messages_push bind exec].
  rewrite exec_bind, exec_echo.
  destruct (echo_events v m) as [es|e]; [|reflexivity].
  destruct (while_loop_returns maxIterations 0 w
              (push (user_message m) (set_processing true s))) as [j Hj].
  exists j. split; [exact Hj|].
  cbn [result events final remaining].
  rewrite exec_bind. subst loop. rewrite Hj.
  unfold limit_events.
  destruct (maxIterations <=? j); cbn [send bind exec];
    unfold prepend, after; cbn [events final remaining result];
    rewrite ?app_nil_r; reflexivity.
Qed.

(** A frame is turned down with one error frame, by a guard or by the
    outer [catch]; or it starts a turn, which runs to its end or, in
    [index.js], stops at an echo that throws and is answered by the
    outer [catch]. *)
Lemma exec_on_message (data : string) (w : backends) (s : session) :
  (exists text s',
      exec (on_message v base data) w s
      = {| events := [Sent (Error text)]; final := s';
           remaining := w; result := Resolved tt |} /\
      messages s' = messages s) \/
  (exists m es,
      truthy m = true /\ processing s = false /\
      echo_events v m = Resolved es /\
      exec (on_message v base data) w s = exec (turn v base m) w s) \/
  (exists m e,
      truthy m = true /\ processing s = false /\
      echo_events v m = Rejected e /\
      exec (on_message v base data) w s
      = {| events := [Sent (Error ("Error: " +++ e))];
           final := set_processing false
                      (push (user_message m) (set_processing true s));
           remaining := w; result := Resolved tt |}).
Proof.
  unfold on_message.
  destruct (JSON_parse data) as [value|text]; cbn [await bind try_catch].
  2:{ left. eexists _, _. split; reflexivity. }
  destruct value as [ | b | x | t | items | members ];
    try (left; eexists _, _; split; reflexivity).
  cbn [property bind try_catch].
  destruct (lookup "message" members) as [m|];
    [|left; eexists _, _; split; reflexivity].
  destruct (truthy m) eqn:Hm; cbn [negb];
    [|left; eexists _, _; split; reflexivity].
  cbn [get_processing bind try_catch exec].
  destruct (processing s) eqn:Hp; [left; eexists _, _; split; reflexivity|].
  right. rewrite exec_try_catch.
  pose proof (exec_turn m w s) as Hturn. cbv zeta in Hturn.
  destruct (echo_events v m) as [es|e] eqn:He.
  - left. exists m, es. destruct Hturn as (j & _ & ->).
    repeat split; try assumption.
  - right. exists m, e. rewrite Hturn. repeat split; assumption.
Qed.

End WhileLoop.

(** ** Frames of another shape *)

Section Shape.

Context {rt : Runtime}.
Variable v : variant.
Variable base : string.

(** C5, as amended.  A frame that parses to a value other than [null]
    whose [message] field is missing or falsy is answered by
    [{"error": "No message content provided."}], with history and flag
    unchanged and no loop started.  A frame that is not valid JSON is
    answered by [{"error": "Error: <message of the parser>"}]; the
    history is unchanged and no loop starts.  A frame whose [message]
    field is truthy, of whatever type, is accepted when the session is
    not processing: the handler runs the turn of that message, provided
    the echo of [index.js] can convert the message to a string (the
    deployment variant has no echo).  When that conversion throws, the
    user message is appended all the same, the outer [catch] answers
    with the text of the error and clears the flag, and no completion
    request is made. *)
Theorem malformed_frame_rejected (data : string) (s : session) :
  (forall value,
      JSON_parse data = Resolved value ->
      value <> JNull ->
      truthy_opt (message_field value) = false ->
      run_sync (on_message v base data) s
      = ([Error "No message content provided."], s, Ret tt)) /\
  (forall text,
      JSON_parse data = Rejected text ->
      exists s',
        run_sync (on_message v base data) s
        = ([Error ("Error: " +++ text)], s', Ret tt) /\
        messages s' = messages s) /\
  (forall value m w,
      JSON_parse data = Resolved value ->
      message_field value = Some m ->
      truthy m = true ->
      processing s = false ->
      (v = part_000 \/ (exists text, template m = Resolved text) ->
       exec (on_message v base data) w s = exec (turn v base m) w s) /\
      (forall e,
          v = index_js ->
          template m = Rejected e ->
          exec (on_message v base data) w s
          = {| events := [Sent (Error ("Error: " +++ e))];
               final := {| messages := messages s ++ [user_message m];
                           processing := false |};
               remaining := w;
               result := Resolved tt |})).
Proof.
  split; [|split].
  - intros value Hparse Hnull Hfalsy. unfold on_message. rewrite Hparse.
    destruct value as [ | b | x | t | items | members ]; try contradiction;
      try reflexivity.
    simpl in *. destruct (lookup "message" members) as [m|]; [|reflexivity].
    simpl in *. rewrite Hfalsy. reflexivity.
  - intros text Hparse. unfold on_message. rewrite Hparse. simpl.
    eexists. split; reflexivity.
  - intros value m w Hparse Hfield Hm Hidle.
    assert (E : exec (on_message v base data) w s
                = exec (try_catch (turn v base m)
                          (fun message =>
                             send (Error ("Error: " +++ message)) ;;
                             put_processing false)) w s).
    { unfold on_message. rewrite Hparse.
      destruct value as [ | b | x | t | items | members ]; try discriminate Hfield.
      cbn [message_field] in Hfield.
      cbn [await bind try_catch property]. rewrite Hfield, Hm.
      cbn [negb get_processing bind try_catch exec]. rewrite Hidle. reflexivity. }
    rewrite E, exec_try_catch.
    pose proof (exec_turn v base m w s) as Hturn. cbv zeta in Hturn.
    unfold echo_events in Hturn. split.
    + intros Hecho. destruct v.
      * destruct Hecho as [Hv | [text Htext]]; [discriminate Hv|].
        rewrite Htext in Hturn. destruct Hturn as (j & _ & ->). reflexivity.
      * destruct Hturn as (j & _ & ->). reflexivity.
    + intros e -> He. rewrite He in Hturn. rewrite Hturn. reflexivity.
Qed.

End Shape.

Section ShapeExamples.

#[local] Existing Instance Sample.runtime.

Lemma malformed_frame_rejected_witness :
  run_sync (on_message index_js "" "{}") Sample.idle
  = ([Error "No message content provided."], Sample.idle, Ret tt) /\
  (exists s',
      run_sync (on_message index_js "" "list all packages") Sample.idle
      = ([Error ("Error: " +++ "Unexpected token")], s', Ret tt) /\
      messages s' = messages Sample.idle) /\
  exec (on_message index_js "" (Sample.object_text "message" "5"))
       Sample.offline Sample.idle
  = exec (turn index_js "" (JNum (Sample.number 5))) Sample.offline Sample.idle /\
  exec (on_message index_js ""
          (Sample.object_text "message" (Sample.object_text "toString" "1")))
       Sample.offline Sample.idle
  = {| events := [Sent (Error ("Error: " +++ Sample.cannot_convert))];
       final := {| messages := messages Sample.idle
                               ++ [user_message
                                     (JObj [("toString", JNum (Sample.number 1))])];
                   processing := false |};
       remaining := Sample.offline;
       result := Resolved tt |}.
Proof.
  split; [|split; [|split]].
  - apply (proj1 (malformed_frame_rejected index_js "" "{}" Sample.idle) (JObj [])).
    + reflexivity.
    + discriminate.
    + reflexivity.
  - apply (proj1 (proj2 (malformed_frame_rejected index_js "" "list all packages"
                           Sample.idle))).
    reflexivity.
  - refine (proj1 (proj2 (proj2 (malformed_frame_rejected index_js ""
                                   (Sample.object_text "message" "5") Sample.idle))
                      (JObj [("message", JNum (Sample.number 5))])
                      (JNum (Sample.number 5)) Sample.offline _ _ _ _) _).
    + reflexivity.
    + reflexivity.
    + reflexivity.
    + reflexivity.
    + right. exists "5". reflexivity.
  - refine (proj2 (proj2 (proj2 (malformed_frame_rejected index_js ""
                                   (Sample.object_text "message"
                                      (Sample.object_text "toString" "1"))
                                   Sample.idle))
                      (JObj [("message", JObj [("toString", JNum (Sample.number 1))])])
                      (JObj [("toString", JNum (Sample.number 1))])
                      Sample.offline _ _ _ _)
                  Sample.cannot_convert _ _).
    + reflexivity.
    + reflexivity.
    + reflexivity.
    + reflexivity.
    + reflexivity.
    + reflexivity.
Defined.

(** C5, as stated, fails twice.  A frame whose [message] is the number
    5 is not of the shape [{"message": <string>}], yet it is accepted:
    the user message is appended, the flag is set and the first
    completion request is made.  And a frame that is not JSON is not
    answered by "No message content provided."; arriving while a turn
    runs, it clears the flag of that turn. *)
Lemma frame_of_other_shape_not_rejected :
  (let data := Sample.object_text "message" "5" in
   JSON_parse data = Resolved (JObj [("message", JNum (Sample.number 5))]) /\
   exists k,
     run_sync (on_message index_js "" data) Sample.idle
     = ([Progress "You: 5"],
        {| messages := [system_message "prompt"; user_message (JNum (Sample.number 5))];
           processing := true |},
        FetchCompletion k)) /\
  (JSON_parse "list all packages" = Rejected "Unexpected token" /\
   run_sync (on_message index_js "" "list all packages") Sample.busy
   = ([Error "Error: Unexpected token"], Sample.idle, Ret tt)).
Proof.
  split; split; try reflexivity.
  eexists. reflexivity.
Qed.


End ShapeExamples.

(** ** A failed completion call *)

Section BackendError.

Context {rt : Runtime}.
Variable v : variant.
Variable base : string.

Lemma not_failed_completion (o : settled (http_response assistant_turn))
      (t : assistant_turn) :
  completion_result v o = Resolved t -> ~ failed o.
Proof.
  intros H Hf. destruct (failed_completion_result v o Hf) as [text E]. congruence.
Qed.

Lemma quiet_no_completion (es before rest : list event) payload o :
  quiet es -> es <> before ++ Completion payload o :: rest.
Proof.
  intros Hq E. rewrite <- (app_nil_r es) in E.
  destruct (quiet_split es [] before rest payload o Hq E) as (before' & _ & E').
  destruct before'; discriminate E'.
Qed.

(** In the loop, a completion call that fails is followed by one error
    frame and nothing else, and the loop ends below the ceiling. *)
Lemma while_loop_failed_completion (fuel i : nat) (w : backends) (s : session)
      (before rest : list event) payload o :
  events (exec (while_loop v base fuel i) w s) = before ++ Completion payload o :: rest ->
  failed o ->
  (exists text, rest = [Sent (Error text)]) /\
  (exists j, result (exec (while_loop v base fuel i) w s) = Resolved j /\ j < maxIterations) /\
  processing (final (exec (while_loop v base fuel i) w s)) = processing s.
Proof.
  revert i w s before. induction fuel as [|fuel IH]; intros i w s before E Hf.
  { destruct before; discriminate E. }
  destruct (Nat.ltb_spec i maxIterations) as [Hlt|Hge].
  2:{ rewrite (exec_while_loop_exit v base (S fuel) i w s Hge) in E.
      destruct before; discriminate E. }
  rewrite (exec_while_loop_step v base fuel i w s Hlt) in *.
  destruct (completion_result v (fst (next_completion w))) as [t|text] eqn:Hc.
  - destruct (calls_of t) as [|c calls] eqn:Hcalls.
    + rewrite (exec_pass_final v base w s t Hc Hcalls) in *.
      cbn [result events final] in *.
      destruct before as [|b before]; cbn [app] in E.
      * injection E as _ <- _. contradiction (not_failed_completion _ t Hc).
      * injection E as _ E. destruct before; [discriminate E|].
        destruct before; discriminate E.
    + assert (Hne : calls_of t <> []) by congruence.
      pose proof (exec_pass_batch v base w s t Hc Hne) as Hpass.
      cbv zeta in Hpass.
      destruct (exec_for_tool_calls v base t (calls_of t) (snd (next_completion w))
                  (push (assistant_message t) s)) as (Hq & Hp & _).
      destruct (result (exec (for_tool_calls v base t (calls_of t))
                             (snd (next_completion w)) (push (assistant_message t) s)))
        as [u|text]; rewrite Hpass in *; cbn [result events final remaining prepend] in *.
      * destruct before as [|b before]; cbn [app] in E.
        -- injection E as _ <- _. contradiction (not_failed_completion _ t Hc).
        -- injection E as _ E.
           destruct (quiet_split _ _ _ _ _ _ Hq E) as (before' & _ & E').
           destruct (IH _ _ _ _ E' Hf) as (Hrest & Hj & Hflag).
           repeat split; try assumption. rewrite Hflag. exact Hp.
      * destruct before as [|b before]; cbn [app] in E.
        -- injection E as _ <- _. contradiction (not_failed_completion _ t Hc).
        -- injection E as _ E. exfalso.
           refine (quiet_no_completion _ before rest payload o _ E).
           apply quiet_app; [exact Hq | repeat constructor].
  - rewrite (exec_pass_failed v base w s text Hc) in *.
    cbn [result events final] in *.
    destruct before as [|b before]; cbn [app] in E.
    + injection E as _ _ <-. repeat split; eauto.
    + injection E as _ E. destruct before; [discriminate E|].
      destruct before; discriminate E.
Qed.

(** C7.  When a completion call fails (transport fault or a status that
    is not 2xx), one error frame follows and nothing else: no further
    completion request, no tool dispatch; and the run ends with the
    flag cleared. *)
Theorem failed_completion_ends_turn
        (data : string) (w : backends) (s : session)
        (before rest : list event) payload o :
  events (exec (on_message v base data) w s) = before ++ Completion payload o :: rest ->
  failed o ->
  (exists text, rest = [Sent (Error text)]) /\
  processing (final (exec (on_message v base data) w s)) = false.
Proof.
  intros E Hf.
  destruct (exec_on_message v base data w s)
    as [(text & s' & Hrun & _) | [(m & es & _ & _ & He & Hrun) | (m & e & _ & _ & _ & Hrun)]];
    rewrite Hrun in *.
  { cbn [events] in E. destruct before; [discriminate E|].
    destruct before; discriminate E. }
  2:{ cbn [events] in E. destruct before; [discriminate E|].
      destruct before; discriminate E. }
  pose proof (exec_turn v base m w s) as Hturn. cbv zeta in Hturn.
  rewrite He in Hturn. destruct Hturn as (j & Hj & Hturn).
  rewrite Hturn in *. cbn [events final] in *.
  split; [|reflexivity].
  assert (Hecho : quiet es).
  { destruct (echo_events_progress v m es He) as [-> | [text ->]];
      repeat constructor. }
  destruct (quiet_split _ _ _ _ _ _ Hecho E) as (before' & _ & E').
  assert (Hlimit : quiet (limit_events j)).
  { unfold limit_events. destruct (maxIterations <=? j); repeat constructor. }
  set (loop := exec (while_loop v base maxIterations 0) w
                    (push (user_message m) (set_processing true s))) in *.
  assert (Hin : exists mid, events loop = before' ++ Completion payload o :: mid /\
                            rest = mid ++ limit_events j).
  { clear - E' Hlimit. revert before' E'.
    induction (events loop) as [|e es IH]; intros before' E'.
    - exfalso. exact (quiet_no_completion _ _ _ _ _ Hlimit E').
    - destruct before' as [|b before']; cbn [app] in E'.
      + injection E' as -> <-. exists es. split; reflexivity.
      + injection E' as -> E'. destruct (IH before' E') as (mid & -> & ->).
        exists mid. split; reflexivity. }
  destruct Hin as (mid & Hloop & ->).
  destruct (while_loop_failed_completion _ _ _ _ _ _ _ _ Hloop Hf)
    as ((text & ->) & (j' & Hj' & Hlt) & _).
  fold loop in Hj'. rewrite Hj in Hj'. injection Hj' as ->.
  unfold limit_events. destruct (Nat.leb_spec maxIterations j'); [lia|].
  exists text. reflexivity.
Qed.

End BackendError.

Section BackendErrorExample.

#[local] Existing Instance Sample.runtime.

Lemma failed_completion_ends_turn_witness :
  let data := Sample.object_text "message" (Sample.quoted "a") in
  let w := {| completions := [Sample.refuse 500]; sql_results := [] |} in
  (exists text, [Sent (Error "DeepSeek API error: DeepSeek API error 500")]
                = [Sent (Error text)]) /\
  processing (final (exec (on_message index_js "" data) w Sample.idle)) = false.
Proof.
  cbv zeta.
  apply (failed_completion_ends_turn index_js ""
           (Sample.object_text "message" (Sample.quoted "a"))
           {| completions := [Sample.refuse 500]; sql_results := [] |} Sample.idle
           [Sent (Progress "You: a")]
           [Sent (Error "DeepSeek API error: DeepSeek API error 500")]
           [system_message "prompt"; user_message (JStr "a")]
           (Sample.refuse 500)).
  - reflexivity.
  - reflexivity.
Defined.

End BackendErrorExample.

(** ** The nominal turn *)

Section Nominal.

Context {rt : Runtime}.
Variable v : variant.
Variable base : string.

(** A [run_sql_query] call whose query contains SELECT is posted to the
    read endpoint and answered by a tool message. *)
Lemma exec_select_call (messageResponse : assistant_turn) (toolCall : tool_call)
      (arguments : list (string * json)) (q : string) (w : backends) (s : session) :
  function_name toolCall = "run_sql_query" ->
  JSON_parse (function_arguments toolCall) = Resolved (JObj arguments) ->
  lookup "query" arguments = Some (JStr q) ->
  contains_ci q "SELECT" ->
  exec (tool_call_body v base messageResponse toolCall) w s
  = dispatched_run (description_text v messageResponse "run_sql_query" q)
                   (query_url v base) q toolCall w s.
Proof.
  intros Hname Hargs Hquery Hselect.
  pose proof (includes_true "SELECT" q keyword_SELECT Hselect) as Hinc.
  pose proof (mentions_nonempty q _ _ Hinc) as Hq.
  unfold tool_call_body. rewrite Hargs, Hname.
  cbn [property bind]. rewrite Hquery. cbn [truthy]. rewrite Hq.
  cbn [negb]. rewrite description_string.
  cbn [send bind String.eqb Ascii.eqb Bool.eqb receiver exec].
  rewrite Hinc. cbn [negb]. unfold run_tool, callSqlApi. rewrite Hinc.
  unfold after. rewrite exec_bind, exec_post_query. reflexivity.
Qed.

(** C9, as amended.  User message, one assistant turn with one
    [run_sql_query] call whose query contains SELECT, the answer of the
    data-access backend (2xx or not), then a completion without tool
    calls: the
    client observes the progress frame of the tool call and then the
    response frame, and nothing else, in the deployment variant; in
    [index.js] the echo frame [You: <message>] comes before the two. *)
Theorem nominal_turn_frames
        (data : string) (members : list (string * json)) (m : string)
        (r1 r2 : http_response assistant_turn) (t1 t2 : assistant_turn)
        (toolCall : tool_call) (arguments : list (string * json)) (q : string)
        (cs : list (settled (http_response assistant_turn)))
        (ss : list (settled (http_response json)))
        (s : session) :
  JSON_parse data = Resolved (JObj members) ->
  lookup "message" members = Some (JStr m) ->
  m <> "" ->
  processing s = false ->
  ok r1 = true -> body_json r1 = Resolved t1 ->
  tool_calls t1 = Some [toolCall] ->
  function_name toolCall = "run_sql_query" ->
  JSON_parse (function_arguments toolCall) = Resolved (JObj arguments) ->
  lookup "query" arguments = Some (JStr q) ->
  contains_ci q "SELECT" ->
  ok r2 = true -> body_json r2 = Resolved t2 ->
  calls_of t2 = [] ->
  frames (events (exec (on_message v base data)
                       {| completions := Resolved r1 :: Resolved r2 :: cs;
                          sql_results := ss |} s))
  = match v with
    | index_js => [Progress ("You: " +++ m)]
    | part_000 => []
    end
    ++ [Progress (description_text v t1 "run_sql_query" q);
        Response (content t2)].
Proof.
  intros Hparse Hfield Hm Hidle Hok1 Hbody1 Hcalls1 Hname Hargs Hquery Hselect
         Hok2 Hbody2 Hcalls2.
  set (w := {| completions := Resolved r1 :: Resolved r2 :: cs;
               sql_results := ss |}).
  set (s1 := push (user_message (JStr m)) (set_processing true s)).
  set (s2 := push (assistant_message t1) s1).
  set (w1 := {| completions := Resolved r2 :: cs; sql_results := ss |}).
  set (w2 := snd (next_sql w1)).
  set (d := description_text v t1 "run_sql_query" q).
  (* the batch of the first assistant turn *)
  assert (Hbatch : exec (for_tool_calls v base t1 (calls_of t1)) w1 s2
                   = prepend (events (dispatched_run d (query_url v base) q toolCall w1 s2))
                             (exec (Ret tt) w2 (final (dispatched_run d (query_url v base)
                                                         q toolCall w1 s2)))).
  { unfold calls_of. rewrite Hcalls1. cbn [for_tool_calls]. rewrite exec_bind.
    rewrite (exec_select_call t1 toolCall arguments q w1 s2 Hname Hargs Hquery Hselect).
    reflexivity. }
  (* the first pass *)
  assert (Hc1 : completion_result v (fst (next_completion w)) = Resolved t1).
  { cbn. rewrite Hok1. exact Hbody1. }
  assert (Hne : calls_of t1 <> []).
  { unfold calls_of. rewrite Hcalls1. discriminate. }
  pose proof (exec_pass_batch v base w s1 t1 Hc1 Hne) as Hpass1. cbv zeta in Hpass1.
  change (snd (next_completion w)) with w1 in Hpass1.
  change (push (assistant_message t1) s1) with s2 in Hpass1.
  rewrite Hbatch in Hpass1. cbn [result prepend exec events final remaining] in Hpass1.
  (* the second pass *)
  set (s3 := final (dispatched_run d (query_url v base) q toolCall w1 s2)) in *.
  assert (Hc2 : completion_result v (fst (next_completion w2)) = Resolved t2).
  { assert (E : completions w2 = Resolved r2 :: cs).
    { unfold w2, next_sql. destruct (sql_results w1); reflexivity. }
    unfold next_completion. rewrite E. cbn. rewrite Hok2. exact Hbody2. }
  pose proof (exec_pass_final v base w2 s3 t2 Hc2 Hcalls2) as Hpass2.
  (* the loop *)
  assert (Hloop : frames (events (exec (while_loop v base maxIterations 0) w s1))
                  = [Progress d; Response (content t2)] /\
                  result (exec (while_loop v base maxIterations 0) w s1) = Resolved 1).
  { change (while_loop v base maxIterations 0) with (while_loop v base (S 9) 0).
    rewrite exec_while_loop_step by (unfold maxIterations; lia).
    rewrite Hpass1. cbn [result events final remaining].
    change 9 with (S 8).
    rewrite exec_while_loop_step by (unfold maxIterations; lia).
    rewrite Hpass2. split; reflexivity. }
  (* the handler *)
  unfold on_message. rewrite Hparse.
  cbn [await bind try_catch property]. rewrite Hfield.
  cbn [truthy]. destruct (String.eqb_spec m ""); [contradiction|].
  cbn [negb get_processing bind try_catch exec]. rewrite Hidle.
  rewrite exec_try_catch.
  pose proof (exec_turn v base (JStr m) w s) as Hturn. cbv zeta in Hturn.
  assert (He : echo_events v (JStr m)
               = Resolved match v with
                          | index_js => [Sent (Progress ("You: " +++ m))]
                          | part_000 => []
                          end).
  { unfold echo_events. destruct v; reflexivity. }
  rewrite He in Hturn. destruct Hturn as (j & Hj & ->).
  fold s1 in Hj |- *. destruct Hloop as [Hframes Hresult].
  rewrite Hresult in Hj. injection Hj as <-.
  cbn [result events]. unfold frames in *. rewrite !flat_map_app, Hframes.
  destruct v; reflexivity.
Qed.

End Nominal.
Section NominalExample.

#[local] Existing Instance Sample.runtime.

Lemma nominal_turn_frames_witness :
  let data := Sample.object_text "message" (Sample.quoted "list all packages") in
  frames (events (exec (on_message part_000 "https://sql.example/" data)
                       Sample.nominal Sample.idle))
  = [Progress "Querying data...[SELECT * FROM packages]";
     Response (Text "Here are the packages.")].
Proof.
  refine (nominal_turn_frames part_000 "https://sql.example/"
            (Sample.object_text "message" (Sample.quoted "list all packages"))
            [("message", JStr "list all packages")] "list all packages"
            {| status := 200; body_text := Resolved ""; body_json := Resolved _ |}
            {| status := 200; body_text := Resolved ""; body_json := Resolved _ |}
            (Sample.asks [Sample.call "call_1" "run_sql_query"
                            (Sample.quoted "SELECT * FROM packages")])
            (Sample.answers "Here are the packages.")
            (Sample.call "call_1" "run_sql_query" (Sample.quoted "SELECT * FROM packages"))
            [("query", JStr "SELECT * FROM packages")] "SELECT * FROM packages"
            [] [Sample.respond (JObj [("rows", JArr [])])] Sample.idle
            _ _ _ _ _ _ _ _ _ _ _ _ _ _);
    try reflexivity.
  - discriminate.
  - apply (includes_toUpperCase "SELECT" keyword_SELECT). reflexivity.
Defined.

(** C9, as stated, fails for [index.js]: in the scenario of the
    specification the client observes two progress frames before the
    response frame, the first being the echo of the user message. *)
Lemma index_js_sends_two_progress_frames :
  let data := Sample.object_text "message" (Sample.quoted "list all packages") in
  frames (events (exec (on_message index_js "" data) Sample.nominal Sample.idle))
  = [Progress "You: list all packages";
     Progress "Querying data...";
     Response (Text "Here are the packages.")].
Proof. reflexivity. Qed.

End NominalExample.

(** ** The iteration ceiling *)

Lemma at_most_le {A} (n m : nat) (p : prog A) : at_most n p -> n <= m -> at_most m p.
Proof.
  revert n m. induction p as [a|e|fr k IH|k IH|b k IH|msg k IH|k IH|url q k IH];
    intros n m H Hle; simpl in *; eauto.
  destruct n as [|n]; [contradiction|]. destruct m as [|m]; [lia|].
  intros o. apply (IH o n m); [apply H | lia].
Qed.

Lemma at_most_bind {A B} (n m : nat) (p : prog A) (f : A -> prog B) :
  at_most n p -> (forall a, at_most m (f a)) -> at_most (n + m) (bind p f).
Proof.
  revert n. induction p as [a|e|fr k IH|k IH|b k IH|msg k IH|k IH|url q k IH];
    intros n H Hf; simpl in *; eauto.
  - apply (at_most_le m); [apply Hf | lia].
  - destruct n as [|n]; [contradiction|]. simpl. intros o. apply IH; [apply H | exact Hf].
Qed.

Lemma at_most_try_catch {A} (n m : nat) (p : prog A) (h : string -> prog A) :
  at_most n p -> (forall e, at_most m (h e)) -> at_most (n + m) (try_catch p h).
Proof.
  revert n. induction p as [a|e|fr k IH|k IH|b k IH|msg k IH|k IH|url q k IH];
    intros n H Hh; simpl in *; eauto.
  - apply (at_most_le m); [apply Hh | lia].
  - destruct n as [|n]; [contradiction|]. simpl. intros o. apply IH; [apply H | exact Hh].
Qed.

(** A program that makes at most [n] completion requests on every path
    makes at most [n] in every run. *)
Lemma at_most_round_trips {A} (n : nat) (p : prog A) (w : backends) (s : session) :
  at_most n p -> round_trips (events (exec p w s)) <= n.
Proof.
  revert n w s. induction p as [a|e|fr k IH|k IH|b k IH|msg k IH|k IH|url q k IH];
    intros n w s H; simpl in *.
  - unfold round_trips. simpl. lia.
  - unfold round_trips. simpl. lia.
  - apply (IH n w s H).
  - apply (IH (processing s) n w s (H (processing s))).
  - apply (IH n w (set_processing b s) H).
  - apply (IH n w (push msg s) H).
  - destruct (next_completion w) as [o w']. destruct n as [|n]; [contradiction|].
    specialize (IH o n w' s (H o)). unfold round_trips in *. simpl. lia.
  - destruct (next_sql w) as [o w']. apply (IH o n w' s (H o)).
Qed.

Section Ceiling.

Context {rt : Runtime}.
Variable v : variant.
Variable base : string.

Lemma at_most_await {A} (r : settled A) : at_most 0 (await r).
Proof. destruct r; exact I. Qed.

Lemma at_most_post_query (url q : string) : at_most 0 (post_query url q).
Proof.
  unfold post_query, fetch_sql. simpl. intros [r|text]; simpl; [|exact I].
  destruct (ok r); simpl; [|exact I]. destruct (body_json r); exact I.
Qed.

Lemma at_most_run_tool (toolCall : tool_call) (q : string) :
  at_most 0 (run_tool v base toolCall q).
Proof.
  unfold run_tool. apply (at_most_bind 0 0); [|intros; exact I].
  unfold callSqlApi. destruct (includes _ _); [apply at_most_post_query|].
  destruct (_ || _); [apply at_most_post_query | exact I].
Qed.

(** The dispatcher makes no completion request. *)
Lemma at_most_tool_call_body (messageResponse : assistant_turn) (toolCall : tool_call) :
  at_most 0 (tool_call_body v base messageResponse toolCall).
Proof.
  unfold tool_call_body.
  destruct (JSON_parse (function_arguments toolCall)) as [agrs|text]; [|exact I].
  apply (at_most_bind 0 0); [destruct agrs; exact I|].
  intros [q|]; [|exact I]. destruct (truthy q); [|exact I]. cbn [negb].
  apply (at_most_bind 0 0).
  { destruct (description_cases v messageResponse (function_name toolCall) q)
      as [[d ->] | [e ->]]; exact I. }
  intros d. simpl.
  destruct (_ =? _)%string.
  - apply (at_most_bind 0 0); [destruct q; exact I|]. intros text.
    destruct (negb _); [exact I | apply at_most_run_tool].
  - destruct (_ =? _)%string; [|exact I].
    apply (at_most_bind 0 0); [destruct q; exact I|]. intros text.
    destruct (negb _); [exact I | apply at_most_run_tool].
Qed.

Lemma at_most_for_tool_calls (messageResponse : assistant_turn) (calls : list tool_call) :
  at_most 0 (for_tool_calls v base messageResponse calls).
Proof.
  induction calls as [|toolCall calls IH]; [exact I|].
  cbn [for_tool_calls]. apply (at_most_bind 0 0); [apply at_most_tool_call_body|].
  intros [|]; [exact IH | exact I].
Qed.

(** A pass makes one completion request. *)
Lemma at_most_pass : at_most 1 (pass v base).
Proof.
  unfold pass. apply (at_most_try_catch 1 0); [|intros; exact I].
  unfold iteration_body. apply (at_most_bind 1 0).
  - unfold completion, fetch_completion. simpl. intros [r|text]; simpl; [|exact I].
    destruct (ok r); simpl; [apply at_most_await|].
    destruct v; simpl; [exact I|]. destruct (body_text r); exact I.
  - intros t. simpl. destruct (tool_calls t) as [calls|]; [|exact I].
    destruct (length calls =? 0); [exact I|].
    apply (at_most_bind 0 0); [apply at_most_for_tool_calls | intros; exact I].
Qed.

(** From [iteration] on, the loop makes at most
    [maxIterations - iteration] completion requests. *)
Lemma at_most_while_loop (fuel i : nat) :
  at_most (maxIterations - i) (while_loop v base fuel i).
Proof.
  revert i. induction fuel as [|fuel IH]; intros i; [exact I|].
  cbn [while_loop]. destruct (Nat.ltb_spec i maxIterations) as [Hlt|Hge]; [|exact I].
  replace (maxIterations - i) with (1 + (maxIterations - S i)) by lia.
  apply at_most_bind; [apply at_most_pass|].
  intros [|]; [apply IH | exact I].
Qed.

Lemma at_most_turn (m : json) : at_most maxIterations (turn v base m).
Proof.
  unfold turn.
  apply (at_most_bind 0 maxIterations); [exact I|]. intros _.
  apply (at_most_bind 0 maxIterations); [exact I|]. intros _.
  apply (at_most_bind 0 maxIterations).
  { unfold echo. destruct v; [destruct (template m)|]; exact I. }
  intros _.
  apply (at_most_bind maxIterations 0 (while_loop v base maxIterations 0));
    [apply (at_most_while_loop maxIterations 0)|].
  intros j. apply (at_most_bind 0 0); [destruct (_ <=? _); exact I | intros; exact I].
Qed.

(** No path of the handler makes more than ten completion requests. *)
Lemma at_most_on_message (data : string) :
  at_most maxIterations (on_message v base data).
Proof.
  unfold on_message.
  apply (at_most_try_catch maxIterations 0); [|intros; exact I].
  apply (at_most_bind 0 maxIterations); [apply at_most_await|]. intros value.
  apply (at_most_bind 0 maxIterations); [destruct value; exact I|].
  intros [m|]; [|exact I]. destruct (truthy m); [|exact I].
  cbn [negb]. apply (at_most_bind 0 maxIterations); [intros b; exact I|].
  intros [|]; [exact I | apply at_most_turn].
Qed.

(** For every frame, whatever the backends answer: at most ten
    round-trips to the completion backend. *)
Lemma round_trips_bounded (data : string) (w : backends) (s : session) :
  round_trips (events (exec (on_message v base data) w s)) <= maxIterations.
Proof. apply at_most_round_trips, at_most_on_message. Qed.

End Ceiling.

(** ** Reaching the ceiling *)

(** A program that makes no completion request leaves the script of the
    completion backend as it is. *)
Lemma at_most_0_completions {A} (p : prog A) (w : backends) (s : session) :
  at_most 0 p -> completions (remaining (exec p w s)) = completions w.
Proof.
  revert w s. induction p as [a|e|fr k IH|k IH|b k IH|msg k IH|k IH|url q k IH];
    intros w s H; cbn [exec at_most] in *; try reflexivity.
  - apply (IH w s H).
  - apply (IH (processing s) w s (H (processing s))).
  - apply (IH w (set_processing b s) H).
  - apply (IH w (push msg s) H).
  - contradiction.
  - unfold next_sql. destruct (sql_results w) as [|o ss]; cbn [after remaining].
    + apply (IH _ w s (H _)).
    + rewrite (IH o _ s (H o)). reflexivity.
Qed.

Section Ceiling10.

Context {rt : Runtime}.
Variable v : variant.
Variable base : string.

(** A batch none of whose calls throws runs to its end. *)
Lemma for_tool_calls_returns (t : assistant_turn) (calls : list tool_call) :
  (forall toolCall w s,
      In toolCall calls ->
      exists f, result (exec (tool_call_body v base t toolCall) w s) = Resolved f) ->
  forall w s, result (exec (for_tool_calls v base t calls) w s) = Resolved tt.
Proof.
  induction calls as [|toolCall calls IH]; intros Hcalls w s; [reflexivity|].
  cbn [for_tool_calls]. rewrite exec_bind.
  destruct (Hcalls toolCall w s (or_introl eq_refl)) as [f ->].
  destruct f; cbn [prepend result exec]; [|reflexivity].
  apply IH. intros c w' s' Hin. apply Hcalls. right. exact Hin.
Qed.

(** A pass whose response asks for tools, none of which throws, ends
    with [iteration++]: one completion request, no response frame. *)
Lemma exec_pass_asks_for_tools (o : settled (http_response assistant_turn))
      (cs : list (settled (http_response assistant_turn)))
      (ss : list (settled (http_response json))) (s : session) :
  asks_for_tools v base o ->
  let r := exec (pass v base) {| completions := o :: cs; sql_results := ss |} s in
  result r = Resolved Next /\
  round_trips (events r) = 1 /\
  completions (remaining r) = cs.
Proof.
  intros (resp & t & -> & Hok & Hbody & Hne & Hcalls) r. subst r.
  set (w := {| completions := Resolved resp :: cs; sql_results := ss |}).
  assert (Hc : completion_result v (fst (next_completion w)) = Resolved t).
  { cbn. rewrite Hok. exact Hbody. }
  rewrite (exec_pass_batch v base w s t Hc Hne). cbv zeta.
  rewrite (for_tool_calls_returns t (calls_of t) Hcalls).
  cbn [result events remaining]. split; [reflexivity|]. split.
  - destruct (exec_for_tool_calls v base t (calls_of t) (snd (next_completion w))
                (push (assistant_message t) s)) as (Hq & _).
    unfold round_trips in *. cbn [filter length].
    apply quiet_round_trips in Hq. unfold round_trips in Hq. rewrite Hq. reflexivity.
  - rewrite (at_most_0_completions _ _ _ (at_most_for_tool_calls v base t (calls_of t))).
    reflexivity.
Qed.

Lemma round_trips_app (es1 es2 : list event) :
  round_trips (es1 ++ es2) = round_trips es1 + round_trips es2.
Proof. unfold round_trips. rewrite filter_app, length_app. reflexivity. Qed.

(** As long as the responses ask for tools, the loop runs up to the
    ceiling, one completion request per pass. *)
Lemma while_loop_reaches_ceiling
      (first rest : list (settled (http_response assistant_turn))) :
  Forall (asks_for_tools v base) first ->
  forall i ss s,
    i + length first = maxIterations ->
    let r := exec (while_loop v base (length first) i)
                  {| completions := first ++ rest; sql_results := ss |} s in
    result r = Resolved maxIterations /\
    round_trips (events r) = length first /\
    completions (remaining r) = rest.
Proof.
  induction 1 as [|o first Ho _ IH]; intros i ss s Hi; cbv zeta.
  - cbn [length] in *. cbn [while_loop exec result events remaining completions app].
    repeat split. f_equal. lia.
  - cbn [length app] in *.
    rewrite exec_while_loop_step by lia.
    destruct (exec_pass_asks_for_tools o (first ++ rest) ss s Ho) as (Hres & Hrt & Hrem).
    cbv zeta in Hres, Hrt, Hrem. rewrite Hres.
    set (p := exec (pass v base) {| completions := o :: first ++ rest; sql_results := ss |} s)
      in *.
    assert (Hw : remaining p = {| completions := first ++ rest;
                                  sql_results := sql_results (remaining p) |}).
    { destruct (remaining p) as [cs' ss']. cbn in Hrem. subst cs'. reflexivity. }
    rewrite Hw. cbn [prepend result events remaining].
    destruct (IH (S i) (sql_results (remaining p)) (final p)) as (Hres' & Hrt' & Hrem');
      [lia|]. cbv zeta in Hres', Hrt', Hrem'.
    split; [exact Hres'|]. split; [|exact Hrem'].
    rewrite round_trips_app, Hrt, Hrt'. reflexivity.
Qed.

(** When each of the first ten completion responses asks for tools and
    no call makes the dispatcher throw, an accepted turn (one whose echo
    does not throw) makes exactly ten completion requests, leaves the
    eleventh response unread, ends with the frame of the ceiling and
    clears the flag. *)
Lemma ceiling_reached_after_ten_batches
      (m : json) (first rest : list (settled (http_response assistant_turn)))
      (ss : list (settled (http_response json))) (s : session) :
  v = part_000 \/ (exists text, template m = Resolved text) ->
  length first = maxIterations ->
  Forall (asks_for_tools v base) first ->
  let r := exec (turn v base m) {| completions := first ++ rest; sql_results := ss |} s in
  round_trips (events r) = maxIterations /\
  completions (remaining r) = rest /\
  (exists es, events r = es ++ [Sent (Error "Reached maximum function call limit.")]) /\
  processing (final r) = false.
Proof.
  intros Hecho Hlen Hfirst. cbv zeta.
  pose proof (exec_turn v base m {| completions := first ++ rest; sql_results := ss |} s)
    as Hturn. cbv zeta in Hturn.
  destruct (echo_events_resolved v m Hecho) as [es He]. rewrite He in Hturn.
  destruct Hturn as (j & Hj & ->).
  destruct (while_loop_reaches_ceiling first rest Hfirst 0 ss
              (push (user_message m) (set_processing true s))) as (Hres & Hrt & Hrem);
    [rewrite Hlen; reflexivity|].
  cbv zeta in Hres, Hrt, Hrem. rewrite Hlen in Hres, Hrt, Hrem.
  rewrite Hres in Hj. injection Hj as <-.
  cbn [events remaining final set_processing processing].
  split; [|split; [exact Hrem | split; [|reflexivity]]].
  - rewrite !round_trips_app, Hrt.
    destruct (echo_events_progress v m es He) as [-> | [text ->]]; reflexivity.
  - exists (es
            ++ events (exec (while_loop v base maxIterations 0)
                            {| completions := first ++ rest; sql_results := ss |}
                            (push (user_message m) (set_processing true s)))).
    rewrite <- app_assoc. reflexivity.
Qed.

End Ceiling10.

Section CeilingExamples.

#[local] Existing Instance Sample.runtime.

(** Ten assistant turns that each ask for a tool and whose batches run
    to their end: ten completion requests, then the frame of the
    ceiling, and the flag is cleared. *)
Lemma ceiling_reached_sends_limit_frame :
  let r := exec (on_message index_js "" (Sample.object_text "message" (Sample.quoted "a")))
                Sample.insistent Sample.idle in
  round_trips (events r) = 10 /\
  frames (events r)
  = Progress "You: a" :: repeat (Progress "Querying data...") 10
    ++ [Error "Reached maximum function call limit."] /\
  processing (final r) = false.
Proof. cbv zeta. repeat split; reflexivity. Qed.

(** C1 at the failing input.  The tenth completion response carries a
    tool call whose [query] is the number 5: [query.toUpperCase()]
    throws inside the [try] of the loop, the [catch] of the completion
    call leaves the loop with [iteration] still 9, and the client gets
    the frame of that [catch] instead of
    [{"error": "Reached maximum function call limit."}]. *)
Theorem tenth_batch_type_error_skips_limit_frame :
  let r := exec (on_message index_js "" (Sample.object_text "message" (Sample.quoted "a")))
                Sample.insistent_number Sample.idle in
  nth_error (completions Sample.insistent_number) 9
  = Some (Sample.respond (Sample.asks [Sample.call "call_10" "run_sql_query" "5"])) /\
  round_trips (events r) = 10 /\
  frames (events r)
  = Progress "You: a" :: repeat (Progress "Querying data...") 10
    ++ [Error "DeepSeek API error: query.toUpperCase is not a function"] /\
  ~ In (Error "Reached maximum function call limit.") (frames (events r)) /\
  processing (final r) = false.
Proof.
  cbv zeta. repeat split; try reflexivity.
  intros H. vm_compute in H. repeat (destruct H as [H|H]; [discriminate H|]). exact H.
Qed.

End CeilingExamples.

(** ** Unparsable tool arguments *)

Section InvalidArguments.

Context {rt : Runtime}.
Variable v : variant.
Variable base : string.

(** Calls that are all dispatched: each is posted and answered by its
    tool message, and the batch goes on behind them. *)
Lemma exec_dispatched_calls (t : assistant_turn) (done tail : list tool_call) :
  (forall toolCall w s,
      In toolCall done ->
      result (exec (tool_call_body v base t toolCall) w s) = Resolved Next) ->
  forall w s,
  exists es results w' s',
    exec (for_tool_calls v base t (done ++ tail)) w s
    = prepend es (exec (for_tool_calls v base t tail) w' s') /\
    length (sql_posts es) = length done /\
    messages s' = messages s ++ results /\
    Forall2 (fun toolCall m => exists text, m = tool_message (id toolCall) text)
            done results.
Proof.
  induction done as [|toolCall done IH]; intros Hdone w s.
  - exists [], [], w, s. cbn [app]. rewrite prepend_nil, app_nil_r.
    repeat split. constructor.
  - cbn [app for_tool_calls]. rewrite exec_bind.
    destruct (exec_tool_call_body v base t toolCall w s)
      as [(d & url & q & E) | (fs & res & E & Hres)].
    2:{ exfalso. apply Hres. rewrite <- (Hdone toolCall w s (or_introl eq_refl)).
        rewrite E. reflexivity. }
    rewrite E. cbn [result dispatched_run events final remaining].
    destruct (IH (fun c w0 s0 H => Hdone c w0 s0 (or_intror H))
                 (snd (next_sql w))
                 (push (tool_message (id toolCall)
                          (JSON_stringify (sql_value (fst (next_sql w))))) s))
      as (es & results & w' & s' & Hrun & Hposts & Hhistory & Hids).
    exists ([Sent (Progress d); SqlPost url q (fst (next_sql w))] ++ es),
      (tool_message (id toolCall) (JSON_stringify (sql_value (fst (next_sql w))))
       :: results), w', s'.
    repeat split.
    + rewrite Hrun. unfold prepend. cbn [events final remaining result].
      rewrite app_assoc. reflexivity.
    + unfold sql_posts in *. cbn. rewrite Hposts. reflexivity.
    + rewrite Hhistory. cbn [push messages]. rewrite <- app_assoc. reflexivity.
    + constructor; [eexists; reflexivity | exact Hids].
Qed.

(** C6, as amended.  When the calls of a batch that come before a call
    with unparsable arguments are all dispatched, the batch ends at that
    call with the frame [{"error": "Invalid tool call arguments."}]:
    the calls behind it get no tool message and no backend call.  The
    loop does not end: [iteration] is incremented, and below the ceiling
    the next completion request is made. *)
Theorem unparsable_arguments_abandon_batch
        (fuel i : nat) (w : backends) (s : session)
        (r : http_response assistant_turn) (t : assistant_turn)
        (cs : list (settled (http_response assistant_turn)))
        (done : list tool_call) (bad : tool_call) (rest : list tool_call) :
  i < maxIterations ->
  completions w = Resolved r :: cs ->
  ok r = true ->
  body_json r = Resolved t ->
  tool_calls t = Some (done ++ bad :: rest) ->
  (forall toolCall w' s',
      In toolCall done ->
      result (exec (tool_call_body v base t toolCall) w' s') = Resolved Next) ->
  (exists text, JSON_parse (function_arguments bad) = Rejected text) ->
  exists es results w' s',
    exec (while_loop v base (S fuel) i) w s
    = prepend (Completion (messages s) (Resolved r)
               :: es ++ [Sent (Error "Invalid tool call arguments.")])
              (exec (while_loop v base fuel (S i)) w' s') /\
    length (sql_posts es) = length done /\
    messages s' = messages s ++ assistant_message t :: results /\
    Forall2 (fun toolCall m => exists text, m = tool_message (id toolCall) text)
            done results /\
    (S i < maxIterations -> fuel <> 0 ->
     exists payload o es',
       events (exec (while_loop v base fuel (S i)) w' s') = Completion payload o :: es').
Proof.
  intros Hi Hw Hok Hbody Hcalls Hdone (text & Hbad).
  assert (Hnext : next_completion w
                  = (Resolved r, {| completions := cs; sql_results := sql_results w |})).
  { unfold next_completion. rewrite Hw. reflexivity. }
  assert (Hc : completion_result v (fst (next_completion w)) = Resolved t).
  { rewrite Hnext. cbn. rewrite Hok. exact Hbody. }
  assert (Hne : calls_of t <> []).
  { unfold calls_of. rewrite Hcalls. destruct done; discriminate. }
  destruct (exec_dispatched_calls t done (bad :: rest) Hdone
              (snd (next_completion w)) (push (assistant_message t) s))
    as (es & results & w' & s' & Hrun & Hposts & Hhistory & Hids).
  assert (Hbadrun : exec (for_tool_calls v base t (bad :: rest)) w' s'
                    = {| events := [Sent (Error "Invalid tool call arguments.")];
                         final := s'; remaining := w'; result := Resolved tt |}).
  { cbn [for_tool_calls]. unfold tool_call_body. rewrite Hbad. reflexivity. }
  pose proof (exec_pass_batch v base w s t Hc Hne) as Hpass. cbv zeta in Hpass.
  unfold calls_of in Hpass. rewrite Hcalls in Hpass.
  rewrite Hrun, Hbadrun in Hpass. cbn [prepend result events final remaining] in Hpass.
  exists es, results, w', s'. repeat split.
  - rewrite (exec_while_loop_step v base fuel i w s Hi), Hpass.
    cbn [result events final remaining]. rewrite Hnext. reflexivity.
  - exact Hposts.
  - rewrite Hhistory. cbn [push messages]. rewrite <- app_assoc. reflexivity.
  - exact Hids.
  - intros Hlt Hfuel. destruct fuel as [|fuel]; [contradiction|].
    rewrite (exec_while_loop_step v base fuel (S i) w' s' Hlt).
    destruct (completion_result v (fst (next_completion w'))) as [t'|text'] eqn:Hc'.
    + destruct (calls_of t') as [|c calls] eqn:Hcalls'.
      * rewrite (exec_pass_final v base w' s' t' Hc' Hcalls'). eexists _, _, _. reflexivity.
      * rewrite (exec_pass_batch v base w' s' t' Hc') by congruence. cbv zeta.
        destruct (result (exec (for_tool_calls v base t' (calls_of t'))
                               (snd (next_completion w')) (push (assistant_message t') s')));
          eexists _, _, _; reflexivity.
    + rewrite (exec_pass_failed v base w' s' text' Hc'). eexists _, _, _. reflexivity.
Qed.

End InvalidArguments.

Section InvalidArgumentsExamples.

#[local] Existing Instance Sample.runtime.

Lemma unparsable_arguments_abandon_batch_witness :
  let s := push (user_message (JStr "a")) Sample.busy in
  exists es results w' s',
    exec (while_loop index_js "" (S 9) 0) Sample.broken_batch s
    = prepend (Completion (messages s)
                 (Sample.respond (Sample.asks [Sample.select_call "call_1";
                                               Sample.unparsable_call]))
               :: es ++ [Sent (Error "Invalid tool call arguments.")])
              (exec (while_loop index_js "" 9 1) w' s') /\
    length (sql_posts es) = 1 /\
    messages s' = messages s
                 ++ assistant_message (Sample.asks [Sample.select_call "call_1";
                                                    Sample.unparsable_call])
                 :: results /\
    Forall2 (fun toolCall m => exists text, m = tool_message (id toolCall) text)
            [Sample.select_call "call_1"] results /\
    (1 < maxIterations -> 9 <> 0 ->
     exists payload o es',
       events (exec (while_loop index_js "" 9 1) w' s') = Completion payload o :: es').
Proof.
  cbv zeta.
  apply (unparsable_arguments_abandon_batch index_js "" 9 0 Sample.broken_batch
           (push (user_message (JStr "a")) Sample.busy)
           {| status := 200; body_text := Resolved "";
              body_json := Resolved (Sample.asks [Sample.select_call "call_1";
                                                  Sample.unparsable_call]) |}
           (Sample.asks [Sample.select_call "call_1"; Sample.unparsable_call])
           [Sample.respond (Sample.answers "Done.")]
           [Sample.select_call "call_1"] Sample.unparsable_call []).
  - unfold maxIterations. lia.
  - reflexivity.
  - reflexivity.
  - reflexivity.
  - reflexivity.
  - intros toolCall w' s' [<- | []].
    rewrite (exec_select_call index_js "" _ (Sample.select_call "call_1")
               [("query", JStr "SELECT * FROM packages")] "SELECT * FROM packages" w' s').
    + reflexivity.
    + reflexivity.
    + reflexivity.
    + reflexivity.
    + apply (includes_toUpperCase "SELECT" keyword_SELECT). reflexivity.
  - exists "Unexpected token". reflexivity.
Defined.

(** C6, as stated, fails: this batch contains a call with unparsable
    arguments, but the call before it has no query; the batch ends there
    with the missing-query frame, and the frame
    [{"error": "Invalid tool call arguments."}] is never sent. *)
Lemma earlier_rejection_hides_invalid_arguments :
  let r := exec (on_message index_js "" (Sample.object_text "message" (Sample.quoted "a")))
                Sample.mixed_batch Sample.idle in
  JSON_parse (function_arguments Sample.unparsable_call) = Rejected "Unexpected token" /\
  frames (events r)
  = [Progress "You: a"; Error "Missing query parameter."; Response (Text "Done.")] /\
  ~ In (Error "Invalid tool call arguments.") (frames (events r)).
Proof.
  cbv zeta. repeat split; try reflexivity.
  intros H. vm_compute in H. repeat (destruct H as [H|H]; [discriminate H|]). exact H.
Qed.

End InvalidArgumentsExamples.

(** ** Turns served one after the other

    When no frame arrives while a handler is suspended, every history
    is correlated. *)

Lemma correlated_push (h : list message) (m : message) :
  correlated h ->
  (forall i text, m <> tool_message i text) ->
  correlated (h ++ [m]).
Proof.
  intros Hh Hm before i text rest E.
  apply app_eq_app in E. destruct E as (l & [[E1 E2] | [E1 E2]]).
  - destruct l as [|x l].
    + cbn in E2. injection E2 as E2 _. contradiction (Hm i text). congruence.
    + cbn in E2. injection E2 as <- E2.
      destruct (Hh before i text l E1) as (earlier & t & batch & -> & Hin & Hall).
      exists earlier, t, batch. auto.
  - destruct l as [|x l].
    + cbn in E2. injection E2 as E2 _. contradiction (Hm i text).
    + cbn in E2. injection E2 as _ E2. destruct l; discriminate E2.
Qed.

Lemma correlated_batch (h : list message) (t : assistant_turn) (results : list message) :
  correlated h ->
  Forall (tool_result_of t) results ->
  correlated (h ++ assistant_message t :: results).
Proof.
  intros Hh Hres before i text rest E.
  apply app_eq_app in E. destruct E as (l & [[E1 E2] | [E1 E2]]).
  - destruct l as [|x l]; [discriminate E2|].
    cbn in E2. injection E2 as <- E2.
    destruct (Hh before i text l E1) as (earlier & t' & batch & -> & Hin & Hall).
    exists earlier, t', batch. auto.
  - destruct l as [|x l]; [discriminate E2|].
    cbn in E2. injection E2 as <- E2. subst results.
    apply Forall_app in Hres. destruct Hres as [Hl Hrest].
    exists h, t, l. split; [exact E1|]. split; [|exact Hl].
    inversion Hrest as [|? ? (i' & text' & E' & Hin) _]; subst.
    injection E' as <- _. exact Hin.
Qed.

Lemma correlated_turns (h seg : list message) :
  correlated h -> turns seg -> correlated (h ++ seg).
Proof.
  intros Hh Hseg. revert h Hh.
  induction Hseg as [|t results more Hres _ IH]; intros h Hh.
  - rewrite app_nil_r. exact Hh.
  - replace (h ++ assistant_message t :: results ++ more)
      with ((h ++ assistant_message t :: results) ++ more)
      by (rewrite <- app_assoc; reflexivity).
    apply IH. apply correlated_batch; assumption.
Qed.

Lemma turns_app (seg1 seg2 : list message) :
  turns seg1 -> turns seg2 -> turns (seg1 ++ seg2).
Proof.
  induction 1 as [|t results more Hres _ IH]; intros H2; [exact H2|].
  cbn [app]. rewrite <- app_assoc. constructor; [exact Hres | apply IH, H2].
Qed.

Section Sequential.

Context {rt : Runtime}.
Variable v : variant.
Variable base : string.

(** A pass appends at most its assistant message and tool results of it,
    and leaves the flag alone. *)
Lemma pass_history (w : backends) (s : session) :
  (exists seg, messages (final (exec (pass v base) w s)) = messages s ++ seg /\ turns seg) /\
  processing (final (exec (pass v base) w s)) = processing s.
Proof.
  destruct (completion_result v (fst (next_completion w))) as [t|text] eqn:Hc.
  - destruct (calls_of t) as [|c calls] eqn:Hcalls.
    + rewrite (exec_pass_final v base w s t Hc Hcalls). split; [|reflexivity].
      exists [assistant_message t]. split; [reflexivity|].
      apply (turns_cons t [] []); constructor.
    + assert (Hne : calls_of t <> []) by congruence.
      pose proof (exec_pass_batch v base w s t Hc Hne) as Hpass. cbv zeta in Hpass.
      destruct (exec_for_tool_calls v base t (calls_of t) (snd (next_completion w))
                  (push (assistant_message t) s)) as (_ & Hp & results & Hh & Hall).
      assert (Hfinal : final (exec (pass v base) w s)
                       = final (exec (for_tool_calls v base t (calls_of t))
                                     (snd (next_completion w))
                                     (push (assistant_message t) s))).
      { rewrite Hpass. destruct (result _); reflexivity. }
      rewrite Hfinal. split; [|rewrite Hp; reflexivity].
      exists (assistant_message t :: results ++ []). split.
      * rewrite Hh, app_nil_r. cbn [push messages]. rewrite <- app_assoc. reflexivity.
      * constructor; [|constructor].
        eapply Forall_impl; [|exact Hall].
        intros m (i & body & -> & Hin). exists i, body. auto.
  - rewrite (exec_pass_failed v base w s text Hc). split; [|reflexivity].
    exists []. split; [symmetry; apply app_nil_r | constructor].
Qed.

Lemma while_loop_history (fuel i : nat) (w : backends) (s : session) :
  (exists seg,
      messages (final (exec (while_loop v base fuel i) w s)) = messages s ++ seg /\
      turns seg) /\
  processing (final (exec (while_loop v base fuel i) w s)) = processing s.
Proof.
  revert i w s. induction fuel as [|fuel IH]; intros i w s.
  - split; [|reflexivity]. exists []. split; [symmetry; apply app_nil_r | constructor].
  - destruct (Nat.ltb_spec i maxIterations) as [Hlt|Hge].
    2:{ rewrite (exec_while_loop_exit v base (S fuel) i w s Hge).
        split; [|reflexivity].
        exists []. split; [symmetry; apply app_nil_r | constructor]. }
    rewrite (exec_while_loop_step v base fuel i w s Hlt).
    destruct (pass_history w s) as ((seg1 & H1 & T1) & P1).
    destruct (result (exec (pass v base) w s)) as [[|]|text]; cbn [final prepend];
      try (split; [exists seg1; split; assumption | exact P1]).
    destruct (IH (S i) (remaining (exec (pass v base) w s))
                 (final (exec (pass v base) w s))) as ((seg2 & H2 & T2) & P2).
    split; [|rewrite P2; exact P1].
    exists (seg1 ++ seg2). split; [|apply turns_app; assumption].
    rewrite H2, H1, app_assoc. reflexivity.
Qed.

(** A handler run from a correlated history, with no other handler in
    between, leaves a correlated history. *)
Lemma on_message_correlated (data : string) (w : backends) (s : session) :
  correlated (messages s) ->
  correlated (messages (final (exec (on_message v base data) w s))).
Proof.
  intros Hs.
  destruct (exec_on_message v base data w s)
    as [(text & s' & -> & Hh) | [(m & es & _ & _ & He & ->) | (m & e & _ & _ & _ & ->)]].
  - cbn [final]. rewrite Hh. exact Hs.
  - pose proof (exec_turn v base m w s) as Hturn. cbv zeta in Hturn.
    rewrite He in Hturn. destruct Hturn as (j & _ & ->).
    cbn [final set_processing messages].
    destruct (while_loop_history maxIterations 0 w
                (push (user_message m) (set_processing true s))) as ((seg & -> & T) & _).
    apply correlated_turns; [|exact T].
    cbn [push messages set_processing]. apply correlated_push; [exact Hs | discriminate].
  - cbn [final set_processing push messages].
    apply correlated_push; [exact Hs | discriminate].
Qed.

End Sequential.

Section Alone.

Context {rt : Runtime}.
Variable v : variant.
Variable base : string.

Lemma resume_send (f : frame) (k : prog unit) (s : session)
      (waiting : list (prog unit)) (sent : list frame) :
  resume (Send f k) s waiting sent = resume k s waiting (sent ++ [f]).
Proof.
  unfold resume. cbn [run_sync]. destruct (run_sync k s) as [[fs s'] p'].
  rewrite <- app_assoc. reflexivity.
Qed.

(** A run of [exec] is a run of the connection: the one in which the
    exchanges of the handler settle while it is the only one. *)
Lemma exec_reachable (SYSTEM_PROMPT : string) (p : prog unit) :
  forall (w : backends) (s : session) (sent : list frame),
    reachable v base SYSTEM_PROMPT (resume p s [] sent) ->
    reachable v base SYSTEM_PROMPT
              {| state := final (exec p w s); suspended := [];
                 outbox := sent ++ frames (events (exec p w s)) |}.
Proof.
  induction p as [a|e|fr k IH|k IH|b k IH|msg k IH|k IH|url q k IH];
    intros w s sent R.
  - exact R.
  - exact R.
  - rewrite resume_send in R. specialize (IH w s (sent ++ [fr]) R).
    cbn [exec after events final frames flat_map].
    rewrite <- app_assoc in IH. exact IH.
  - exact (IH (processing s) w s sent R).
  - exact (IH w (set_processing b s) sent R).
  - exact (IH w (push msg s) sent R).
  - cbn [exec]. destruct (next_completion w) as [o w'].
    cbn [after events final frames flat_map app].
    assert (R' : reachable v base SYSTEM_PROMPT (resume (k o) s [] (sent ++ []))).
    { eapply reachable_step; [exact R|].
      apply (completion_settles v base (resume (FetchCompletion k) s [] sent) [] k [] o).
      reflexivity. }
    rewrite app_nil_r in R'. exact (IH o w' s sent R').
  - cbn [exec]. destruct (next_sql w) as [o w'].
    cbn [after events final frames flat_map app].
    assert (R' : reachable v base SYSTEM_PROMPT (resume (k o) s [] (sent ++ []))).
    { eapply reachable_step; [exact R|].
      apply (sql_settles v base (resume (FetchSql url q k) s [] sent) [] url q k [] o).
      reflexivity. }
    rewrite app_nil_r in R'. exact (IH o w' s sent R').
Qed.

(** Sessions served turn by turn are sessions of reachable connections
    with no handler suspended. *)
Lemma served_reachable (SYSTEM_PROMPT : string) (s : session) :
  served v base SYSTEM_PROMPT s ->
  exists sent,
    reachable v base SYSTEM_PROMPT {| state := s; suspended := []; outbox := sent |}.
Proof.
  induction 1 as [|s data w _ (sent & R)].
  - exists []. apply reachable_accepted.
  - eexists. apply (exec_reachable SYSTEM_PROMPT (on_message v base data) w s sent).
    eapply reachable_step; [exact R|].
    apply (message_arrives v base {| state := s; suspended := []; outbox := sent |} data).
Qed.

(** With turns served one after the other, every history is
    correlated. *)
Lemma served_correlated (SYSTEM_PROMPT : string) (s : session) :
  served v base SYSTEM_PROMPT s -> correlated (messages s).
Proof.
  induction 1 as [|s data w _ IH].
  - intros before i text rest E. cbn in E.
    destruct before as [|b before]; [discriminate E|].
    destruct before; discriminate E.
  - apply on_message_correlated. exact IH.
Qed.

End Alone.

(** ** Interleaved handlers without the stray reset

    The flag does its work as long as no handler ends in the outer
    [catch]: at most one handler is suspended, it holds the flag, and
    every history is correlated. *)

Lemma holds_flag_weaken {A} (flag : bool) (Q Q' : A -> bool -> Prop)
      (E E' : string -> bool -> Prop) (p : prog A) :
  (forall a fl, Q a fl -> Q' a fl) ->
  (forall e fl, E e fl -> E' e fl) ->
  holds_flag flag Q E p -> holds_flag flag Q' E' p.
Proof.
  intros HQ HE. revert flag.
  induction p as [a|e|fr k IH|k IH|b k IH|msg k IH|k IH|url q k IH];
    intros flag H; simpl in *; eauto.
  - destruct H as [Hf H]. split; [exact Hf | intros o; apply IH, H].
  - destruct H as [Hf H]. split; [exact Hf | intros o; apply IH, H].
Qed.

Lemma holds_flag_bind {A B} (flag : bool) (Q : B -> bool -> Prop)
      (E : string -> bool -> Prop) (p : prog A) (f : A -> prog B) :
  holds_flag flag (fun a fl => holds_flag fl Q E (f a)) E p ->
  holds_flag flag Q E (bind p f).
Proof.
  revert flag. induction p as [a|e|fr k IH|k IH|b k IH|msg k IH|k IH|url q k IH];
    intros flag H; simpl in *; eauto.
  - destruct H as [Hf H]. split; [exact Hf | intros o; apply IH, H].
  - destruct H as [Hf H]. split; [exact Hf | intros o; apply IH, H].
Qed.

Lemma holds_flag_try_catch {A} (flag : bool) (Q : A -> bool -> Prop)
      (E : string -> bool -> Prop) (p : prog A) (h : string -> prog A) :
  holds_flag flag Q (fun e fl => holds_flag fl Q E (h e)) p ->
  holds_flag flag Q E (try_catch p h).
Proof.
  revert flag. induction p as [a|e|fr k IH|k IH|b k IH|msg k IH|k IH|url q k IH];
    intros flag H; simpl in *; eauto.
  - destruct H as [Hf H]. split; [exact Hf | intros o; apply IH, H].
  - destruct H as [Hf H]. split; [exact Hf | intros o; apply IH, H].
Qed.

(** Up to its next [await] a handler keeps what [holds_flag] says. *)
Lemma run_sync_holds_flag {A} (Q : A -> bool -> Prop) (E : string -> bool -> Prop)
      (p : prog A) (s : session) :
  holds_flag (processing s) Q E p ->
  holds_flag (processing (snd (fst (run_sync p s)))) Q E (snd (run_sync p s)).
Proof.
  revert s. induction p as [a|e|fr k IH|k IH|b k IH|msg k IH|k IH|url q k IH];
    intros s H; cbn [run_sync]; try exact H.
  - specialize (IH s H). destruct (run_sync k s) as [[fs s'] p']. exact IH.
  - exact (IH (processing s) s H).
  - exact (IH (set_processing b s) H).
  - exact (IH (push msg s) H).
Qed.

(** A run is the run up to the next [await] followed by the rest. *)
Lemma exec_run_sync {A} (p : prog A) (w : backends) (s : session) :
  exec p w s
  = prepend (map Sent (fst (fst (run_sync p s))))
            (exec (snd (run_sync p s)) w (snd (fst (run_sync p s)))).
Proof.
  revert s. induction p as [a|e|fr k IH|k IH|b k IH|msg k IH|k IH|url q k IH];
    intros s; cbn [run_sync exec fst snd map]; try (symmetry; apply prepend_nil).
  - rewrite (IH s). destruct (run_sync k s) as [[fs s'] p']. reflexivity.
  - apply IH.
  - apply IH.
  - apply IH.
Qed.

(** A handler only appends to the history. *)
Lemma exec_appends {A} (p : prog A) (w : backends) (s : session) :
  exists more, messages (final (exec p w s)) = messages s ++ more.
Proof.
  revert w s. induction p as [a|e|fr k IH|k IH|b k IH|msg k IH|k IH|url q k IH];
    intros w s; cbn [exec].
  - exists []. symmetry. apply app_nil_r.
  - exists []. symmetry. apply app_nil_r.
  - apply IH.
  - apply IH.
  - apply (IH w (set_processing b s)).
  - destruct (IH w (push msg s)) as [more E]. exists (msg :: more).
    rewrite E. cbn [push messages]. rewrite <- app_assoc. reflexivity.
  - destruct (next_completion w) as [o w']. apply IH.
  - destruct (next_sql w) as [o w']. apply IH.
Qed.

Lemma correlated_prefix (h more : list message) :
  correlated (h ++ more) -> correlated h.
Proof.
  intros H before i text rest E.
  apply (H before i text (rest ++ more)). rewrite E, <- app_assoc. reflexivity.
Qed.

Section Flag.

Context {rt : Runtime}.
Variable v : variant.
Variable base : string.

Lemma steady_bind {A B} (p : prog A) (f : A -> prog B) :
  steady p -> (forall a, steady (f a)) -> steady (bind p f).
Proof.
  intros Hp Hf. apply holds_flag_bind.
  refine (holds_flag_weaken _ _ _ _ _ _ _ _ Hp).
  - intros a fl ->. apply Hf.
  - auto.
Qed.

Lemma steady_await {A} (r : settled A) : steady (await r).
Proof. destruct r; reflexivity. Qed.

Lemma steady_post_query (url q : string) : steady (post_query url q).
Proof.
  unfold post_query. apply holds_flag_try_catch.
  unfold fetch_sql. cbn [bind holds_flag]. split; [reflexivity|].
  intros [r|text]; cbn [await bind holds_flag]; [|reflexivity].
  destruct (ok r); cbn [negb bind holds_flag]; [|reflexivity].
  destruct (body_json r); reflexivity.
Qed.

Lemma steady_run_tool (toolCall : tool_call) (q : string) :
  steady (run_tool v base toolCall q).
Proof.
  unfold run_tool. apply steady_bind; [|intros; reflexivity].
  unfold callSqlApi. destruct (includes _ _); [apply steady_post_query|].
  destruct (_ || _); [apply steady_post_query | reflexivity].
Qed.

Lemma steady_tool_call_body (messageResponse : assistant_turn) (toolCall : tool_call) :
  steady (tool_call_body v base messageResponse toolCall).
Proof.
  unfold tool_call_body.
  destruct (JSON_parse (function_arguments toolCall)) as [agrs|text]; [|reflexivity].
  apply steady_bind; [destruct agrs; reflexivity|].
  intros [q|]; [|reflexivity]. destruct (truthy q); [|reflexivity].
  cbn [negb]. apply steady_bind.
  { destruct (description_cases v messageResponse (function_name toolCall) q)
      as [[d ->] | [e ->]]; reflexivity. }
  intros d. apply steady_bind; [reflexivity|]. intros _.
  destruct (_ =? _)%string.
  - apply steady_bind; [destruct q; reflexivity|]. intros text.
    destruct (negb _); [reflexivity | apply steady_run_tool].
  - destruct (_ =? _)%string; [|reflexivity].
    apply steady_bind; [destruct q; reflexivity|]. intros text.
    destruct (negb _); [reflexivity | apply steady_run_tool].
Qed.

Lemma steady_for_tool_calls (messageResponse : assistant_turn) (calls : list tool_call) :
  steady (for_tool_calls v base messageResponse calls).
Proof.
  induction calls as [|toolCall calls IH]; [reflexivity|].
  cbn [for_tool_calls]. apply steady_bind; [apply steady_tool_call_body|].
  intros [|]; [exact IH | reflexivity].
Qed.

Lemma steady_iteration_body : steady (iteration_body v base).
Proof.
  unfold iteration_body. apply steady_bind.
  - unfold completion, fetch_completion. cbn [bind holds_flag]. split; [reflexivity|].
    intros [r|text]; cbn [await bind holds_flag]; [|reflexivity].
    destruct (ok r); cbn [negb]; [apply steady_await|].
    destruct v; [reflexivity|].
    apply steady_bind; [apply steady_await | intros; reflexivity].
  - intros t. apply steady_bind; [reflexivity|]. intros _.
    destruct (tool_calls t) as [calls|]; [|reflexivity].
    destruct (length calls =? 0); [reflexivity|].
    apply steady_bind; [apply steady_for_tool_calls | intros; reflexivity].
Qed.

(** The loop keeps the flag set and does not throw. *)
Lemma while_loop_holds_flag (fuel i : nat) :
  holds_flag true (fun _ fl => fl = true) (fun _ _ => False) (while_loop v base fuel i).
Proof.
  revert i. induction fuel as [|fuel IH]; intros i; [reflexivity|].
  cbn [while_loop]. destruct (i <? maxIterations); [|reflexivity].
  apply holds_flag_bind. unfold pass. apply holds_flag_try_catch.
  refine (holds_flag_weaken _ _ _ _ _ _ _ _ steady_iteration_body).
  - intros [|] fl ->; [apply IH | reflexivity].
  - intros e fl ->. reflexivity.
Qed.

Lemma echo_holds_flag (m : json) (Q : unit -> bool -> Prop) (E : string -> bool -> Prop) :
  Q tt true -> (forall e, E e true) -> holds_flag true Q E (echo v m).
Proof.
  intros H HE. unfold echo. destruct v; [|exact H].
  destruct (template m); [exact H | apply HE].
Qed.

(** A handler started with the flag clear awaits only with the flag
    set, clears it before it returns, and does not throw. *)
Lemma on_message_holds_flag (data : string) :
  holds_flag false (fun _ fl => fl = false) (fun _ _ => False) (on_message v base data).
Proof.
  unfold on_message. apply holds_flag_try_catch.
  apply holds_flag_bind.
  assert (Hcatch : forall e fl,
             holds_flag fl (fun (_ : unit) fl' => fl' = false) (fun _ _ => False)
                        (send (Error ("Error: " +++ e)) ;; put_processing false)).
  { intros e fl. reflexivity. }
  destruct (JSON_parse data) as [value|text]; cbn [await holds_flag]; [|apply Hcatch].
  apply holds_flag_bind.
  destruct value as [ | b | x | t | items | members ];
    cbn [property holds_flag]; try reflexivity; try apply Hcatch.
  destruct (lookup "message" members) as [m|]; [|reflexivity].
  destruct (truthy m); [|reflexivity].
  cbn [negb get_processing bind holds_flag].
  unfold turn. cbn [put_processing messages_push bind holds_flag].
  apply holds_flag_bind, echo_holds_flag; [|intros e; apply Hcatch].
  apply holds_flag_bind.
  refine (holds_flag_weaken _ _ _ _ _ _ _ _ (while_loop_holds_flag maxIterations 0)).
  - intros j fl ->. destruct (maxIterations <=? j); reflexivity.
  - intros e fl [].
Qed.

End Flag.

Section Orderly.

Context {rt : Runtime}.
Variable v : variant.
Variable base : string.

(** [run_sync] stops at a return, a throw or an [await]. *)
Lemma run_sync_stops {A} (p : prog A) (s : session) :
  match snd (run_sync p s) with
  | Send _ _ => False
  | GetProcessing _ => False
  | SetProcessing _ _ => False
  | Push _ _ => False
  | _ => True
  end.
Proof.
  revert s. induction p as [a|e|fr k IH|k IH|b k IH|msg k IH|k IH|url q k IH];
    intros s; cbn [run_sync snd]; try exact I.
  - specialize (IH s). destruct (run_sync k s) as [[fs s'] p']. exact IH.
  - apply IH.
  - apply IH.
  - apply IH.
Qed.

(** A handler that starts or goes on while it is the only one leaves
    the connection tidy at its next [await] or at its return. *)
Lemma tidy_resume (p : prog unit) (s : session) (sent : list frame) :
  holds_flag (processing s) (fun _ fl => fl = false) (fun _ _ => False) p ->
  (forall w, correlated (messages (final (exec p w s)))) ->
  tidy (resume p s [] sent).
Proof.
  intros Hflag Hcorr.
  pose proof (run_sync_holds_flag _ _ p s Hflag) as Hflag'.
  pose proof (run_sync_stops p s) as Hstop.
  assert (Hcorr' : forall w, correlated (messages (final (exec (snd (run_sync p s)) w
                                                            (snd (fst (run_sync p s))))))).
  { intros w. specialize (Hcorr w). rewrite exec_run_sync in Hcorr. exact Hcorr. }
  unfold resume. destruct (run_sync p s) as [[fs s'] p']. cbn [fst snd] in *.
  destruct p' as [a|e|fr k|k|b k|msg k|k|url q k]; try contradiction;
    cbn [holds_flag] in Hflag'.
  - left. cbn [state suspended park]. split; [reflexivity|]. split; [exact Hflag'|].
    exact (Hcorr' {| completions := []; sql_results := [] |}).
  - right. exists (FetchCompletion k). cbn [state suspended park app].
    destruct Hflag' as [Hf Hk]. split; [reflexivity|]. split; [exact Hf|].
    split; [exact I|]. split; [|exact Hcorr'].
    cbn [holds_flag]. split; [reflexivity | exact Hk].
  - right. exists (FetchSql url q k). cbn [state suspended park app].
    destruct Hflag' as [Hf Hk]. split; [reflexivity|]. split; [exact Hf|].
    split; [exact I|]. split; [|exact Hcorr'].
    cbn [holds_flag]. split; [reflexivity | exact Hk].
Qed.

(** While the flag is set, a frame that parses to a value other than
    [null] is answered at once and changes nothing. *)
Lemma frame_while_processing (data : string) (value : json) (s : session) :
  JSON_parse data = Resolved value ->
  value <> JNull ->
  processing s = true ->
  exists f, run_sync (on_message v base data) s = ([f], s, Ret tt).
Proof.
  intros Hparse Hnull Hbusy. unfold on_message. rewrite Hparse.
  destruct value as [ | b | x | t | items | members ]; try contradiction;
    try (eexists; reflexivity).
  cbn [await bind try_catch property].
  destruct (lookup "message" members) as [m|]; [|eexists; reflexivity].
  destruct (truthy m); [|eexists; reflexivity].
  cbn [negb get_processing bind try_catch run_sync]. rewrite Hbusy.
  eexists. reflexivity.
Qed.

Lemma singleton_split {A} (x y : A) (before rest : list A) :
  [x] = before ++ y :: rest -> before = [] /\ rest = [] /\ x = y.
Proof.
  destruct before as [|b before]; cbn [app]; intros E.
  - injection E as -> <-. auto.
  - injection E as _ E. destruct before; discriminate E.
Qed.

(** Without a handler that ends in the outer [catch], the connection
    is tidy at every moment. *)
Lemma orderly_tidy (SYSTEM_PROMPT : string) (c : connection) :
  orderly v base SYSTEM_PROMPT c -> tidy c.
Proof.
  induction 1 as [ | c data value _ IH Hparse Hnull
                   | c before k rest o _ IH Hs
                   | c before url q k rest o _ IH Hs ].
  - left. split; [reflexivity|]. split; [reflexivity|].
    intros before i text rest E. cbn in E.
    destruct before as [|b before]; [discriminate E|]. destruct before; discriminate E.
  - destruct IH as [(Hs & Hp & Hc) | (p & Hs & Hp & Hw & Hf & Hc)].
    + rewrite Hs. apply tidy_resume.
      * rewrite Hp. apply on_message_holds_flag.
      * intros w. apply on_message_correlated. exact Hc.
    + destruct (frame_while_processing data value (state c) Hparse Hnull Hp) as [f Hrun].
      right. exists p. unfold resume. rewrite Hrun.
      cbn [state suspended park]. split; [exact Hs|]. split; [exact Hp|].
      split; [exact Hw|]. split; [exact Hf | exact Hc].
  - destruct IH as [(Hs' & _) | (p & Hs' & Hp & Hw & Hf & Hc)].
    + rewrite Hs' in Hs. destruct before; discriminate Hs.
    + rewrite Hs' in Hs. apply singleton_split in Hs. destruct Hs as (-> & -> & ->).
      cbn [app]. apply tidy_resume.
      * rewrite Hp. cbn [holds_flag] in Hf. apply Hf.
      * intros [cs ss].
        specialize (Hc {| completions := o :: cs; sql_results := ss |}).
        exact Hc.
  - destruct IH as [(Hs' & _) | (p & Hs' & Hp & Hw & Hf & Hc)].
    + rewrite Hs' in Hs. destruct before; discriminate Hs.
    + rewrite Hs' in Hs. apply singleton_split in Hs. destruct Hs as (-> & -> & ->).
      cbn [app]. apply tidy_resume.
      * rewrite Hp. cbn [holds_flag] in Hf. apply Hf.
      * intros [cs ss].
        specialize (Hc {| completions := cs; sql_results := o :: ss |}).
        exact Hc.
Qed.

(** Orderly connections are reachable ones. *)
Lemma orderly_reachable (SYSTEM_PROMPT : string) (c : connection) :
  orderly v base SYSTEM_PROMPT c -> reachable v base SYSTEM_PROMPT c.
Proof.
  induction 1 as [ | c data value _ IH _ _
                   | c before k rest o _ IH Hs
                   | c before url q k rest o _ IH Hs ].
  - apply reachable_accepted.
  - eapply reachable_step; [exact IH | apply message_arrives].
  - eapply reachable_step; [exact IH|].
    exact (completion_settles v base c before k rest o Hs).
  - eapply reachable_step; [exact IH|].
    exact (sql_settles v base c before url q k rest o Hs).
Qed.


End Orderly.

(** ** Tool messages and their assistant turn *)

(** If a list ends with an assistant message, a batch that reaches to
    its end is empty and belongs to that message. *)
Lemma batch_at_end (earlier before batch : list message) (t t' : assistant_turn) :
  before ++ [assistant_message t'] = earlier ++ assistant_message t :: batch ->
  Forall (tool_result_of t) batch ->
  batch = [] /\ t = t'.
Proof.
  intros E Hall. destruct (exists_last (l := assistant_message t :: batch))
    as (front & x & Hx); [discriminate|].
  rewrite Hx, app_assoc in E. apply app_inj_tail in E. destruct E as [_ <-].
  destruct batch as [|b batch].
  - destruct front; [|destruct front; discriminate Hx].
    injection Hx as ->. split; reflexivity.
  - exfalso.
    assert (Hin : In (assistant_message t') (b :: batch)).
    { destruct front as [|f front].
      - discriminate Hx.
      - injection Hx as _ ->. apply in_or_app. right. left. reflexivity. }
    rewrite Forall_forall in Hall. destruct (Hall _ Hin) as (i & text & E & _).
    discriminate E.
Qed.

Section Race.

#[local] Existing Instance Sample.runtime.

(** C8 at the failing input.  While the turn of message "a" waits for
    its completion, a frame that is not JSON arrives: the outer [catch]
    clears the flag of the running turn.  The frame of message "b" is
    then accepted and a second loop runs on the same history.  The
    assistant turn of "a" asks for a tool; the answer to "b" is appended
    while that tool call is awaited; the tool message of "a" is appended
    behind the assistant message of "b", which carries no tool call. *)
Theorem stray_flag_reset_misplaces_tool_message :
  exists c,
    reachable index_js "" "prompt" c /\
    messages (state c)
    = [system_message "prompt";
       user_message (JStr "a");
       user_message (JStr "b");
       assistant_message (Sample.asks [Sample.select_call "call_1"]);
       assistant_message (Sample.answers "Done.");
       tool_message "call_1" (JSON_stringify (JObj [("rows", JArr [])]))] /\
    ~ correlated (messages (state c)).
Proof.
  eexists. split.
  { eapply reachable_step.
    { eapply reachable_step.
      { eapply reachable_step.
        { eapply reachable_step.
          { eapply reachable_step.
            { eapply reachable_step.
              { apply reachable_accepted. }
              apply (message_arrives index_js "" _
                       (Sample.object_text "message" (Sample.quoted "a"))). }
            apply (message_arrives index_js "" _ "SELECT * FROM packages"). }
          apply (message_arrives index_js "" _
                   (Sample.object_text "message" (Sample.quoted "b"))). }
        (* the completion of "a" settles: its assistant turn asks for a tool *)
        eapply (completion_settles index_js "" _ [] _ _
                  (Sample.respond (Sample.asks [Sample.select_call "call_1"]))).
        reflexivity. }
      (* the completion of "b" settles: a plain answer *)
      eapply (completion_settles index_js "" _ [] _ _
                (Sample.respond (Sample.answers "Done."))).
      reflexivity. }
    (* the tool call of "a" settles *)
    eapply (sql_settles index_js "" _ [] _ _ _ _ Sample.rows).
    reflexivity. }
  split; [reflexivity|].
  intros H.
  destruct (H [system_message "prompt"; user_message (JStr "a"); user_message (JStr "b");
               assistant_message (Sample.asks [Sample.select_call "call_1"]);
               assistant_message (Sample.answers "Done.")]
              "call_1" (JSON_stringify (JObj [("rows", JArr [])])) [] eq_refl)
    as (earlier & t & batch & E & Hin & Hall).
  destruct (batch_at_end earlier
              [system_message "prompt"; user_message (JStr "a"); user_message (JStr "b");
               assistant_message (Sample.asks [Sample.select_call "call_1"])]
              batch t (Sample.answers "Done.") E Hall) as [_ ->].
  exact Hin.
Qed.

End Race.

(** ** Further runs *)

Section Scenarios.

#[local] Existing Instance Sample.runtime.

(** The falsy values a [message] field can hold. *)
Example falsy_message_values :
  truthy (JStr "") = false /\ truthy JNull = false /\
  truthy (JNum (Sample.number 0)) = false /\ truthy (JBool false) = false.
Proof. repeat split. Qed.

(** A frame that is the JSON text [null]: reading [data.message]
    throws, and the outer [catch] answers. *)
Example null_frame_is_caught :
  run_sync (on_message index_js "" "null") Sample.idle
  = ([Error "Error: Cannot read properties of null (reading 'message')"],
     Sample.idle, Ret tt).
Proof. reflexivity. Qed.

(** A message while a turn is running: the first frame leaves its
    handler suspended at the completion request with the flag set; the
    second frame is answered at once and changes nothing else. *)
Example second_message_while_processing :
  let c1 := resume (on_message index_js ""
                      (Sample.object_text "message" (Sample.quoted "a")))
                   (state (accepted "prompt")) [] [] in
  let c2 := resume (on_message index_js ""
                      (Sample.object_text "message" (Sample.quoted "b")))
                   (state c1) (suspended c1) (outbox c1) in
  reachable index_js "" "prompt" c2 /\
  processing (state c1) = true /\
  length (suspended c1) = 1 /\
  state c2 = state c1 /\
  suspended c2 = suspended c1 /\
  outbox c2 = outbox c1 ++ [Error "Processing previous message, please wait."].
Proof.
  cbv zeta. split; [|repeat split].
  eapply reachable_step; [|apply message_arrives].
  eapply reachable_step; [|apply (message_arrives index_js "" (accepted "prompt"))].
  apply reachable_accepted.
Qed.

(** A transport fault of the first completion request. *)
Example transport_fault_ends_turn :
  let r := exec (on_message index_js "" (Sample.object_text "message" (Sample.quoted "a")))
                Sample.offline Sample.idle in
  frames (events r) = [Progress "You: a"; Error "DeepSeek API error: fetch failed"] /\
  round_trips (events r) = 1 /\
  processing (final r) = false.
Proof. repeat split. Qed.

(** Arguments that parse to [null]: reading [agrs.query] throws inside
    the [try] of the loop, and the turn ends in the [catch] of the
    completion call after one round-trip. *)
Example null_arguments_end_turn :
  let r := exec (on_message index_js "" (Sample.object_text "message" (Sample.quoted "a")))
                Sample.null_arguments Sample.idle in
  frames (events r)
  = [Progress "You: a";
     Error "DeepSeek API error: Cannot read properties of null (reading 'query')"] /\
  round_trips (events r) = 1 /\
  processing (final r) = false.
Proof. repeat split. Qed.

(** A mutation that contains SELECT passes the policy of
    [run_sql_mutation] and is then posted to the read endpoint. *)
Example mutation_with_select_is_posted_to_read_endpoint :
  let r := exec (on_message index_js "" (Sample.object_text "message" (Sample.quoted "a")))
                Sample.insert_select Sample.idle in
  sql_posts (events r)
  = [(query_url index_js "", "INSERT INTO a SELECT * FROM b")] /\
  frames (events r)
  = [Progress "You: a"; Progress "Updating data..."; Response (Text "Done.")].
Proof. repeat split. Qed.

End Scenarios.

(** * Further properties *)

(** ** Conversation ids *)

Lemma toString16_digit (r : nat) :
  r < 16 -> exists c, Uuid.toString16 r = String c "" /\ Uuid.is_hex c = true.
Proof.
  intros H. do 16 (destruct r as [|r]; [eexists; split; reflexivity|]). lia.
Qed.

Lemma toString16_inj (r r' : nat) :
  r < 16 -> r' < 16 -> Uuid.toString16 r = Uuid.toString16 r' -> r = r'.
Proof.
  intros H H' E.
  do 16 (destruct r as [|r];
         [do 16 (destruct r' as [|r']; [reflexivity || discriminate E|]); lia|]).
  lia.
Qed.

Lemma replacement_x (r : nat) :
  r < 16 -> exists c, Uuid.replacement "x" r = String c "" /\ Uuid.is_hex c = true.
Proof. apply toString16_digit. Qed.

Lemma replacement_y (r : nat) :
  r < 16 ->
  exists c, Uuid.replacement "y" r = String c "" /\ Uuid.is_variant c = true.
Proof.
  intros H.
  do 16 (destruct r as [|r]; [vm_compute; eexists; split; reflexivity|]). lia.
Qed.

(** Every conversation id has the textual form of a version 4 UUID,
    whatever [Math.random] returns. *)
Theorem generateUuid_is_uuid_v4 (random : nat -> nat) :
  (forall i, random i < 16) ->
  Uuid.uuid_v4 (Uuid.generateUuid random) = true.
Proof.
  intros H. unfold Uuid.uuid_v4, Uuid.generateUuid.
  cbn -[Uuid.replacement Uuid.shaped].
  repeat match goal with
         | |- context [Uuid.replacement "x" (random ?i)] =>
             let c := fresh "c" in
             let E := fresh "E" in
             let K := fresh "K" in
             destruct (replacement_x (random i) (H i)) as (c & E & K);
             rewrite E; clear E
         end.
  destruct (replacement_y (random 15) (H 15)) as (y & E & Ky). rewrite E. clear E.
  cbn -[Uuid.is_hex Uuid.is_variant].
  repeat match goal with
         | K : Uuid.is_hex _ = true |- _ => rewrite K; clear K
         end.
  rewrite Ky. reflexivity.
Qed.

Lemma generateUuid_is_uuid_v4_witness :
  Uuid.uuid_v4 (Uuid.generateUuid (fun i => Nat.modulo (7 * i + 3) 16)) = true.
Proof.
  apply generateUuid_is_uuid_v4. intros i. apply Nat.mod_upper_bound. discriminate.
Defined.

Lemma replacement_x_inj (r r' : nat) :
  r < 16 -> r' < 16 ->
  Uuid.replacement "x" r = Uuid.replacement "x" r' ->
  r = r'.
Proof. exact (toString16_inj r r'). Qed.

Lemma replacement_y_inj (r r' : nat) :
  r < 16 -> r' < 16 ->
  Uuid.replacement "y" r = Uuid.replacement "y" r' ->
  Nat.land r 3 = Nat.land r' 3.
Proof.
  intros H H' E.
  do 16 (destruct r as [|r];
         [do 16 (destruct r' as [|r'];
                 [vm_compute in E |- *; reflexivity || discriminate E|]); lia|]).
  lia.
Qed.

(** Equal results of the replacement come from draws that were replaced
    alike, match by match. *)
Lemma replace_xy_agree (template : string) (random random' : nat -> nat) :
  (forall k, random k < 16) ->
  (forall k, random' k < 16) ->
  forall i,
    Uuid.replace_xy template random i = Uuid.replace_xy template random' i ->
    Uuid.agree template random random' i.
Proof.
  intros H H'. induction template as [|c template IH]; intros i E; cbn in *.
  - exact I.
  - destruct (Ascii.eqb c "x" || Ascii.eqb c "y") eqn:Hc.
    + assert (Hone : forall r, r < 16 -> exists d, Uuid.replacement c r = String d "").
      { intros r Hr. apply orb_true_iff in Hc. destruct Hc as [Hc | Hc];
          apply Ascii.eqb_eq in Hc; subst c.
        - destruct (replacement_x r Hr) as (d & -> & _). eauto.
        - destruct (replacement_y r Hr) as (d & -> & _). eauto. }
      destruct (Hone (random i) (H i)) as [d Ed].
      destruct (Hone (random' i) (H' i)) as [d' Ed'].
      rewrite Ed, Ed' in *. cbn in E. injection E as -> E.
      split; [reflexivity | apply IH, E].
    + injection E as E. apply IH, E.
Qed.

Lemma generateUuid_agree (random random' : nat -> nat) :
  (forall k, random k < 16) ->
  (forall k, random' k < 16) ->
  Uuid.generateUuid random = Uuid.generateUuid random' ->
  Uuid.agree "xxxxxxxx-xxxx-4xxx-yxxx-xxxxxxxxxxxx" random random' 0.
Proof.
  intros H H'.
  exact (replace_xy_agree "xxxxxxxx-xxxx-4xxx-yxxx-xxxxxxxxxxxx"
                          random random' H H' 0).
Qed.

(** The id keeps all the randomness it was made from: two ids are equal
    only if the thirty draws behind the [x] places are equal and the
    draw behind the [y] place agrees in its two low bits. *)
Theorem generateUuid_injective (random random' : nat -> nat) :
  (forall k, random k < 16) ->
  (forall k, random' k < 16) ->
  Uuid.generateUuid random = Uuid.generateUuid random' ->
  forall i,
    i < 31 ->
    (i <> 15 -> random i = random' i) /\
    (i = 15 -> Nat.land (random i) 3 = Nat.land (random' i) 3).
Proof.
  intros H H' E i Hi.
  pose proof (generateUuid_agree random random' H H' E) as A. clear E.
  cbn [Uuid.agree orb Ascii.eqb Bool.eqb] in A.
  repeat match type of A with
         | _ /\ _ => let K := fresh "K" in destruct A as [K A]
         end.
  do 31 (destruct i as [|i];
         [split; intros Hc;
          [first [exfalso; apply Hc; reflexivity
                 |apply replacement_x_inj; [apply H | apply H' | assumption]]
          |first [discriminate Hc
                 |apply replacement_y_inj; [apply H | apply H' | assumption]]]
         |]).
  lia.
Qed.

Lemma generateUuid_injective_witness :
  let random := fun i => Nat.modulo (7 * i + 3) 16 in
  let random' := fun i => if Nat.eqb i 15 then 4 else Nat.modulo (7 * i + 3) 16 in
  Uuid.generateUuid random = Uuid.generateUuid random' /\
  random 15 <> random' 15 /\
  ((30 <> 15 -> random 30 = random' 30) /\
   (30 = 15 -> Nat.land (random 30) 3 = Nat.land (random' 30) 3)) /\
  ((15 <> 15 -> random 15 = random' 15) /\
   (15 = 15 -> Nat.land (random 15) 3 = Nat.land (random' 15) 3)).
Proof.
  cbv zeta.
  assert (H : forall k, Nat.modulo (7 * k + 3) 16 < 16).
  { intros k. apply Nat.mod_upper_bound. discriminate. }
  assert (H' : forall k, (if Nat.eqb k 15 then 4 else Nat.modulo (7 * k + 3) 16) < 16).
  { intros k. destruct (Nat.eqb k 15); [repeat constructor | apply H]. }
  assert (E : Uuid.generateUuid (fun i => Nat.modulo (7 * i + 3) 16)
              = Uuid.generateUuid
                  (fun i => if Nat.eqb i 15 then 4 else Nat.modulo (7 * i + 3) 16)).
  { vm_compute. reflexivity. }
  split; [exact E|].
  split; [vm_compute; discriminate|].
  split.
  - apply (generateUuid_injective _ _ H H' E 30). repeat constructor.
  - apply (generateUuid_injective _ _ H H' E 15). repeat constructor.
Defined.

(** ** The data-access call *)

Section DataAccess.

Context {rt : Runtime}.
Variable v : variant.
Variable base : string.

Lemma next_sql_completions (w : backends) :
  completions (snd (next_sql w)) = completions w.
Proof. unfold next_sql. destruct (sql_results w); reflexivity. Qed.

(** [callSqlApi] never throws and makes at most one POST: whatever the
    data-access backend does, the call returns a value, sends no frame,
    makes no completion request and leaves the session alone. *)
Theorem callSqlApi_never_throws (q : string) (w : backends) (s : session) :
  (exists value, result (exec (callSqlApi v base q) w s) = Resolved value) /\
  final (exec (callSqlApi v base q) w s) = s /\
  frames (events (exec (callSqlApi v base q) w s)) = [] /\
  round_trips (events (exec (callSqlApi v base q) w s)) = 0 /\
  length (sql_posts (events (exec (callSqlApi v base q) w s))) <= 1 /\
  completions (remaining (exec (callSqlApi v base q) w s)) = completions w.
Proof.
  unfold callSqlApi.
  destruct (includes (toUpperCase q) "SELECT");
    [|destruct (includes (toUpperCase q) "INSERT"
                || includes (toUpperCase q) "UPDATE"
                || includes (toUpperCase q) "DELETE")];
    rewrite ?exec_post_query; cbn;
    repeat split; eauto using next_sql_completions.
Qed.

(** What the POST of [callSqlApi] settles to decides the value
    returned: the body of a 2xx response as it is; for a transport
    fault, a status outside 200-299 or a body that is not JSON, the
    object [{error: "API call error: ..."}] with the text of the error.
    The one POST carries the query as it was given. *)
Theorem callSqlApi_folds_failures
        (q : string) (o : settled (http_response json))
        (cs : list (settled (http_response assistant_turn)))
        (ss : list (settled (http_response json))) (s : session) :
  contains_ci q "SELECT" \/ contains_ci q "INSERT" \/
  contains_ci q "UPDATE" \/ contains_ci q "DELETE" ->
  let r := exec (callSqlApi v base q) {| completions := cs; sql_results := o :: ss |} s in
  (exists url, events r = [SqlPost url q o]) /\
  sql_results (remaining r) = ss /\
  (forall response data,
      o = Resolved response -> ok response = true ->
      body_json response = Resolved data ->
      result r = Resolved data) /\
  (forall text,
      o = Rejected text ->
      result r = Resolved (error_value ("API call error: " +++ text))) /\
  (forall response,
      o = Resolved response -> ok response = false ->
      result r = Resolved (error_value ("API call error: HTTP error "
                                        +++ decimal (status response)))) /\
  (forall response text,
      o = Resolved response -> ok response = true ->
      body_json response = Rejected text ->
      result r = Resolved (error_value ("API call error: " +++ text))).
Proof.
  intros Hkw. cbv zeta.
  assert (E : exists url,
             exec (callSqlApi v base q) {| completions := cs; sql_results := o :: ss |} s
             = {| events := [SqlPost url q o]; final := s;
                  remaining := {| completions := cs; sql_results := ss |};
                  result := Resolved (sql_value o) |}).
  { unfold callSqlApi.
    destruct (includes (toUpperCase q) "SELECT") eqn:HS.
    - exists (query_url v base). apply exec_post_query.
    - assert (Hm : includes (toUpperCase q) "INSERT"
                   || includes (toUpperCase q) "UPDATE"
                   || includes (toUpperCase q) "DELETE" = true).
      { destruct Hkw as [H | [H | [H | H]]].
        - apply (includes_true "SELECT" q keyword_SELECT) in H. congruence.
        - rewrite (includes_true "INSERT" q keyword_INSERT H). reflexivity.
        - rewrite (includes_true "UPDATE" q keyword_UPDATE H). apply orb_true_iff.
          left. apply orb_true_r.
        - rewrite (includes_true "DELETE" q keyword_DELETE H). apply orb_true_r. }
      rewrite Hm. exists (mutate_url v base). apply exec_post_query. }
  destruct E as [url E]. rewrite E. cbn.
  split; [eauto|]. split; [reflexivity|].
  split; [|split; [|split]].
  - intros response data -> Hok Hbody. cbn. rewrite Hok, Hbody. reflexivity.
  - intros text ->. reflexivity.
  - intros response -> Hok. cbn. rewrite Hok. reflexivity.
  - intros response text -> Hok Hbody. cbn. rewrite Hok, Hbody. reflexivity.
Qed.

End DataAccess.

Section DataAccessExamples.

#[local] Existing Instance Sample.runtime.

Lemma callSqlApi_folds_failures_witness :
  result (exec (callSqlApi index_js "" "select 1")
               {| completions := []; sql_results := [Sample.refuse 503] |} Sample.idle)
  = Resolved (error_value ("API call error: HTTP error " +++ decimal 503)) /\
  result (exec (callSqlApi index_js "" "delete from t")
               {| completions := []; sql_results := [Sample.rows] |} Sample.idle)
  = Resolved (JObj [("rows", JArr [])]).
Proof.
  split.
  - destruct (callSqlApi_folds_failures index_js "" "select 1" (Sample.refuse 503)
                [] [] Sample.idle) as (_ & _ & _ & _ & H & _).
    + left. apply (includes_toUpperCase "SELECT" keyword_SELECT). reflexivity.
    + apply (H {| status := 503; body_text := Resolved "";
                  body_json := Rejected "Unexpected end of JSON input" |});
        reflexivity.
  - destruct (callSqlApi_folds_failures index_js "" "delete from t" Sample.rows
                [] [] Sample.idle) as (_ & _ & H & _).
    + right. right. right.
      apply (includes_toUpperCase "DELETE" keyword_DELETE). reflexivity.
    + apply (H {| status := 200; body_text := Resolved "";
                  body_json := Resolved (JObj [("rows", JArr [])]) |});
        reflexivity.
Defined.

End DataAccessExamples.

(** ** More of the dispatcher *)

Section DispatcherBranches.

Context {rt : Runtime}.
Variable v : variant.
Variable base : string.

(** A [run_sql_mutation] call whose query is a string that mentions
    INSERT, UPDATE or DELETE is always dispatched: progress frame, one
    POST, one tool message with the id of the call.  The POST goes to
    the write endpoint only if the query does not also mention SELECT;
    otherwise the router sends it to the read endpoint. *)
Theorem mutation_call_dispatched
        (messageResponse : assistant_turn) (toolCall : tool_call)
        (arguments : list (string * json)) (q : string)
        (w : backends) (s : session) :
  function_name toolCall = "run_sql_mutation" ->
  JSON_parse (function_arguments toolCall) = Resolved (JObj arguments) ->
  lookup "query" arguments = Some (JStr q) ->
  mentions q "INSERT" \/ mentions q "UPDATE" \/ mentions q "DELETE" ->
  exists url,
    exec (tool_call_body v base messageResponse toolCall) w s
    = dispatched_run (description_text v messageResponse "run_sql_mutation" q)
                     url q toolCall w s /\
    (mentions q "SELECT" -> url = query_url v base) /\
    (~ mentions q "SELECT" -> url = mutate_url v base).
Proof.
  unfold mentions. intros Hname Hargs Hquery Hkw.
  assert (Hop : existsb (fun op => includes (toUpperCase q) op)
                        ["INSERT"; "UPDATE"; "DELETE"] = true).
  { cbn [existsb]. destruct Hkw as [-> | [-> | ->]];
      rewrite ?orb_true_r; reflexivity. }
  assert (Hq : (q =? "")%string = false).
  { destruct Hkw as [H | [H | H]]; exact (mentions_nonempty q _ _ H). }
  exists (if includes (toUpperCase q) "SELECT" then query_url v base else mutate_url v base).
  split; [|split].
  - unfold tool_call_body. rewrite Hargs, Hname.
    cbn [property bind]. rewrite Hquery. cbn [truthy]. rewrite Hq.
    cbn [negb]. rewrite description_string.
    cbn [send bind String.eqb Ascii.eqb Bool.eqb receiver exec].
    rewrite Hop. cbn [negb]. unfold run_tool, callSqlApi.
    cbn [existsb] in Hop. rewrite orb_false_r in Hop.
    destruct (includes (toUpperCase q) "SELECT").
    + unfold after. rewrite exec_bind, exec_post_query. reflexivity.
    + rewrite <- !orb_assoc. rewrite Hop.
      unfold after. rewrite exec_bind, exec_post_query. reflexivity.
  - intros ->. reflexivity.
  - intros H. rewrite (not_true_is_false _ H). reflexivity.
Qed.

(** A tool call with a name other than the two tools, once its
    description is computed, is turned down after its progress frame,
    with the name in the error frame; nothing is posted and nothing is
    appended.  The query is not inspected: any truthy value will do.
    When the description cannot be computed (in the deployment variant,
    a query that does not convert to a string, under an assistant turn
    whose content is falsy: the empty string, [null] or no field), the
    error leaves the dispatcher before any frame. *)
Theorem unknown_function_rejected
        (messageResponse : assistant_turn) (toolCall : tool_call)
        (arguments : list (string * json)) (q : json)
        (w : backends) (s : session) :
  function_name toolCall <> "run_sql_query" ->
  function_name toolCall <> "run_sql_mutation" ->
  JSON_parse (function_arguments toolCall) = Resolved (JObj arguments) ->
  lookup "query" arguments = Some q ->
  truthy q = true ->
  (forall d,
      description v messageResponse (function_name toolCall) q = Ret d ->
      exec (tool_call_body v base messageResponse toolCall) w s
      = refused_run [Progress d; Error ("Unknown function: " +++ function_name toolCall)]
                    (Resolved Break) w s) /\
  (forall e,
      description v messageResponse (function_name toolCall) q = Throw e ->
      exec (tool_call_body v base messageResponse toolCall) w s
      = refused_run [] (Rejected e) w s) /\
  ((forall text, content messageResponse = Text text -> text = "") ->
   description v messageResponse (function_name toolCall) q
   = match v with
     | index_js => Ret "Updating data..."
     | part_000 =>
         match template q with
         | Resolved text => Ret ("Updating data...[" +++ text +++ "]")
         | Rejected e => Throw e
         end
     end).
Proof.
  intros Hquery Hmutation Hargs Hq Htruthy.
  apply String.eqb_neq in Hquery. apply String.eqb_neq in Hmutation.
  assert (E : tool_call_body v base messageResponse toolCall
              = (d <- description v messageResponse (function_name toolCall) q ;;
                 send (Progress d) ;;
                 send (Error ("Unknown function: " +++ function_name toolCall)) ;;
                 Ret Break)).
  { unfold tool_call_body. rewrite Hargs. cbn [property bind]. rewrite Hq, Htruthy.
    cbn [negb]. rewrite Hquery, Hmutation. reflexivity. }
  split; [|split].
  - intros d Hd. rewrite E, Hd. reflexivity.
  - intros e He. rewrite E, He. reflexivity.
  - intros Hcontent. unfold description, synthesized, synthesized_text.
    rewrite Hquery.
    destruct (content messageResponse) as [text| |];
      [rewrite (Hcontent text eq_refl); cbn [String.eqb negb]| |];
      (destruct v; [reflexivity|]); destruct (template q); reflexivity.
Qed.

(** Arguments that parse to a value other than [null] without a truthy
    [query] (no such field, or [null], [0], [false], the empty string
    there; or arguments that are no object at all) are answered by the
    missing-query frame alone, before any progress frame. *)
Theorem missing_query_rejected
        (messageResponse : assistant_turn) (toolCall : tool_call) (agrs : json)
        (w : backends) (s : session) :
  JSON_parse (function_arguments toolCall) = Resolved agrs ->
  agrs <> JNull ->
  truthy_opt match agrs with
             | JObj members => lookup "query" members
             | _ => None
             end = false ->
  exec (tool_call_body v base messageResponse toolCall) w s
  = refused_run [Error "Missing query parameter."] (Resolved Break) w s.
Proof.
  intros Hargs Hnull Hq. unfold tool_call_body. rewrite Hargs.
  destruct agrs as [ | b | x | t | items | members ]; try reflexivity.
  - contradiction.
  - cbn [property bind]. destruct (lookup "query" members) as [q|]; [|reflexivity].
    cbn [truthy_opt] in Hq. rewrite Hq. reflexivity.
Qed.

End DispatcherBranches.

Section DispatcherBranchesExamples.

#[local] Existing Instance Sample.runtime.

Lemma mutation_call_dispatched_witness :
  let toolCall := Sample.call "call_1" "run_sql_mutation"
                    (Sample.quoted "INSERT INTO a SELECT * FROM b") in
  exists url,
    exec (tool_call_body part_000 "https://sql.example/" (Sample.asks [toolCall]) toolCall)
         Sample.insert_select Sample.idle
    = dispatched_run
        (description_text part_000 (Sample.asks [toolCall]) "run_sql_mutation"
                          "INSERT INTO a SELECT * FROM b")
        url "INSERT INTO a SELECT * FROM b" toolCall
        Sample.insert_select Sample.idle /\
    url = "https://sql.example/api/sql/query".
Proof.
  cbv zeta.
  destruct (mutation_call_dispatched part_000 "https://sql.example/"
              (Sample.asks [Sample.call "call_1" "run_sql_mutation"
                              (Sample.quoted "INSERT INTO a SELECT * FROM b")])
              (Sample.call "call_1" "run_sql_mutation"
                 (Sample.quoted "INSERT INTO a SELECT * FROM b"))
              [("query", JStr "INSERT INTO a SELECT * FROM b")]
              "INSERT INTO a SELECT * FROM b"
              Sample.insert_select Sample.idle) as (url & E & Hread & _).
  - reflexivity.
  - reflexivity.
  - reflexivity.
  - left. reflexivity.
  - exists url. split; [exact E|]. apply Hread. reflexivity.
Defined.

Lemma unknown_function_rejected_witness :
  let toolCall := Sample.call "call_1" "drop_database" "5" in
  let stubborn := Sample.call "call_2" "drop_database"
                    (Sample.object_text "toString" "1") in
  exec (tool_call_body part_000 "https://sql.example/" (Sample.asks [toolCall]) toolCall)
       Sample.nominal Sample.idle
  = refused_run [Progress "Updating data...[5]"; Error "Unknown function: drop_database"]
                (Resolved Break) Sample.nominal Sample.idle /\
  exec (tool_call_body part_000 "https://sql.example/" (Sample.asks [stubborn]) stubborn)
       Sample.nominal Sample.idle
  = refused_run [] (Rejected Sample.cannot_convert) Sample.nominal Sample.idle.
Proof.
  cbv zeta. split.
  - refine (proj1 (unknown_function_rejected part_000 "https://sql.example/"
                     (Sample.asks [Sample.call "call_1" "drop_database" "5"])
                     (Sample.call "call_1" "drop_database" "5")
                     [("query", JNum (Sample.number 5))] (JNum (Sample.number 5))
                     Sample.nominal Sample.idle _ _ _ _ _)
                  "Updating data...[5]" _).
    + discriminate.
    + discriminate.
    + reflexivity.
    + reflexivity.
    + reflexivity.
    + reflexivity.
  - refine (proj1 (proj2 (unknown_function_rejected part_000 "https://sql.example/"
                     (Sample.asks [Sample.call "call_2" "drop_database"
                                     (Sample.object_text "toString" "1")])
                     (Sample.call "call_2" "drop_database"
                        (Sample.object_text "toString" "1"))
                     [("query", JObj [("toString", JNum (Sample.number 1))])]
                     (JObj [("toString", JNum (Sample.number 1))])
                     Sample.nominal Sample.idle _ _ _ _ _))
                  Sample.cannot_convert _).
    + discriminate.
    + discriminate.
    + reflexivity.
    + reflexivity.
    + reflexivity.
    + reflexivity.
Defined.

Lemma missing_query_rejected_witness :
  exec (tool_call_body index_js "" (Sample.asks [Sample.no_query_call])
                       Sample.no_query_call)
       Sample.nominal Sample.idle
  = refused_run [Error "Missing query parameter."] (Resolved Break)
                Sample.nominal Sample.idle.
Proof.
  apply (missing_query_rejected index_js "" (Sample.asks [Sample.no_query_call])
           Sample.no_query_call (JObj [])).
  - reflexivity.
  - discriminate.
  - reflexivity.
Defined.

End DispatcherBranchesExamples.

(** ** Frames and POSTs on every path *)

Lemma every_weaken {A} (F F' : frame -> Prop) (P P' : string -> string -> Prop)
      (p : prog A) :
  (forall f, F f -> F' f) ->
  (forall url q, P url q -> P' url q) ->
  every F P p -> every F' P' p.
Proof.
  intros HF HP.
  induction p as [a|e|fr k IH|k IH|b k IH|msg k IH|k IH|url q k IH];
    simpl; intuition auto.
Qed.

Lemma every_bind {A B} (F : frame -> Prop) (P : string -> string -> Prop)
      (p : prog A) (f : A -> prog B) :
  every F P p -> (forall a, every F P (f a)) -> every F P (bind p f).
Proof.
  intros H Hf.
  induction p as [a|e|fr k IH|k IH|b k IH|msg k IH|k IH|url q k IH];
    simpl in *; intuition auto.
Qed.

Lemma every_try_catch {A} (F : frame -> Prop) (P : string -> string -> Prop)
      (p : prog A) (h : string -> prog A) :
  every F P p -> (forall e, every F P (h e)) -> every F P (try_catch p h).
Proof.
  intros H Hh.
  induction p as [a|e|fr k IH|k IH|b k IH|msg k IH|k IH|url q k IH];
    simpl in *; intuition auto.
Qed.

(** What holds on every path holds of every run. *)
Lemma every_exec {A} (F : frame -> Prop) (P : string -> string -> Prop)
      (p : prog A) (w : backends) (s : session) :
  every F P p ->
  Forall F (frames (events (exec p w s))) /\
  Forall (fun post => P (fst post) (snd post)) (sql_posts (events (exec p w s))).
Proof.
  revert w s.
  induction p as [a|e|fr k IH|k IH|b k IH|msg k IH|k IH|url q k IH];
    intros w s H; simpl in *.
  - split; constructor.
  - split; constructor.
  - destruct H as [Hf H]. destruct (IH w s H) as [IH1 IH2].
    split; [constructor; assumption | assumption].
  - apply IH, H.
  - apply IH, H.
  - apply IH, H.
  - destruct (next_completion w) as [o w']. apply (IH o w' s (H o)).
  - destruct (next_sql w) as [o w']. destruct H as [Hp H].
    destruct (IH o w' s (H o)) as [IH1 IH2].
    split; [assumption | constructor; assumption].
Qed.

Section Paths.

Context {rt : Runtime}.
Variable v : variant.
Variable base : string.

Lemma every_await {A} (F : frame -> Prop) (P : string -> string -> Prop)
      (r : settled A) : every F P (await r).
Proof. destruct r; exact I. Qed.

Lemma every_post_query (F : frame -> Prop) (P : string -> string -> Prop)
      (url q : string) :
  P url q -> every F P (post_query url q).
Proof.
  intros H. unfold post_query, fetch_sql. simpl. split; [exact H|].
  intros [r|text]; simpl; [|exact I].
  destruct (ok r); simpl; [|exact I]. destruct (body_json r); exact I.
Qed.

(** The router posts a query where it belongs, or not at all. *)
Lemma every_callSqlApi (F : frame -> Prop) (q : string) :
  every F (routed v base) (callSqlApi v base q).
Proof.
  unfold callSqlApi.
  destruct (includes (toUpperCase q) "SELECT") eqn:HS.
  - apply every_post_query. left. split; [reflexivity | exact HS].
  - assert (Hno : ~ mentions q "SELECT").
    { unfold mentions. rewrite HS. discriminate. }
    destruct (includes (toUpperCase q) "INSERT") eqn:HI;
      [|destruct (includes (toUpperCase q) "UPDATE") eqn:HU;
        [|destruct (includes (toUpperCase q) "DELETE") eqn:HD]];
      cbn [orb]; try exact I;
      apply every_post_query; right;
      (split; [reflexivity|]); (split; [exact Hno|]); unfold mentions; auto.
Qed.

Lemma every_run_tool (F : frame -> Prop) (toolCall : tool_call) (q : string) :
  every F (routed v base) (run_tool v base toolCall q).
Proof.
  unfold run_tool. apply every_bind; [apply every_callSqlApi | intros; exact I].
Qed.

(** The dispatcher sends progress and error frames only. *)
Lemma every_tool_call_body (messageResponse : assistant_turn) (toolCall : tool_call) :
  every not_response (routed v base) (tool_call_body v base messageResponse toolCall).
Proof.
  unfold tool_call_body.
  destruct (JSON_parse (function_arguments toolCall)) as [agrs|text];
    [|simpl; auto].
  apply every_bind; [destruct agrs; exact I|].
  intros [q|]; [|simpl; auto]. destruct (truthy q); [|simpl; auto].
  cbn [negb]. apply every_bind.
  { destruct (description_cases v messageResponse (function_name toolCall) q)
      as [[d ->] | [e ->]]; exact I. }
  intros d. cbn [send bind every]. split; [exact I|].
  destruct (_ =? _)%string.
  - apply every_bind; [destruct q; exact I|]. intros text.
    destruct (negb _); [simpl; auto | apply every_run_tool].
  - destruct (_ =? _)%string; [|simpl; auto].
    apply every_bind; [destruct q; exact I|]. intros text.
    destruct (negb _); [simpl; auto | apply every_run_tool].
Qed.

Lemma every_for_tool_calls (messageResponse : assistant_turn) (calls : list tool_call) :
  every not_response (routed v base) (for_tool_calls v base messageResponse calls).
Proof.
  induction calls as [|toolCall calls IH]; [exact I|].
  cbn [for_tool_calls]. apply every_bind; [apply every_tool_call_body|].
  intros [|]; [exact IH | exact I].
Qed.

Lemma every_completion (F : frame -> Prop) (P : string -> string -> Prop) :
  every F P (completion v).
Proof.
  unfold completion, fetch_completion. simpl. intros [r|text]; simpl; [|exact I].
  destruct (ok r); simpl; [apply every_await|].
  destruct v; simpl; [exact I|]. destruct (body_text r); exact I.
Qed.

Lemma every_pass : every (fun _ => True) (routed v base) (pass v base).
Proof.
  unfold pass. apply every_try_catch; [|intros; simpl; auto].
  unfold iteration_body. apply every_bind; [apply every_completion|].
  intros t. simpl. destruct (tool_calls t) as [calls|]; [|simpl; auto].
  destruct (length calls =? 0); [simpl; auto|].
  apply every_bind; [|intros; exact I].
  apply (every_weaken not_response _ (routed v base));
    [auto | auto | apply every_for_tool_calls].
Qed.

Lemma every_while_loop (fuel i : nat) :
  every (fun _ => True) (routed v base) (while_loop v base fuel i).
Proof.
  revert i. induction fuel as [|fuel IH]; intros i; [exact I|].
  cbn [while_loop]. destruct (i <? maxIterations); [|exact I].
  apply every_bind; [apply every_pass|].
  intros [|]; [apply IH | exact I].
Qed.

Lemma every_on_message (data : string) :
  every (fun _ => True) (routed v base) (on_message v base data).
Proof.
  unfold on_message.
  apply every_try_catch; [|intros; simpl; auto].
  apply every_bind; [apply every_await|]. intros value.
  apply every_bind; [destruct value; exact I|].
  intros [m|]; [|simpl; auto]. destruct (truthy m); [|simpl; auto].
  cbn [negb]. apply every_bind; [intros b; exact I|].
  intros [|]; [simpl; auto|].
  unfold turn.
  apply every_bind; [exact I|]. intros _.
  apply every_bind; [exact I|]. intros _.
  apply every_bind.
  { unfold echo. destruct v; [destruct (template m)|]; simpl; auto. }
  intros _.
  apply every_bind; [apply every_while_loop|]. intros j.
  apply every_bind; [destruct (_ <=? _); simpl; auto | intros; exact I].
Qed.

(** Whatever a frame makes the handler do, and whatever the model asks
    for: every POST to the data-access backend goes to one of the two
    endpoints, a query that reaches the read endpoint mentions SELECT,
    and a query that reaches the write endpoint mentions INSERT, UPDATE
    or DELETE and not SELECT (by the test the code makes, on the
    upper-cased query). *)
Theorem posts_are_routed (data : string) (w : backends) (s : session) :
  Forall (fun post => routed v base (fst post) (snd post))
         (sql_posts (events (exec (on_message v base data) w s))).
Proof.
  apply (every_exec (fun _ => True) (routed v base)), every_on_message.
Qed.

End Paths.

(** ** Properties of runs that compose *)

Section Composition.

Variable R : session -> list event -> session -> Prop.
Hypothesis R_nil : forall s, R s [] s.
Hypothesis R_app :
  forall s es s' es' s'', R s es s' -> R s' es' s'' -> R s (es ++ es') s''.

Lemma respects_bind {A B} (p : prog A) (f : A -> prog B) :
  respects R p -> (forall a, respects R (f a)) -> respects R (bind p f).
Proof.
  intros Hp Hf w s. rewrite exec_bind.
  destruct (result (exec p w s)) as [a|text]; cbn.
  - apply (R_app _ _ (final (exec p w s))); [apply Hp | apply Hf].
  - apply Hp.
Qed.

Lemma respects_try_catch {A} (p : prog A) (h : string -> prog A) :
  respects R p -> (forall e, respects R (h e)) -> respects R (try_catch p h).
Proof.
  intros Hp Hh w s. rewrite exec_try_catch.
  destruct (result (exec p w s)) as [a|text]; cbn.
  - apply Hp.
  - apply (R_app _ _ (final (exec p w s))); [apply Hp | apply Hh].
Qed.

Lemma respects_await {A} (r : settled A) : respects R (await r).
Proof. intros w s. destruct r; apply R_nil. Qed.

End Composition.

Lemma sql_posts_app (es es' : list event) :
  sql_posts (es ++ es') = sql_posts es ++ sql_posts es'.
Proof. apply flat_map_app. Qed.

Lemma frames_app (es es' : list event) : frames (es ++ es') = frames es ++ frames es'.
Proof. apply flat_map_app. Qed.

Lemma sql_posts_sent (fs : list frame) : sql_posts (map Sent fs) = [].
Proof. induction fs as [|f fs IH]; [reflexivity | exact IH]. Qed.

Lemma frames_sent (fs : list frame) : frames (map Sent fs) = fs.
Proof. induction fs as [|f fs IH]; [reflexivity | cbn; f_equal; exact IH]. Qed.

Lemma tool_messages_app (h h' : list message) :
  tool_messages (h ++ h') = tool_messages h ++ tool_messages h'.
Proof. apply filter_app. Qed.

Lemma accounted_nil (s : session) : accounted s [] s.
Proof. unfold accounted. cbn. lia. Qed.

Lemma accounted_app (s : session) (es : list event) (s' : session)
      (es' : list event) (s'' : session) :
  accounted s es s' -> accounted s' es' s'' -> accounted s (es ++ es') s''.
Proof.
  unfold accounted. intros H H'. rewrite sql_posts_app, length_app. lia.
Qed.

(** A step that posts nothing and appends no tool message. *)
Lemma accounted_quiet (s : session) (es : list event) (s' : session) :
  sql_posts es = [] ->
  tool_messages (messages s') = tool_messages (messages s) ->
  accounted s es s'.
Proof. unfold accounted. intros -> ->. cbn. lia. Qed.

Section Accounting.

Context {rt : Runtime}.
Variable v : variant.
Variable base : string.

Lemma accounted_tool_call_body (messageResponse : assistant_turn) (toolCall : tool_call) :
  respects accounted (tool_call_body v base messageResponse toolCall).
Proof.
  intros w s.
  destruct (exec_tool_call_body v base messageResponse toolCall w s)
    as [(d & url & q & ->) | (fs & res & -> & _)].
  - unfold accounted. cbn. rewrite tool_messages_app, length_app. cbn. lia.
  - apply accounted_quiet; [apply sql_posts_sent | reflexivity].
Qed.

Lemma accounted_for_tool_calls (messageResponse : assistant_turn)
      (calls : list tool_call) :
  respects accounted (for_tool_calls v base messageResponse calls).
Proof.
  induction calls as [|toolCall calls IH]; [intros w s; apply accounted_nil|].
  cbn [for_tool_calls].
  apply (respects_bind accounted accounted_app);
    [apply accounted_tool_call_body|].
  intros [|]; [exact IH | intros w s; apply accounted_nil].
Qed.

Lemma accounted_send {A} (f : frame) (k : prog A) :
  respects accounted k -> respects accounted (Send f k).
Proof. intros H w s. unfold accounted in *. cbn. apply H. Qed.

Lemma accounted_push {A} (m : message) (k : prog A) :
  (forall i text, m <> tool_message i text) ->
  respects accounted k -> respects accounted (Push m k).
Proof.
  intros Hm H w s. unfold accounted in *. cbn [exec]. rewrite H.
  cbn. rewrite tool_messages_app.
  destruct m as [text|value|t|i text]; try (cbn; rewrite app_nil_r; reflexivity).
  exfalso. apply (Hm i text). reflexivity.
Qed.

Lemma accounted_ret {A} (a : A) : respects accounted (Ret a).
Proof. intros w s. apply accounted_nil. Qed.

Lemma accounted_pass : respects accounted (pass v base).
Proof.
  unfold pass.
  apply (respects_try_catch accounted accounted_app);
    [|intros e; apply accounted_send, accounted_ret].
  unfold iteration_body.
  apply (respects_bind accounted accounted_app).
  - intros w s. rewrite exec_completion. apply accounted_nil.
  - intros t. cbn [messages_push bind]. apply accounted_push; [discriminate|].
    destruct (tool_calls t) as [calls|]; [|apply accounted_send, accounted_ret].
    destruct (length calls =? 0); [apply accounted_send, accounted_ret|].
    apply (respects_bind accounted accounted_app);
      [apply accounted_for_tool_calls | intros; apply accounted_ret].
Qed.

Lemma accounted_while_loop (fuel i : nat) :
  respects accounted (while_loop v base fuel i).
Proof.
  revert i. induction fuel as [|fuel IH]; intros i; [apply accounted_ret|].
  cbn [while_loop]. destruct (i <? maxIterations); [|apply accounted_ret].
  apply (respects_bind accounted accounted_app);
    [apply accounted_pass|].
  intros [|]; [apply IH | apply accounted_ret].
Qed.

Lemma accounted_set_processing {A} (b : bool) (k : prog A) :
  respects accounted k -> respects accounted (SetProcessing b k).
Proof. intros H w s. unfold accounted in *. cbn [exec]. rewrite H. reflexivity. Qed.

Lemma accounted_turn (m : json) : respects accounted (turn v base m).
Proof.
  unfold turn. cbn [put_processing messages_push bind].
  apply accounted_set_processing. apply accounted_push; [discriminate|].
  apply (respects_bind accounted accounted_app).
  { unfold echo. destruct v; [|apply accounted_ret].
    destruct (template m); cbn [await bind send];
      [apply accounted_send, accounted_ret | intros w s; apply accounted_nil]. }
  intros _.
  apply (respects_bind accounted accounted_app);
    [apply accounted_while_loop|].
  intros j.
  apply (respects_bind accounted accounted_app).
  { destruct (_ <=? _); [apply accounted_send|]; apply accounted_ret. }
  intros _. apply accounted_set_processing, accounted_ret.
Qed.

(** In every run of the handler, the tool messages appended to the
    history are as many as the POSTs made to the data-access backend:
    no result is dropped and no tool message is made up. *)
Theorem one_tool_message_per_post (data : string) (w : backends) (s : session) :
  length (tool_messages (messages (final (exec (on_message v base data) w s))))
  = length (tool_messages (messages s))
    + length (sql_posts (events (exec (on_message v base data) w s))).
Proof.
  revert w s. change (respects accounted (on_message v base data)).
  unfold on_message.
  apply (respects_try_catch accounted accounted_app).
  2:{ intros e. apply accounted_send, accounted_set_processing, accounted_ret. }
  apply (respects_bind accounted accounted_app).
  { apply (respects_await accounted accounted_nil). }
  intros value.
  apply (respects_bind accounted accounted_app).
  { destruct value; apply accounted_ret || (intros w s; apply accounted_nil). }
  intros [m|]; [|apply accounted_send, accounted_ret].
  destruct (truthy m); cbn [negb]; [|apply accounted_send, accounted_ret].
  cbn [get_processing bind]. intros w s. cbn [exec].
  destruct (processing s).
  - apply accounted_send, accounted_ret.
  - apply accounted_turn.
Qed.

End Accounting.

(** ** The last frame of a run *)

Lemma closing_prepend (es es' : list event) :
  Forall not_response (frames es) -> closing es' -> closing (es ++ es').
Proof.
  intros H (before & f & -> & Hf & Hb).
  exists (es ++ before), f. rewrite app_assoc. split; [reflexivity|].
  split; [exact Hf|]. rewrite frames_app. apply Forall_app. split; assumption.
Qed.

Lemma closing_last (es : list event) (f : frame) :
  Forall not_response (frames es) -> terminal f -> closing (es ++ [Sent f]).
Proof. intros H Hf. exists es, f. repeat split; assumption. Qed.

Section LastFrame.

Context {rt : Runtime}.
Variable v : variant.
Variable base : string.

(** A pass leaves the loop behind a terminal frame, or goes on without
    having sent a response. *)
Lemma pass_closing (w : backends) (s : session) :
  (result (exec (pass v base) w s) = Resolved Break /\
   closing (events (exec (pass v base) w s))) \/
  (result (exec (pass v base) w s) = Resolved Next /\
   Forall not_response (frames (events (exec (pass v base) w s)))).
Proof.
  destruct (completion_result v (fst (next_completion w))) as [t|text] eqn:H.
  - destruct (calls_of t) as [|c calls] eqn:Hc.
    + left. rewrite (exec_pass_final v base w s t H Hc). split; [reflexivity|].
      apply (closing_last [Completion _ _]); [constructor | exact I].
    + rewrite (exec_pass_batch v base w s t H); [|congruence]. cbv zeta.
      pose proof (proj1 (every_exec not_response (routed v base) _
                           (snd (next_completion w)) (push (assistant_message t) s)
                           (every_for_tool_calls v base t (calls_of t)))) as Hb.
      destruct (result (exec (for_tool_calls v base t (calls_of t))
                             (snd (next_completion w)) (push (assistant_message t) s))).
      * right. split; [reflexivity | exact Hb].
      * left. split; [reflexivity|].
        apply (closing_last (Completion _ _ :: _)); [exact Hb | exact I].
  - left. rewrite (exec_pass_failed v base w s text H). split; [reflexivity|].
    apply (closing_last [Completion _ _]); [constructor | exact I].
Qed.

(** The loop ends below the ceiling behind a terminal frame, or at the
    ceiling without having sent a response. *)
Lemma while_loop_closing (fuel i : nat) (w : backends) (s : session) :
  maxIterations <= i + fuel ->
  exists j,
    result (exec (while_loop v base fuel i) w s) = Resolved j /\
    ((j < maxIterations /\ closing (events (exec (while_loop v base fuel i) w s))) \/
     (maxIterations <= j /\
      Forall not_response (frames (events (exec (while_loop v base fuel i) w s))))).
Proof.
  revert i w s. induction fuel as [|fuel IH]; intros i w s Hfuel.
  - rewrite exec_while_loop_exit by lia. exists i. split; [reflexivity|].
    right. split; [lia | constructor].
  - destruct (Nat.ltb_spec i maxIterations) as [Hlt|Hge].
    + rewrite (exec_while_loop_step v base fuel i w s Hlt).
      destruct (pass_closing w s) as [[E Hc] | [E Hn]]; rewrite E.
      * exists i. split; [reflexivity|]. left. split; assumption.
      * destruct (IH (S i) (remaining (exec (pass v base) w s))
                     (final (exec (pass v base) w s))) as (j & Ej & Hj); [lia|].
        exists j. cbn [prepend result events]. split; [exact Ej|].
        destruct Hj as [[Hlt' Hc] | [Hge' Hn']].
        -- left. split; [exact Hlt' | apply closing_prepend; assumption].
        -- right. split; [exact Hge'|]. rewrite frames_app. apply Forall_app.
           split; assumption.
    + rewrite exec_while_loop_exit by lia. exists i. split; [reflexivity|].
      right. split; [lia | constructor].
Qed.

(** The listener never throws, and every run ends with a frame that
    closes it: the last thing every run does is to send the frame of
    the answer ([{response: content}], which is the empty object when
    the turn has no [content] field) or an error frame, and no frame
    of an answer is sent before that one.  A run sends at most one
    answer, and nothing after it. *)
Theorem run_ends_with_terminal_frame (data : string) (w : backends) (s : session) :
  result (exec (on_message v base data) w s) = Resolved tt /\
  exists before f,
    events (exec (on_message v base data) w s) = before ++ [Sent f] /\
    terminal f /\
    Forall not_response (frames before).
Proof.
  destruct (exec_on_message v base data w s)
    as [(text & s' & -> & _)
       | [(m & es & _ & _ & He & ->) | (m & e & _ & _ & _ & ->)]].
  - split; [reflexivity|]. exists [], (Error text). repeat split. constructor.
  - pose proof (exec_turn v base m w s) as Hturn. cbv zeta in Hturn.
    rewrite He in Hturn. destruct Hturn as (j & Ej & ->). cbn [result events].
    split; [reflexivity|].
    assert (Hecho : Forall not_response (frames es)).
    { destruct (echo_events_progress v m es He) as [-> | [text ->]];
        repeat constructor. }
    destruct (while_loop_closing maxIterations 0 w
                (push (user_message m) (set_processing true s)))
      as (j' & Ej' & Hj); [unfold maxIterations; lia|].
    rewrite Ej in Ej'. injection Ej' as <-.
    unfold limit_events.
    destruct Hj as [[Hlt Hc] | [Hge Hn]].
    + destruct (Nat.leb_spec maxIterations j) as [Hle|_]; [lia|].
      rewrite app_nil_r. apply closing_prepend; assumption.
    + destruct (Nat.leb_spec maxIterations j) as [_|Hlt]; [|lia].
      rewrite app_assoc. apply closing_last; [|exact I].
      rewrite frames_app. apply Forall_app. split; assumption.
  - split; [reflexivity|]. exists [], (Error ("Error: " +++ e)).
    repeat split. constructor.
Qed.

End LastFrame.

Section LastFrameExample.

#[local] Existing Instance Sample.runtime.

(** An answer without a [content] field: the frame that closes the run
    is the empty object, the frame of the answer with its one field
    left out. *)
Example answer_without_content :
  let r := exec (on_message index_js "" (Sample.object_text "message" (Sample.quoted "a")))
                Sample.silent Sample.idle in
  frames (events r) = [Progress "You: a"; Response Undefined] /\
  messages (final r)
  = [system_message "prompt"; user_message (JStr "a");
     assistant_message {| content := Undefined; tool_calls := None |}] /\
  processing (final r) = false.
Proof. repeat split. Qed.

End LastFrameExample.

(** ** The flag and the history over one run *)

(** Two ways to cut a list at a completion request behind events
    without one are the same. *)
Lemma quiet_aligned (es1 es2 rest1 rest2 : list event) p1 o1 p2 o2 :
  quiet es1 -> quiet es2 ->
  es1 ++ Completion p1 o1 :: rest1 = es2 ++ Completion p2 o2 :: rest2 ->
  es1 = es2 /\ p1 = p2 /\ o1 = o2 /\ rest1 = rest2.
Proof.
  intros H1. revert es2. induction H1 as [|e es1 He _ IH]; intros es2 H2 E.
  - destruct H2 as [|e2 es2 He2 _]; cbn [app] in E.
    + injection E as -> -> ->. auto.
    + injection E as <- _. contradiction.
  - destruct H2 as [|e2 es2 He2 H2]; cbn [app] in E.
    + injection E as -> _. contradiction.
    + injection E as -> E. destruct (IH es2 H2 E) as (-> & -> & -> & ->). auto.
Qed.

Lemma tool_messages_all (t : assistant_turn) (results : list message) :
  Forall (tool_result_of t) results -> tool_messages results = results.
Proof.
  induction 1 as [|m results (i & text & -> & _) _ IH]; [reflexivity|].
  cbn. unfold tool_messages in IH. rewrite IH. reflexivity.
Qed.

Section Chain.

Context {rt : Runtime}.
Variable v : variant.

(** Events without a request may follow the last pass. *)
Lemma rounds_app_quiet (h : list message) (es tail : list event) :
  rounds v h es -> es <> [] -> quiet tail -> rounds v h (es ++ tail).
Proof.
  intros R. induction R as [h | h o batch h' es Hb Hnext R IH]; intros Hne Ht.
  - contradiction.
  - cbn [app]. rewrite <- app_assoc. destruct es as [|e es].
    + cbn [app]. rewrite <- (app_nil_r (batch ++ tail)).
      apply (rounds_pass v h o (batch ++ tail) h []);
        [apply quiet_app; assumption | left; reflexivity | constructor].
    + apply (rounds_pass v h o batch h'); [exact Hb | | apply IH; [discriminate | exact Ht]].
      destruct Hnext as [Hnil | Hnext]; [discriminate Hnil | right; exact Hnext].
Qed.

(** From one request to the next, the payload grows by the assistant
    turn the first one got and by the tool results of its batch. *)
Lemma rounds_consecutive (h : list message) (es : list event) :
  rounds v h es ->
  forall before p1 o1 mid p2 o2 rest,
    es = before ++ Completion p1 o1 :: mid ++ Completion p2 o2 :: rest ->
    quiet mid ->
    exists t results,
      completion_result v o1 = Resolved t /\
      p2 = p1 ++ assistant_message t :: results /\
      Forall (tool_result_of t) results /\
      length results = length (sql_posts mid).
Proof.
  intros R. induction R as [h | h o batch h' es Hb Hnext R IH];
    intros before p1 o1 mid p2 o2 rest E Hmid.
  - destruct before; discriminate E.
  - destruct before as [|b before]; cbn [app] in E.
    + injection E as -> -> E.
      destruct Hnext as [-> | (t & results & Hc & Hr & Hlen & ->)].
      * rewrite app_nil_r in E. exfalso.
        refine (quiet_no_completion batch mid rest p2 o2 Hb _). exact E.
      * inversion R as [|h1 o' batch' h'' es' Hb' Hnext' R' Eh Ees]; subst.
        { rewrite app_nil_r in E. exfalso.
          exact (quiet_no_completion batch mid rest p2 o2 Hb E). }
        destruct (quiet_aligned _ _ _ _ _ _ _ _ Hb Hmid E) as (-> & <- & _ & _).
        exists t, results. auto.
    + injection E as _ E.
      destruct (quiet_split batch es before _ p1 o1 Hb E) as (before' & -> & E').
      exact (IH before' p1 o1 mid p2 o2 rest E' Hmid).
Qed.

(** The first request carries the history the loop starts from. *)
Lemma rounds_first (h : list message) (es before rest : list event) p o :
  rounds v h es ->
  es = before ++ Completion p o :: rest ->
  quiet before ->
  before = [] /\ p = h.
Proof.
  intros R E Hq. destruct R as [h | h o' batch h' es Hb Hnext R].
  - destruct before; discriminate E.
  - destruct before as [|b before]; cbn [app] in E.
    + injection E as -> _ _. auto.
    + injection E as <- _. inversion Hq; contradiction.
Qed.

End Chain.

Section OneRun.

Context {rt : Runtime}.
Variable v : variant.
Variable base : string.

(** A frame with a truthy message on a session that is not processing
    starts a turn; the handler does what the turn does, unless the echo
    throws. *)
Lemma accepted_frame_runs_turn (data : string) (members : list (string * json))
      (m : json) (w : backends) (s : session) :
  JSON_parse data = Resolved (JObj members) ->
  lookup "message" members = Some m ->
  truthy m = true ->
  processing s = false ->
  v = part_000 \/ (exists text, template m = Resolved text) ->
  exec (on_message v base data) w s = exec (turn v base m) w s.
Proof.
  intros Hparse Hm Htruthy Hflag Hecho. unfold on_message. rewrite Hparse.
  cbn [await bind try_catch property]. rewrite Hm, Htruthy.
  cbn [negb get_processing bind try_catch exec]. rewrite Hflag.
  rewrite exec_try_catch.
  pose proof (exec_turn v base m w s) as Hturn. cbv zeta in Hturn.
  destruct (echo_events_resolved v m Hecho) as [es He]. rewrite He in Hturn.
  destruct Hturn as (j & _ & ->). reflexivity.
Qed.

(** A pass starts with its completion request, which carries the
    history as it is, and makes no other; when the loop goes on after
    it, the pass got an assistant turn and appended that turn and one
    tool result for every POST it made. *)
Lemma pass_round (w : backends) (s : session) :
  exists tail,
    events (exec (pass v base) w s)
    = Completion (messages s) (fst (next_completion w)) :: tail /\
    quiet tail /\
    (result (exec (pass v base) w s) = Resolved Next ->
     exists t results,
       completion_result v (fst (next_completion w)) = Resolved t /\
       Forall (tool_result_of t) results /\
       length results = length (sql_posts tail) /\
       messages (final (exec (pass v base) w s))
       = messages s ++ assistant_message t :: results).
Proof.
  destruct (completion_result v (fst (next_completion w))) as [t|text] eqn:H.
  - destruct (calls_of t) as [|c calls] eqn:Hc.
    + rewrite (exec_pass_final v base w s t H Hc). eexists. split; [reflexivity|].
      split; [repeat constructor | discriminate].
    + rewrite (exec_pass_batch v base w s t H); [|congruence]. cbv zeta.
      destruct (exec_for_tool_calls v base t (calls_of t) (snd (next_completion w))
                  (push (assistant_message t) s)) as (Hq & _ & results & Hm & Hr).
      pose proof (accounted_for_tool_calls v base t (calls_of t)
                    (snd (next_completion w)) (push (assistant_message t) s)) as Ha.
      unfold accounted in Ha. rewrite Hm, tool_messages_app, length_app in Ha.
      rewrite (tool_messages_all t results Hr) in Ha.
      destruct (result (exec (for_tool_calls v base t (calls_of t))
                             (snd (next_completion w)) (push (assistant_message t) s))).
      * eexists. split; [reflexivity|]. split; [exact Hq|]. intros _.
        exists t, results. split; [reflexivity|]. split; [exact Hr|].
        split; [lia|]. cbn [final]. rewrite Hm. cbn [push messages].
        rewrite <- app_assoc. reflexivity.
      * eexists. split; [reflexivity|]. split; [|discriminate].
        apply quiet_app; [exact Hq | repeat constructor].
  - rewrite (exec_pass_failed v base w s text H). eexists. split; [reflexivity|].
    split; [repeat constructor | discriminate].
Qed.

Lemma while_loop_rounds (fuel i : nat) (w : backends) (s : session) :
  rounds v (messages s) (events (exec (while_loop v base fuel i) w s)).
Proof.
  revert i w s. induction fuel as [|fuel IH]; intros i w s.
  - constructor.
  - destruct (Nat.ltb_spec i maxIterations) as [Hlt|Hge].
    + rewrite (exec_while_loop_step v base fuel i w s Hlt).
      destruct (pass_round w s) as (tail & E & Hq & Hnext).
      destruct (result (exec (pass v base) w s)) as [[|]|text];
        cbn [events prepend]; rewrite E.
      * destruct (Hnext eq_refl) as (t & results & Hc & Hr & Hlen & Hm).
        cbn [app].
        apply (rounds_pass v (messages s) _ tail
                 (messages (final (exec (pass v base) w s)))).
        -- exact Hq.
        -- right. exists t, results. auto.
        -- apply IH.
      * rewrite <- (app_nil_r tail).
        apply (rounds_pass v (messages s) _ tail (messages s));
          [exact Hq | left; reflexivity | constructor].
      * rewrite <- (app_nil_r tail).
        apply (rounds_pass v (messages s) _ tail (messages s));
          [exact Hq | left; reflexivity | constructor].
    + rewrite exec_while_loop_exit by lia. constructor.
Qed.

(** The model is always given the whole conversation.  In an accepted
    turn (one whose echo does not throw) the first event after the echo
    is a completion request whose payload is the history so far followed
    by the user message.  And from each request of the turn to the next,
    the payload grows by exactly what the turn appended in between: the
    assistant turn that the first of the two requests got, and one tool
    result of that turn's batch for every POST made in between. *)
Theorem requests_carry_history
        (data : string) (members : list (string * json)) (m : json)
        (w : backends) (s : session) :
  JSON_parse data = Resolved (JObj members) ->
  lookup "message" members = Some m ->
  truthy m = true ->
  processing s = false ->
  v = part_000 \/ (exists text, template m = Resolved text) ->
  (exists es rest,
      echo_events v m = Resolved es /\
      events (exec (on_message v base data) w s)
      = es ++ Completion (messages s ++ [user_message m]) (fst (next_completion w))
        :: rest) /\
  (forall before p1 o1 mid p2 o2 rest,
      events (exec (on_message v base data) w s)
      = before ++ Completion p1 o1 :: mid ++ Completion p2 o2 :: rest ->
      quiet mid ->
      exists t results,
        completion_result v o1 = Resolved t /\
        p2 = p1 ++ assistant_message t :: results /\
        Forall (tool_result_of t) results /\
        length results = length (sql_posts mid)).
Proof.
  intros Hparse Hm Htruthy Hflag Hecho.
  rewrite (accepted_frame_runs_turn data members m w s Hparse Hm Htruthy Hflag Hecho).
  pose proof (exec_turn v base m w s) as Hturn. cbv zeta in Hturn.
  destruct (echo_events_resolved v m Hecho) as [es He]. rewrite He in Hturn.
  destruct Hturn as (j & Ej & ->). cbn [events].
  set (s1 := push (user_message m) (set_processing true s)) in *.
  assert (Hes : quiet es).
  { destruct (echo_events_progress v m es He) as [-> | [text ->]]; repeat constructor. }
  assert (Hlimit : quiet (limit_events j)).
  { unfold limit_events. destruct (_ <=? _); repeat constructor. }
  destruct (pass_round w s1) as (tail & Etail & _).
  assert (Hfirst : exists rest,
             events (exec (while_loop v base maxIterations 0) w s1)
             = Completion (messages s ++ [user_message m]) (fst (next_completion w))
               :: rest).
  { change maxIterations with (S 9) at 1.
    rewrite (exec_while_loop_step v base 9 0 w s1) by (unfold maxIterations; lia).
    destruct (result (exec (pass v base) w s1)) as [[|]|text];
      cbn [events prepend]; rewrite Etail; eexists; reflexivity. }
  split.
  - destruct Hfirst as [rest ->]. exists es. eexists. split; [exact He|].
    reflexivity.
  - intros before p1 o1 mid p2 o2 rest E Hmid.
    destruct (quiet_split es _ before _ p1 o1 Hes E) as (before' & -> & E').
    refine (rounds_consecutive v (messages s1) _ _ before' p1 o1 mid p2 o2 rest E' Hmid).
    apply rounds_app_quiet; [apply while_loop_rounds | | exact Hlimit].
    destruct Hfirst as [rest' ->]. discriminate.
Qed.

(** The flag after a run.  The handler leaves the flag set only if it
    was set before and the frame parsed to a value other than [null]
    (it was then turned down by one of the two guards); after every
    other run the flag is clear, also when it was set before and
    belonged to a turn that is still running. *)
Theorem flag_after_run (data : string) (w : backends) (s : session) :
  processing (final (exec (on_message v base data) w s)) = true <->
  processing s = true /\
  exists value, JSON_parse data = Resolved value /\ value <> JNull.
Proof.
  unfold on_message.
  destruct (JSON_parse data) as [value|text] eqn:Hparse; cbn [await bind try_catch].
  2:{ cbn. split; [discriminate | intros [_ (value & Hv & _)]; discriminate]. }
  assert (Hguard : forall value', value' <> JNull ->
            (processing s = true <->
             processing s = true /\
             exists value0, Resolved value' = Resolved value0 /\ value0 <> JNull)).
  { intros value' Hv. split; [|tauto]. intros H. split; [exact H|].
    exists value'. split; [reflexivity | exact Hv]. }
  destruct value as [ | b | x | t | items | members ];
    try (cbn; apply Hguard; discriminate).
  { cbn. split; [discriminate|]. intros [_ (value & Hv & Hn)].
    injection Hv as <-. contradiction. }
  cbn [property bind try_catch].
  destruct (lookup "message" members) as [m|]; [|cbn; apply Hguard; discriminate].
  destruct (truthy m) eqn:Hm; cbn [negb]; [|cbn; apply Hguard; discriminate].
  cbn [get_processing bind try_catch exec].
  destruct (processing s) eqn:Hp.
  - cbn. rewrite Hp. apply Hguard. discriminate.
  - rewrite exec_try_catch.
    pose proof (exec_turn v base m w s) as Hturn. cbv zeta in Hturn.
    destruct (echo_events v m) as [es|e].
    + destruct Hturn as (j & _ & ->).
      cbn. split; [discriminate | intros [H _]; discriminate].
    + rewrite Hturn.
      cbn. split; [discriminate | intros [H _]; discriminate].
Qed.

(** An error thrown by the dispatcher is reported as an error of the
    completion call.  When the first tool call of a batch throws (its
    arguments are [null], or its query is not a string), the [catch]
    written for the completion request sends the error frame
    [DeepSeek API error: ...] and leaves the loop; the assistant message
    stays in the history without a tool message. *)
Theorem dispatcher_error_ends_loop
        (w : backends) (s : session) (t : assistant_turn)
        (toolCall : tool_call) (rest : list tool_call) (text : string) :
  completion_result v (fst (next_completion w)) = Resolved t ->
  calls_of t = toolCall :: rest ->
  result (exec (tool_call_body v base t toolCall)
               (snd (next_completion w)) (push (assistant_message t) s))
  = Rejected text ->
  exists fs,
    exec (pass v base) w s
    = {| events := Completion (messages s) (fst (next_completion w))
                   :: map Sent fs
                   ++ [Sent (Error ("DeepSeek API error: " +++ text))];
         final := push (assistant_message t) s;
         remaining := snd (next_completion w);
         result := Resolved Break |}.
Proof.
  intros Hcompletion Hcalls Hthrow.
  rewrite (exec_pass_batch v base w s t Hcompletion); [|congruence]. cbv zeta.
  rewrite Hcalls. cbn [for_tool_calls]. rewrite exec_bind.
  destruct (exec_tool_call_body v base t toolCall (snd (next_completion w))
              (push (assistant_message t) s))
    as [(d & url & q & E) | (fs & res & E & _)]; rewrite E in Hthrow |- *.
  - discriminate Hthrow.
  - cbn in Hthrow. subst res. cbn. exists fs. reflexivity.
Qed.

End OneRun.

Section OneRunExamples.

#[local] Existing Instance Sample.runtime.

Lemma requests_carry_history_witness :
  let data := Sample.object_text "message" (Sample.quoted "list all packages") in
  let r := exec (on_message part_000 "https://sql.example/" data)
                Sample.nominal Sample.idle in
  let t := Sample.asks [Sample.call "call_1" "run_sql_query"
                          (Sample.quoted "SELECT * FROM packages")] in
  let p1 := messages Sample.idle ++ [user_message (JStr "list all packages")] in
  (exists es rest,
      echo_events part_000 (JStr "list all packages") = Resolved es /\
      events r = es ++ Completion p1 (fst (next_completion Sample.nominal)) :: rest) /\
  (exists results,
      p1 ++ [assistant_message t;
             tool_message "call_1" (JSON_stringify (JObj [("rows", JArr [])]))]
      = p1 ++ assistant_message t :: results /\
      length results = 1).
Proof.
  cbv zeta.
  destruct (requests_carry_history part_000 "https://sql.example/"
              (Sample.object_text "message" (Sample.quoted "list all packages"))
              [("message", JStr "list all packages")] (JStr "list all packages")
              Sample.nominal Sample.idle) as [Hfirst Hnext];
    try reflexivity.
  { left. reflexivity. }
  split; [exact Hfirst|].
  destruct (Hnext []
              (messages Sample.idle ++ [user_message (JStr "list all packages")])
              (fst (next_completion Sample.nominal))
              [Sent (Progress "Querying data...[SELECT * FROM packages]");
               SqlPost "https://sql.example/api/sql/query" "SELECT * FROM packages"
                       Sample.rows]
              (messages Sample.idle
               ++ [user_message (JStr "list all packages");
                   assistant_message
                     (Sample.asks [Sample.call "call_1" "run_sql_query"
                                     (Sample.quoted "SELECT * FROM packages")]);
                   tool_message "call_1" (JSON_stringify (JObj [("rows", JArr [])]))])
              (Sample.respond (Sample.answers "Here are the packages."))
              [Sent (Response (Text "Here are the packages."))])
    as (t & results & Ht & Hp & _ & Hlen).
  - reflexivity.
  - repeat constructor.
  - injection Ht as <-. exists results. split; [|exact Hlen].
    cbn in Hp |- *. congruence.
Defined.

Lemma dispatcher_error_ends_loop_witness :
  exists fs,
    exec (pass index_js "") Sample.null_arguments Sample.busy
    = {| events := Completion (messages Sample.busy)
                     (fst (next_completion Sample.null_arguments))
                   :: map Sent fs
                   ++ [Sent (Error ("DeepSeek API error: "
                                    +++ "Cannot read properties of null (reading 'query')"))];
         final := push (assistant_message
                          (Sample.asks [{| id := "call_1";
                                           function_name := "run_sql_query";
                                           function_arguments := "null" |}]))
                       Sample.busy;
         remaining := snd (next_completion Sample.null_arguments);
         result := Resolved Break |}.
Proof.
  apply (dispatcher_error_ends_loop index_js "" Sample.null_arguments Sample.busy
           (Sample.asks [{| id := "call_1"; function_name := "run_sql_query";
                            function_arguments := "null" |}])
           {| id := "call_1"; function_name := "run_sql_query";
              function_arguments := "null" |} []); reflexivity.
Defined.

End OneRunExamples.

(** ** Handlers of one connection, in any order *)

Lemma lands_bind_any {A B} (cur : bool) (Q : B -> bool -> Prop)
      (E : string -> bool -> Prop) (p : prog A) (f : A -> prog B) :
  (forall a fl, lands fl Q E (f a)) ->
  (forall e fl, E e fl) ->
  lands cur Q E (bind p f).
Proof.
  intros Hf HE. revert cur.
  induction p as [a|e|fr k IH|k IH|b k IH|msg k IH|k IH|url q k IH];
    intros cur; cbn; auto.
Qed.

Lemma lands_try_catch_any {A} (cur : bool) (Q : A -> bool -> Prop)
      (E : string -> bool -> Prop) (p : prog A) (h : string -> prog A) :
  (forall e fl, lands fl Q E (h e)) ->
  lands cur Q (fun _ _ => True) p ->
  lands cur Q E (try_catch p h).
Proof.
  intros Hh. revert cur.
  induction p as [a|e|fr k IH|k IH|b k IH|msg k IH|k IH|url q k IH];
    intros cur H; cbn in *; auto.
Qed.

Lemma run_sync_lands {A} (Q : A -> bool -> Prop) (E : string -> bool -> Prop)
      (p : prog A) (s : session) :
  lands (processing s) Q E p ->
  lands (processing (snd (fst (run_sync p s)))) Q E (snd (run_sync p s)).
Proof.
  revert s. induction p as [a|e|fr k IH|k IH|b k IH|msg k IH|k IH|url q k IH];
    intros s H; cbn [run_sync]; try exact H.
  - specialize (IH s H). destruct (run_sync k s) as [[fs s'] p']. exact IH.
  - apply IH, H.
  - apply (IH (set_processing b s)), H.
  - apply (IH (push msg s)), H.
Qed.

Section AnyOrder.

Context {rt : Runtime}.
Variable v : variant.
Variable base : string.

(** A frame that arrives while the flag is set is answered at once:
    its handler returns without an [await]. *)
Lemma busy_frame_returns (data : string) (s : session) :
  processing s = true ->
  snd (run_sync (on_message v base data) s) = Ret tt.
Proof.
  intros Hflag. unfold on_message.
  destruct (JSON_parse data) as [value|text]; cbn [await bind try_catch];
    [|reflexivity].
  destruct value as [ | b | x | t | items | members ]; try reflexivity.
  cbn [property bind try_catch].
  destruct (lookup "message" members) as [m|]; [|reflexivity].
  destruct (truthy m); cbn [negb]; [|reflexivity].
  cbn [get_processing bind try_catch run_sync]. rewrite Hflag. reflexivity.
Qed.

(** A handler that finds the flag clear leaves it clear, whatever the
    other handlers of the connection do while it waits. *)
Lemma on_message_lands_clear (data : string) :
  lands_clear false (on_message v base data).
Proof.
  unfold lands_clear, on_message.
  apply lands_try_catch_any; [intros e fl; reflexivity|].
  destruct (JSON_parse data) as [value|text]; cbn [await bind]; [|exact I].
  destruct value as [ | b | x | t | items | members ]; try reflexivity; try exact I.
  cbn [property bind].
  destruct (lookup "message" members) as [m|]; [|reflexivity].
  destruct (truthy m); cbn [negb]; [|reflexivity].
  cbn [get_processing bind lands]. unfold turn.
  do 5 (apply lands_bind_any; [intros ? ?|intros; reflexivity || exact I]).
  reflexivity.
Qed.

(** The handlers in flight will leave the flag clear, and it is clear
    when none is in flight. *)
Lemma reachable_lands (SYSTEM_PROMPT : string) (c : connection) :
  reachable v base SYSTEM_PROMPT c ->
  Forall (fun p => forall cur, lands_clear cur p) (suspended c) /\
  (suspended c = [] -> processing (state c) = false).
Proof.
  assert (Hresume : forall p s waiting sent,
             lands_clear (processing s) p ->
             Forall (fun p => forall cur, lands_clear cur p) waiting ->
             Forall (fun p => forall cur, lands_clear cur p)
                    (suspended (resume p s waiting sent)) /\
             (suspended (resume p s waiting sent) = [] ->
              processing (state (resume p s waiting sent)) = false)).
  { intros p s waiting sent Hp Hw. unfold resume.
    pose proof (run_sync_lands _ _ p s Hp) as Hl.
    pose proof (run_sync_stops p s) as Hstop.
    destruct (run_sync p s) as [[fs s'] p']. cbn [fst snd] in *.
    cbn [suspended state].
    destruct p' as [a|e|fr k|k|b k|msg k|k|url q k]; try contradiction;
      cbn [park].
    - split; [exact Hw | intros _; exact Hl].
    - split; [exact Hw | intros _; exact Hl].
    - split.
      + apply Forall_app. split; [exact Hw|]. constructor; [|constructor].
        intros cur. exact Hl.
      + intros E. destruct waiting; discriminate E.
    - split.
      + apply Forall_app. split; [exact Hw|]. constructor; [|constructor].
        intros cur. exact Hl.
      + intros E. destruct waiting; discriminate E. }
  induction 1 as [|c c' _ [IHw IHf] Hstep].
  - split; [constructor | reflexivity].
  - destruct Hstep as [c data | c before k rest o Hs | c before url q k rest o Hs].
    + destruct (processing (state c)) eqn:Hflag.
      * unfold resume. pose proof (busy_frame_returns data (state c) Hflag) as Hret.
        destruct (run_sync (on_message v base data) (state c)) as [[fs s'] p'].
        cbn [snd] in Hret. subst p'. cbn [park suspended state].
        split; [exact IHw|]. intros E. specialize (IHf E). congruence.
      * apply Hresume; [rewrite Hflag; apply on_message_lands_clear | exact IHw].
    + rewrite Hs in IHw. apply Forall_app in IHw. destruct IHw as [Hb Hk].
      inversion Hk as [|? ? Hk1 Hk2]; subst.
      apply Hresume; [apply (Hk1 true) | apply Forall_app; split; assumption].
    + rewrite Hs in IHw. apply Forall_app in IHw. destruct IHw as [Hb Hk].
      inversion Hk as [|? ? Hk1 Hk2]; subst.
      apply Hresume; [apply (Hk1 true) | apply Forall_app; split; assumption].
Qed.


(** On a connection that only receives frames that parse to a value
    other than [null], the flag is set exactly while a handler is
    waiting at an [await]. *)
Theorem flag_tracks_running_turn (SYSTEM_PROMPT : string) (c : connection) :
  orderly v base SYSTEM_PROMPT c ->
  processing (state c) = true <-> suspended c <> [].
Proof.
  intros H. destruct (orderly_tidy v base SYSTEM_PROMPT c H)
    as [(Hs & Hf & _) | (p & Hs & Hf & _)]; rewrite Hs, Hf.
  - split; [discriminate | intros Hn; contradiction Hn; reflexivity].
  - split; [discriminate | reflexivity].
Qed.

End AnyOrder.

Section AnyOrderExamples.

#[local] Existing Instance Sample.runtime.


Lemma flag_tracks_running_turn_witness :
  let c := resume (on_message index_js ""
                     (Sample.object_text "message" (Sample.quoted "a")))
                  (state (accepted "prompt")) [] [] in
  processing (state c) = true <-> suspended c <> [].
Proof.
  cbv zeta.
  apply (flag_tracks_running_turn index_js "" "prompt").
  apply (orderly_message index_js "" "prompt" (accepted "prompt")
           (Sample.object_text "message" (Sample.quoted "a"))
           (JObj [("message", JStr "a")])).
  - apply orderly_accepted.
  - reflexivity.
  - discriminate.
Defined.

End AnyOrderExamples.

(** ** Accepting and closing a connection *)

Section AcceptClose.

Variable v : variant.
Variable promptMd : string.
Variable GREETING : string.

Lemma set_same {A} (key : string) (value : A) (map : string -> option A) :
  Store.set key value map key = Some value.
Proof. unfold Store.set. rewrite String.eqb_refl. reflexivity. Qed.

Lemma set_other {A} (key k : string) (value : A) (map : string -> option A) :
  k <> key -> Store.set key value map k = map k.
Proof. intros H. unfold Store.set. apply String.eqb_neq in H. rewrite H. reflexivity. Qed.

Lemma delete_same {A} (key : string) (map : string -> option A) :
  Store.delete key map key = None.
Proof. unfold Store.delete. rewrite String.eqb_refl. reflexivity. Qed.

Lemma delete_other {A} (key k : string) (map : string -> option A) :
  k <> key -> Store.delete key map k = map k.
Proof.
  intros H. unfold Store.delete. apply String.eqb_neq in H. rewrite H. reflexivity.
Qed.

Lemma present_some (x : string) : Store.present (Some x) = true <-> x <> "".
Proof.
  cbn. destruct (String.eqb_spec x ""); cbn; split; congruence.
Qed.

(** The connection is upgraded exactly when the prompt is not empty,
    the API key is set, the deployment variant has its base URL, and
    the request asks for a WebSocket. *)
Theorem fetch_upgrades_iff (env : Store.environment) (upgrade : option string)
        (random : nat -> nat) (st : Store.store) :
  (exists conversationId,
      fst (fst (Store.fetch v promptMd GREETING env upgrade random st))
      = Store.Switching conversationId) <->
  promptMd <> "" /\
  Store.present (Store.DEEPSEEK_API_KEY env) = true /\
  (v = part_000 -> Store.present (Store.SQL_API_BASE_URL env) = true) /\
  upgrade = Some "websocket".
Proof.
  unfold Store.fetch.
  destruct (String.eqb_spec promptMd "") as [Hp|Hp].
  { cbn. rewrite (proj2 (String.eqb_eq promptMd "") Hp). cbn.
    split; [intros [i H]; discriminate H | intros [H _]; contradiction]. }
  cbn [Store.present]. rewrite (proj2 (String.eqb_neq promptMd "") Hp). cbn [negb].
  destruct (Store.present (Store.DEEPSEEK_API_KEY env)); cbn [negb].
  2:{ cbn. split; [intros [i H]; discriminate H | intros (_ & H & _); discriminate H]. }
  destruct v.
  - destruct upgrade as [value|].
    + destruct (String.eqb_spec value "websocket") as [->|Hu]; cbn.
      * split; [|eauto]. intros _. repeat split; try assumption. discriminate.
      * split; [intros [i H]; discriminate H|].
        intros (_ & _ & _ & H). injection H as H. contradiction.
    + cbn. split; [intros [i H]; discriminate H | intros (_ & _ & _ & H); discriminate H].
  - destruct (Store.present (Store.SQL_API_BASE_URL env)); cbn [negb].
    2:{ cbn. split; [intros [i H]; discriminate H|].
        intros (_ & _ & H & _). specialize (H eq_refl). discriminate H. }
    destruct upgrade as [value|].
    + destruct (String.eqb_spec value "websocket") as [->|Hu]; cbn.
      * split; [|eauto]. intros _. repeat split; assumption.
      * split; [intros [i H]; discriminate H|].
        intros (_ & _ & _ & H). injection H as H. contradiction.
    + cbn. split; [intros [i H]; discriminate H | intros (_ & _ & _ & H); discriminate H].
Qed.

(** A request that is turned down changes nothing and sends nothing.
    The status is 500 when the configuration is incomplete, whatever
    the request asks for, and 426 only for a request that does not ask
    for a WebSocket on a complete configuration. *)
Theorem fetch_refusal (env : Store.environment) (upgrade : option string)
        (random : nat -> nat) (st : Store.store) (status : nat) (body : string) :
  fst (fst (Store.fetch v promptMd GREETING env upgrade random st))
  = Store.Plain status body ->
  snd (fst (Store.fetch v promptMd GREETING env upgrade random st)) = st /\
  snd (Store.fetch v promptMd GREETING env upgrade random st) = [] /\
  (status = 426 /\ body = "Expected WebSocket" /\
   upgrade <> Some "websocket" /\
   promptMd <> "" /\
   Store.present (Store.DEEPSEEK_API_KEY env) = true /\
   (v = part_000 -> Store.present (Store.SQL_API_BASE_URL env) = true)
   \/
   status = 500 /\
   (promptMd = "" \/
    Store.present (Store.DEEPSEEK_API_KEY env) = false \/
    (v = part_000 /\ Store.present (Store.SQL_API_BASE_URL env) = false))).
Proof.
  unfold Store.fetch.
  destruct (String.eqb_spec promptMd "") as [Hp|Hp].
  { cbn. rewrite (proj2 (String.eqb_eq promptMd "") Hp). cbn.
    intros H. injection H as <- <-.
    split; [reflexivity|]. split; [reflexivity|]. right. split; [reflexivity|]. tauto. }
  cbn [Store.present]. rewrite (proj2 (String.eqb_neq promptMd "") Hp). cbn [negb].
  destruct (Store.present (Store.DEEPSEEK_API_KEY env)) eqn:Hk; cbn [negb].
  2:{ cbn. intros H. injection H as <- <-.
    split; [reflexivity|]. split; [reflexivity|]. right. split; [reflexivity|]. tauto. }
  assert (Hupgrade : forall value, (value =? "websocket")%string = false ->
                                   Some value <> Some "websocket").
  { intros value H E. injection E as ->. discriminate H. }
  destruct v.
  - destruct upgrade as [value|];
      [destruct (value =? "websocket")%string eqn:Hu|]; cbn;
      intros H; try discriminate H; injection H as <- <-;
      (split; [reflexivity|]); (split; [reflexivity|]); left;
      repeat split; auto; discriminate.
  - destruct (Store.present (Store.SQL_API_BASE_URL env)) eqn:Hb; cbn [negb].
    2:{ cbn. intros H. injection H as <- <-.
        split; [reflexivity|]. split; [reflexivity|]. right. split; [reflexivity|]. tauto. }
    destruct upgrade as [value|];
      [destruct (value =? "websocket")%string eqn:Hu|]; cbn;
      intros H; try discriminate H; injection H as <- <-;
      (split; [reflexivity|]); (split; [reflexivity|]); left;
      repeat split; auto; discriminate.
Qed.

(** An upgraded connection starts from the system prompt alone and not
    processing, under the id that [generateUuid] returned; the sessions
    under every other id are as they were.  Only the deployment variant
    greets the client, and it sends the greeting as an error frame. *)
Theorem fetch_seeds_session (env : Store.environment) (upgrade : option string)
        (random : nat -> nat) (st : Store.store) (conversationId : string) :
  fst (fst (Store.fetch v promptMd GREETING env upgrade random st))
  = Store.Switching conversationId ->
  conversationId = Uuid.generateUuid random /\
  Store.session_of (snd (fst (Store.fetch v promptMd GREETING env upgrade random st)))
                   conversationId
  = Some (state (accepted promptMd)) /\
  (forall other,
      other <> conversationId ->
      Store.session_of (snd (fst (Store.fetch v promptMd GREETING env upgrade random st)))
                       other
      = Store.session_of st other) /\
  snd (Store.fetch v promptMd GREETING env upgrade random st)
  = match v with
    | index_js => []
    | part_000 => [Error GREETING]
    end.
Proof.
  unfold Store.fetch.
  destruct (negb (Store.present (Some promptMd))); [discriminate|].
  destruct (negb (Store.present (Store.DEEPSEEK_API_KEY env))); [discriminate|].
  destruct (match v with
            | index_js => false
            | part_000 => negb (Store.present (Store.SQL_API_BASE_URL env))
            end); [discriminate|].
  destruct (negb match upgrade with
                 | Some value => (value =? "websocket")%string
                 | None => false
                 end); [discriminate|].
  cbn [fst snd]. intros H. injection H as <-.
  split; [reflexivity|]. split; [|split; [|reflexivity]].
  - unfold Store.session_of. cbn. rewrite !set_same. reflexivity.
  - intros other Hother. unfold Store.session_of. cbn.
    rewrite !set_other by exact Hother. reflexivity.
Qed.

End AcceptClose.


Lemma fetch_refusal_witness :
  let env := {| Store.DEEPSEEK_API_KEY := None;
                Store.SQL_API_BASE_URL := Some "https://sql.example/" |} in
  let st := {| Store.conversations := fun _ => None;
               Store.processing := fun _ => None |} in
  let r := Store.fetch part_000 "prompt" "hello" env (Some "websocket") (fun _ => 7) st in
  fst (fst r)
  = Store.Plain 500 "Error: DEEPSEEK_API_KEY environment variable not set" /\
  snd (fst r) = st /\ snd r = [].
Proof.
  cbv zeta. split; [reflexivity|].
  destruct (fetch_refusal part_000 "prompt" "hello"
              {| Store.DEEPSEEK_API_KEY := None;
                 Store.SQL_API_BASE_URL := Some "https://sql.example/" |}
              (Some "websocket") (fun _ => 7)
              {| Store.conversations := fun _ => None;
                 Store.processing := fun _ => None |}
              500 "Error: DEEPSEEK_API_KEY environment variable not set")
    as (H1 & H2 & _).
  - reflexivity.
  - split; assumption.
Defined.

Lemma fetch_seeds_session_witness :
  let env := {| Store.DEEPSEEK_API_KEY := Some "key";
                Store.SQL_API_BASE_URL := Some "https://sql.example/" |} in
  let st := {| Store.conversations := fun _ => None;
               Store.processing := fun _ => None |} in
  let r := Store.fetch part_000 "prompt" "hello" env (Some "websocket") (fun _ => 7) st in
  Store.session_of (snd (fst r)) "77777777-7777-4777-b777-777777777777"
  = Some Sample.idle /\
  snd r = [Error "hello"].
Proof.
  cbv zeta.
  destruct (fetch_seeds_session part_000 "prompt" "hello"
              {| Store.DEEPSEEK_API_KEY := Some "key";
                 Store.SQL_API_BASE_URL := Some "https://sql.example/" |}
              (Some "websocket") (fun _ => 7)
              {| Store.conversations := fun _ => None;
                 Store.processing := fun _ => None |}
              "77777777-7777-4777-b777-777777777777")
    as (_ & H1 & _ & H2).
  - vm_compute. reflexivity.
  - split; assumption.
Defined.


(** ** Instances of the properties of the loop and of the history *)

Section MoreExamples.

#[local] Existing Instance Sample.runtime.

Lemma ceiling_reached_after_ten_batches_witness :
  let first := repeat (Sample.respond (Sample.asks [Sample.select_call "call_1"])) 10 in
  let r := exec (turn index_js "" (JStr "a"))
                {| completions := first ++ [Sample.respond (Sample.answers "Done.")];
                   sql_results := repeat Sample.rows 10 |}
                Sample.idle in
  round_trips (events r) = maxIterations /\
  completions (remaining r) = [Sample.respond (Sample.answers "Done.")] /\
  (exists es, events r = es ++ [Sent (Error "Reached maximum function call limit.")]) /\
  processing (final r) = false.
Proof.
  cbv zeta.
  apply (ceiling_reached_after_ten_batches index_js "" (JStr "a")
           (repeat (Sample.respond (Sample.asks [Sample.select_call "call_1"])) 10)
           [Sample.respond (Sample.answers "Done.")]
           (repeat Sample.rows 10) Sample.idle).
  - right. exists "a". reflexivity.
  - reflexivity.
  - apply Forall_forall. intros o Ho. apply repeat_spec in Ho. subst o.
    eexists _, _. split; [reflexivity|]. split; [reflexivity|].
    split; [reflexivity|]. split; [discriminate|].
    intros toolCall w s [<-|[]]. exists Next.
    rewrite (exec_select_call index_js "" _ (Sample.select_call "call_1")
               [("query", JStr "SELECT * FROM packages")] "SELECT * FROM packages" w s);
      try reflexivity.
    apply (includes_toUpperCase "SELECT" keyword_SELECT). reflexivity.
Defined.


Lemma served_correlated_witness :
  let s := final (exec (on_message part_000 "https://sql.example/"
                          (Sample.object_text "message" (Sample.quoted "list all packages")))
                       Sample.nominal (state (accepted "prompt"))) in
  served part_000 "https://sql.example/" "prompt" s /\ correlated (messages s).
Proof.
  cbv zeta.
  assert (H : served part_000 "https://sql.example/" "prompt"
                (final (exec (on_message part_000 "https://sql.example/"
                                (Sample.object_text "message"
                                   (Sample.quoted "list all packages")))
                             Sample.nominal (state (accepted "prompt"))))).
  { apply served_turn. apply served_accepted. }
  split; [exact H|].
  apply (served_correlated part_000 "https://sql.example/" "prompt" _ H).
Defined.

End MoreExamples.
